(** * Air-quality ingestion pipeline: a shallow embedding

    The development embeds the hourly synchronisation job of
    [air-lambda/la-hourly-sync.js] (retrying fetch, per-station
    processing, paging, batch loop, progress record) and the station
    matcher of [air-lambda/fixed-index.js], and states the properties of
    the ingestion pipeline over that embedding.

    Layout: JavaScript primitives the code relies on ([Js]), the model of
    [la-hourly-sync.js] ([LaHourlySync]), the model of [matchStations]
    ([FixedIndex]), the predicates the statements are phrased with
    ([Vocabulary]), small concrete stores and environments ([Scenario]),
    then the theorems.

    Modelling choices: computations are functions from the world (store,
    clock, counters, event trace) to a result or an exception and the new
    world; everything outside the program (upstream answers, store
    failures, random numbers, time zone) is read from an environment, so
    a theorem quantified over the environment holds for every behaviour
    of the outside.  Console output is not modelled.  Numbers are exact
    (integers and rationals). *)

From Stdlib Require Import ZArith QArith String Ascii List Lia Lqa.
From stdpp Require Import gmap strings list pretty.

Local Open Scope string_scope.

(** * JavaScript primitives used by the sources *)

Module Js.

(** Values found in identifier positions ([station.id], [location.id],
    [sensor.openaqSensorId], [measurement.sensorsId]): absent, a number
    or a string.  Identifiers are integers in the store and upstream, so
    numbers are modelled by [Z]; [undefined] and [null] behave alike at
    every use in the sources and share one constructor. *)
Inductive JsId : Type :=
| IdUndefined
| IdNum (n : Z)
| IdStr (s : string).

(** ToBoolean. *)
Definition truthy (x : JsId) : bool :=
  match x with
  | IdUndefined => false
  | IdNum n => negb (n =? 0)%Z
  | IdStr s => negb (String.eqb s EmptyString)
  end.

(** [a || b]. *)
Definition or (a b : JsId) : JsId := if truthy a then a else b.

(** [x !== 0]. *)
Definition isNotZero (x : JsId) : bool :=
  match x with
  | IdNum n => negb (n =? 0)%Z
  | _ => true
  end.

(** ToPropertyKey / template-literal conversion: the string under which
    a value indexes an object. *)
Definition toPropertyKey (x : JsId) : string :=
  match x with
  | IdUndefined => "undefined"
  | IdNum n => pretty n
  | IdStr s => s
  end.

(** The property names of [Object.prototype]: a plain object answers
    them with the inherited built-in (a function, or the prototype itself
    for ["__proto__"]) unless a property of its own shadows it. *)
Definition objectPrototypeKeys : list string :=
  ["constructor"; "__defineGetter__"; "__defineSetter__"; "hasOwnProperty";
   "__lookupGetter__"; "__lookupSetter__"; "isPrototypeOf"; "propertyIsEnumerable";
   "toString"; "valueOf"; "__proto__"; "toLocaleString"].

Definition isInherited (k : string) : bool :=
  existsb (String.eqb k) objectPrototypeKeys.

(** A value read from a JSON payload: the field is absent, or holds JSON
    [null], a number, a string, a boolean, or an object or array, which
    is given by its JSON text since the sources never look inside one.
    Arithmetic is exact (rationals); rounding of IEEE doubles is not
    modelled. *)
Inductive JsValue : Type :=
| VUndefined
| VNull
| VNum (q : Q)
| VStr (s : string)
| VBool (b : bool)
| VJson (text : string).

(** [String.prototype.toLowerCase] on ASCII strings: the letters A-Z are
    lowered.  On a string with other than ASCII characters the source
    lowers by the Unicode tables and this function does not; the
    theorems that depend on lower-casing assume ASCII names. *)
Definition lowerAscii (c : ascii) : ascii :=
  let n := nat_of_ascii c in
  if (65 <=? n)%nat && (n <=? 90)%nat then ascii_of_nat (n + 32) else c.

Fixpoint toLowerCase (s : string) : string :=
  match s with
  | EmptyString => EmptyString
  | String c r => String (lowerAscii c) (toLowerCase r)
  end.

(** [Array.prototype.slice(start, end)]: a negative index counts from
    the end of the array, indices are clamped to [0, len], and the result
    is empty when the clamped end does not exceed the clamped start. *)
Definition relativeIndex (len k : Z) : Z :=
  if (k <? 0)%Z then Z.max (len + k) 0 else Z.min k len.

Definition slice {A : Type} (l : list A) (start final : Z) : list A :=
  let len := Z.of_nat (length l) in
  let k := relativeIndex len start in
  let e := relativeIndex len final in
  take (Z.to_nat (e - k)) (drop (Z.to_nat k) l).

(** [Math.ceil(a / b)] and [Math.floor(a / b)] on integers, [b > 0]. *)
Definition floorDiv (a b : Z) : Z := (a / b)%Z.
Definition ceilDiv (a b : Z) : Z := (- ((- a) / b))%Z.

(** ** Dates

    A [Date] is its time value, milliseconds since the epoch.  The
    abstract operations are those of the language definition; the local
    time zone adjustment [tza] is a fixed offset in milliseconds (zero
    under UTC, the zone of the deployed function), so daylight-saving
    transitions are not modelled, nor is the clipping of time values
    beyond the representable range. *)
Section Dates.
Local Open Scope Z_scope.

Definition msPerSecond : Z := 1000.
Definition msPerMinute : Z := 60000.
Definition msPerHour : Z := 3600000.
Definition msPerDay : Z := 86400000.

Definition Day (t : Z) : Z := t / msPerDay.
Definition HourFromTime (t : Z) : Z := (t / msPerHour) mod 24.
Definition MinFromTime (t : Z) : Z := (t / msPerMinute) mod 60.
Definition SecFromTime (t : Z) : Z := (t / msPerSecond) mod 60.
Definition msFromTime (t : Z) : Z := t mod msPerSecond.

Definition MakeTime (hour min sec ms : Z) : Z :=
  hour * msPerHour + min * msPerMinute + sec * msPerSecond + ms.
Definition MakeDate (day time : Z) : Z := day * msPerDay + time.

Definition LocalTime (tza t : Z) : Z := t + tza.
Definition UTC (tza t : Z) : Z := t - tza.

(** [Date.prototype.setMinutes(min, sec, ms)]. *)
Definition setMinutes (tza t min sec ms : Z) : Z :=
  let lt := LocalTime tza t in
  UTC tza (MakeDate (Day lt) (MakeTime (HourFromTime lt) min sec ms)).

End Dates.

End Js.

(** * The hourly synchronisation job, [air-lambda/la-hourly-sync.js] *)

Module LaHourlySync.
Import Js.

(** ** Documents of the backing store *)

Definition ObjectId : Type := Z.

Record ParamDesc : Type := {
  param_id : Z;
  param_name : option string;
  param_units : string;
  param_displayName : string
}.

Record Station : Type := {
  station__id : ObjectId;
  station_id : JsId;
  station_name : option string;
  station_coordinates : option (Q * Q);   (* latitude, longitude *)
  station_lastDataUpdate : option Z
}.

Record Sensor : Type := {
  sensor__id : ObjectId;
  sensor_id : JsId;
  sensor_openaqSensorId : JsId;
  sensor_parameter : option ParamDesc;
  sensor_station : ObjectId;
  sensor_value : JsValue;
  sensor_lastUpdated : option Z;
  sensor_isSimulated : option bool
}.

Record Measurement : Type := {
  meas_station : ObjectId;
  meas_parameter : ParamDesc;
  meas_value : JsValue;
  meas_isSimulated : bool;
  meas_timestamp : Z;
  meas_createdAt : Z
}.

(** The single document [{ _id: 'LA_HOURLY_SYNC' }] of [lambjobprogress]. *)
Record Progress : Type := {
  lastRunTime : Z;
  lastOffset : Z;
  nextOffset : Z;
  prog_totalStations : Z;
  batchesCompleted : Z;
  totalBatches : Z;
  isFullyComplete : bool
}.

Record Store : Type := {
  stationCollection : list Station;
  sensorCollection : list Sensor;
  measurementCollection : list Measurement;
  progressCollection : option Progress
}.

(** What a store operation addresses: one of the four collections, or
    the client itself, when it is constructed ([new MongoClient]),
    connected ([client.connect()], [Client]) and closed
    ([client.close()]). *)
Inductive Collection : Type :=
| Client | Stations | Sensors | Measurements | ProgressRecords
| ClientNew | ClientClose.

(** ** Upstream payloads *)

(** One entry of [data.results] of the [/latest] endpoint. *)
Record Reading : Type := {
  sensorsId : JsId;
  reading_value : JsValue
}.

(** The parsed body: JSON [null], or an object whose [results] field is
    absent or a list of readings. *)
Inductive Json : Type :=
| JsonNull
| JsonObject (results : option (list Reading)).

(** What one call of [fetch] does: the promise rejects, or a response
    arrives with a status, a body text and the result of parsing that
    text ([None]: [response.json()] throws). *)
Inductive FetchOutcome : Type :=
| FetchRejected (message : string)
| FetchResponse (status : Z) (text : string) (json : option Json).

Record Response : Type := {
  resp_status : Z;
  resp_text : string;
  resp_json : option Json
}.

Definition resp_ok (r : Response) : bool :=
  (200 <=? resp_status r)%Z && (resp_status r <=? 299)%Z.

(** ** The environment and the mutable world *)

(** What the run is given and cannot change: the environment variables
    (the two paging variables already through [parseInt]), the time zone,
    and the behaviour of everything outside the program: the numbers
    [Math.random] returns, what the upstream answers to the n-th request,
    and which store operations fail. *)
Record Env : Type := {
  MONGO_URI : option string;
  OPENAQ_API_KEY : option string;
  MAX_STATIONS_PER_RUN : Z;
  STATIONS_OFFSET : Z;
  localTZA : Z;
  randomSeq : nat -> Q;
  network : string -> nat -> FetchOutcome;
  storeFault : Collection -> nat -> option string
}.

Inductive Event : Type :=
| EvSleep (ms : Z)
| EvFetch (url : string).

Record World : Type := {
  store : Store;
  clock : Z;
  randomIdx : nat;
  fetchCount : nat;
  storeOps : nat;
  trace : list Event
}.

(** ** Exceptions and the computation monad *)

Inductive Thrown : Type :=
| ThrownError (message : string)
| ThrownUndefined.

Inductive Res (A : Type) : Type :=
| Ok (a : A)
| Throw (e : Thrown).
Arguments Ok {A} a.
Arguments Throw {A} e.

Definition M (A : Type) : Type := World -> Res A * World.

Definition ret {A : Type} (a : A) : M A := fun w => (Ok a, w).

Definition bind {A B : Type} (m : M A) (k : A -> M B) : M B :=
  fun w =>
    match m w with
    | (Ok a, w') => k a w'
    | (Throw e, w') => (Throw e, w')
    end.

Definition throw {A : Type} (e : Thrown) : M A := fun w => (Throw e, w).

(** [try { body } catch (e) { handler e }]. *)
Definition tryCatch {A : Type} (body : M A) (handler : Thrown -> M A) : M A :=
  fun w =>
    match body w with
    | (Ok a, w') => (Ok a, w')
    | (Throw e, w') => handler e w'
    end.

(** [try { body } finally { fin }]: [fin] runs whatever [body] did, a
    [return] included, and an exception of [fin] replaces the outcome of
    [body]. *)
Definition tryFinally {A : Type} (body : M A) (fin : M unit) : M A :=
  fun w =>
    match body w with
    | (r, w') =>
        match fin w' with
        | (Ok _, w'') => (r, w'')
        | (Throw e, w'') => (Throw e, w'')
        end
    end.

Declare Scope js_scope.
Delimit Scope js_scope with js.
Notation "x <- c1 ;; c2" := (bind c1 (fun x => c2))
  (at level 100, c1 at next level, right associativity) : js_scope.
Notation "c1 ;;; c2" := (bind c1 (fun _ => c2))
  (at level 100, right associativity) : js_scope.
Local Open Scope js_scope.

(** [for (const x of l)] threading the loop's mutable locals. *)
Fixpoint forOf {A S : Type} (body : S -> A -> M S) (l : list A) (s : S) : M S :=
  match l with
  | [] => ret s
  | x :: l' => s' <- body s x ;; forOf body l' s'
  end.

(** [e.message] in a handler: a [TypeError] when [e] is [undefined]. *)
Definition messageOf (e : Thrown) : M string :=
  match e with
  | ThrownError msg => ret msg
  | ThrownUndefined =>
      throw (ThrownError "Cannot read properties of undefined (reading 'message')")
  end.

(** ** World updates *)

Definition setStore (s : Store) (w : World) : World :=
  {| store := s; clock := clock w; randomIdx := randomIdx w;
     fetchCount := fetchCount w; storeOps := storeOps w; trace := trace w |}.

Definition setSensors (l : list Sensor) (s : Store) : Store :=
  {| stationCollection := stationCollection s; sensorCollection := l;
     measurementCollection := measurementCollection s;
     progressCollection := progressCollection s |}.

Definition setMeasurements (l : list Measurement) (s : Store) : Store :=
  {| stationCollection := stationCollection s;
     sensorCollection := sensorCollection s; measurementCollection := l;
     progressCollection := progressCollection s |}.

Definition setStations (l : list Station) (s : Store) : Store :=
  {| stationCollection := l; sensorCollection := sensorCollection s;
     measurementCollection := measurementCollection s;
     progressCollection := progressCollection s |}.

Definition setProgress (p : option Progress) (s : Store) : Store :=
  {| stationCollection := stationCollection s;
     sensorCollection := sensorCollection s;
     measurementCollection := measurementCollection s;
     progressCollection := p |}.

Section WithEnv.
Context (env : Env).

(** [new Date()] as a time value. *)
Definition newDate : M Z := fun w => (Ok (clock w), w).

(** [await new Promise(resolve => setTimeout(resolve, ms))]. *)
Definition sleep (ms : Z) : M unit :=
  fun w =>
    (Ok tt,
     {| store := store w; clock := (clock w + ms)%Z; randomIdx := randomIdx w;
        fetchCount := fetchCount w; storeOps := storeOps w;
        trace := trace w ++ [EvSleep ms] |}).

(** [Math.random()]. *)
Definition mathRandom : M Q :=
  fun w =>
    (Ok (randomSeq env (randomIdx w)),
     {| store := store w; clock := clock w; randomIdx := S (randomIdx w);
        fetchCount := fetchCount w; storeOps := storeOps w;
        trace := trace w |}).

(** [await fetch(url, options)]. *)
Definition fetch (url : string) : M Response :=
  fun w =>
    let w' := {| store := store w; clock := clock w; randomIdx := randomIdx w;
                 fetchCount := S (fetchCount w); storeOps := storeOps w;
                 trace := trace w ++ [EvFetch url] |} in
    match network env url (fetchCount w) with
    | FetchRejected msg => (Throw (ThrownError msg), w')
    | FetchResponse status text json =>
        (Ok {| resp_status := status; resp_text := text; resp_json := json |}, w')
    end.

(** [await response.json()]. *)
Definition responseJson (r : Response) : M Json :=
  match resp_json r with
  | Some j => ret j
  | None => throw (ThrownError "invalid json response body")
  end.

(** Every store operation first consults the fault schedule: the n-th
    operation of the run fails with a message, or goes through. *)
Definition storeCall (c : Collection) : M unit :=
  fun w =>
    let w' := {| store := store w; clock := clock w; randomIdx := randomIdx w;
                 fetchCount := fetchCount w; storeOps := S (storeOps w);
                 trace := trace w |} in
    match storeFault env c (storeOps w) with
    | Some msg => (Throw (ThrownError msg), w')
    | None => (Ok tt, w')
    end.

Definition readStore : M Store := fun w => (Ok (store w), w).
Definition writeStore (f : Store -> Store) : M unit :=
  fun w => (Ok tt, setStore (f (store w)) w).

(** ** Store operations *)

(** [updateOne(filter, { $set })] changes the first matching document. *)
Fixpoint updateFirst {A : Type} (p : A -> bool) (f : A -> A) (l : list A) : list A :=
  match l with
  | [] => []
  | x :: r => if p x then f x :: r else x :: updateFirst p f r
  end.

Definition option_string_eqb (a b : option string) : bool :=
  match a, b with
  | Some x, Some y => String.eqb x y
  | None, None => true
  | _, _ => false
  end.

(** The filter of the existence check, lines 164-168. *)
Definition sameKey (stationId : ObjectId) (name : option string) (timestamp : Z)
    (m : Measurement) : bool :=
  (meas_station m =? stationId)%Z
  && option_string_eqb (param_name (meas_parameter m)) name
  && (meas_timestamp m =? timestamp)%Z.

(** [sensorCollection.find({ station: station._id }).toArray()]. *)
Definition findSensors (stationId : ObjectId) : M (list Sensor) :=
  storeCall Sensors ;;;
  st <- readStore ;;
  ret (List.filter (fun s => (sensor_station s =? stationId)%Z) (sensorCollection st)).

(** [measurementCollection.findOne({ station, 'parameter.name', timestamp })]. *)
Definition findOneMeasurement (stationId : ObjectId) (name : option string)
    (timestamp : Z) : M (option Measurement) :=
  storeCall Measurements ;;;
  st <- readStore ;;
  ret (List.find (sameKey stationId name timestamp) (measurementCollection st)).

(** [measurementCollection.insertOne(doc)]. *)
Definition insertOneMeasurement (doc : Measurement) : M unit :=
  storeCall Measurements ;;;
  writeStore (fun st => setMeasurements (measurementCollection st ++ [doc]) st).

(** [sensorCollection.updateOne({ _id }, { $set: { value, lastUpdated,
    isSimulated } })]. *)
Definition setSensorValue (value : JsValue) (lastUpdated : Z) (isSimulated : bool)
    (s : Sensor) : Sensor :=
  {| sensor__id := sensor__id s; sensor_id := sensor_id s;
     sensor_openaqSensorId := sensor_openaqSensorId s;
     sensor_parameter := sensor_parameter s; sensor_station := sensor_station s;
     sensor_value := value; sensor_lastUpdated := Some lastUpdated;
     sensor_isSimulated := Some isSimulated |}.

Definition updateOneSensor (id : ObjectId) (value : JsValue) (lastUpdated : Z)
    (isSimulated : bool) : M unit :=
  storeCall Sensors ;;;
  writeStore (fun st =>
    setSensors (updateFirst (fun s => (sensor__id s =? id)%Z)
                  (setSensorValue value lastUpdated isSimulated)
                  (sensorCollection st)) st).

(** [stationCollection.updateOne({ _id }, { $set: { lastDataUpdate } })]. *)
Definition setLastDataUpdate (t : Z) (s : Station) : Station :=
  {| station__id := station__id s; station_id := station_id s;
     station_name := station_name s;
     station_coordinates := station_coordinates s;
     station_lastDataUpdate := Some t |}.

Definition updateOneStation (id : ObjectId) (t : Z) : M unit :=
  storeCall Stations ;;;
  writeStore (fun st =>
    setStations (updateFirst (fun s => (station__id s =? id)%Z)
                   (setLastDataUpdate t) (stationCollection st)) st).

(** [progressCollection.updateOne({ _id: 'LA_HOURLY_SYNC' }, { $set },
    { upsert: true })]: the [$set] names every field of the record. *)
Definition upsertProgress (p : Progress) : M unit :=
  storeCall ProgressRecords ;;;
  writeStore (setProgress (Some p)).

(** ** [fetchWithRetry], lines 16-40 *)

(** The body of the [try] of one loop iteration.  Request options (the
    headers and the time-out) do not influence the control flow and are
    left out. *)
Definition delayMs (attempt : Z) : Z := (2000 * 2 ^ attempt)%Z.

Definition fetchAttempt (url : string) (attempt : Z) : M Json :=
  (if (attempt >? 0)%Z then sleep (delayMs attempt) else ret tt) ;;;
  response <- fetch url ;;
  if resp_ok response then responseJson response
  else throw (ThrownError
         ("HTTP error " ++ pretty (resp_status response) ++ ": " ++ resp_text response)).

(** The [for] loop with [remaining] iterations to go; leaving the loop
    throws [lastError]. *)
Fixpoint fetchLoop (url : string) (remaining : nat) (attempt : Z)
    (lastError : Thrown) : M Json :=
  match remaining with
  | O => throw lastError
  | S n =>
      tryCatch (fetchAttempt url attempt)
        (fun error =>
           _ <- messageOf error ;;
           fetchLoop url n (attempt + 1)%Z error)
  end.

Definition fetchWithRetry (url : string) (maxRetries : nat) : M Json :=
  fetchLoop url maxRetries 0%Z ThrownUndefined.

Definition defaultMaxRetries : nat := 3.

(** ** [getLatestMeasurements], lines 43-62 *)

Definition latestUrl (locationId : JsId) : string :=
  "https://api.openaq.org/v3/locations/" ++ toPropertyKey locationId ++ "/latest".

Definition getLatestMeasurements (locationId : JsId) : M (list Reading) :=
  tryCatch
    (data <- fetchWithRetry (latestUrl locationId) defaultMaxRetries ;;
     match data with
     | JsonNull =>
         throw (ThrownError "Cannot read properties of null (reading 'results')")
     | JsonObject (Some results) => ret results
     | JsonObject None => ret []
     end)
    (fun error => _ <- messageOf error ;; ret []).

(** ** [generateSimulatedValue], lines 84-102 *)

Definition isCase (paramName : option string) (label : string) : bool :=
  option_string_eqb paramName (Some label).

Definition generateSimulatedValue (paramName : option string) : M Q :=
  if isCase paramName "pm25" then r <- mathRandom ;; ret (r * 40 + 5)%Q
  else if isCase paramName "pm10" then r <- mathRandom ;; ret (r * 50 + 10)%Q
  else if isCase paramName "o3" then r <- mathRandom ;; ret (r * 60 + 10)%Q
  else if isCase paramName "no2" then r <- mathRandom ;; ret (r * 50 + 5)%Q
  else if isCase paramName "so2" then r <- mathRandom ;; ret (r * 20 + 1)%Q
  else if isCase paramName "co" then r <- mathRandom ;; ret (r * 5 + (1 # 5))%Q
  else r <- mathRandom ;; ret (r * 30 + 5)%Q.

(** ** [processStation], lines 105-223 *)

Inductive Reason : Type :=
| R_missing_id | R_no_data | R_no_sensors | R_success | R_no_new_data | R_error.

Definition reasonName (r : Reason) : string :=
  match r with
  | R_missing_id => "missing_id"
  | R_no_data => "no_data"
  | R_no_sensors => "no_sensors"
  | R_success => "success"
  | R_no_new_data => "no_new_data"
  | R_error => "error"
  end.

(** The object [processStation] returns. *)
Record Outcome : Type := {
  out_success : bool;
  out_reason : Reason;
  out_error : option string;
  out_sensorsProcessed : option Z;
  out_recordsCreated : option Z
}.

Definition failure (r : Reason) : Outcome :=
  {| out_success := false; out_reason := r; out_error := None;
     out_sensorsProcessed := None; out_recordsCreated := None |}.

(** The locals the sensor loop updates. *)
Record LoopVars : Type := {
  stationDataUpdated : bool;
  sensorsProcessed : Z;
  recordsCreated : Z
}.

(** Lines 130-133: later readings overwrite earlier ones under the same
    key.  [sensorDataMap] is a plain object, given by the finite map of
    the readings stored in it: a built-in it inherits has no [value], so
    that line 150 takes it for an absent reading, as the map does. *)
Definition buildSensorDataMap (latestData : list Reading) : gmap string Reading :=
  fold_left (fun m r => <[toPropertyKey (sensorsId r) := r]> m) latestData ∅.

(** Lines 141-158: the real value when the payload has one for the
    sensor, a simulated one otherwise. *)
Definition isDefined (v : JsValue) : bool :=
  match v with VUndefined => false | _ => true end.

Definition paramNameOf (sensor : Sensor) : option string :=
  match sensor_parameter sensor with
  | Some p => param_name p
  | None => None
  end.

Definition resolveValue (sensorDataMap : gmap string Reading) (sensor : Sensor)
    : M (JsValue * bool) :=
  let sensorId := Js.or (sensor_openaqSensorId sensor) (sensor_id sensor) in
  match sensorDataMap !! toPropertyKey sensorId with
  | Some measurement =>
      if isDefined (reading_value measurement)
      then ret (reading_value measurement, false)
      else v <- generateSimulatedValue (paramNameOf sensor) ;; ret (VNum v, true)
  | None => v <- generateSimulatedValue (paramNameOf sensor) ;; ret (VNum v, true)
  end.

(** [sensor.parameter.name]: a [TypeError] when the sensor has no
    parameter. *)
Definition parameterOf (sensor : Sensor) : M ParamDesc :=
  match sensor_parameter sensor with
  | Some p => ret p
  | None => throw (ThrownError "Cannot read properties of undefined (reading 'name')")
  end.

(** Lines 160-202: the existence check, the insert and the sensor
    update, for a value already resolved. *)
Definition writeSensorValue (station : Station) (currentTime : Z) (vars : LoopVars)
    (sensor : Sensor) (value : JsValue) (isSimulated : bool) : M LoopVars :=
  match value with
  | VNull => ret vars
  | _ =>
      let processed := (sensorsProcessed vars + 1)%Z in
      parameter <- parameterOf sensor ;;
      existingRecord <-
        findOneMeasurement (station__id station) (param_name parameter) currentTime ;;
      vars' <-
        match existingRecord with
        | None =>
            createdAt <- newDate ;;
            insertOneMeasurement
              {| meas_station := station__id station;
                 meas_parameter :=
                   {| param_id := param_id parameter;
                      param_name := param_name parameter;
                      param_units := param_units parameter;
                      param_displayName := param_displayName parameter |};
                 meas_value := value;
                 meas_isSimulated := isSimulated;
                 meas_timestamp := currentTime;
                 meas_createdAt := createdAt |} ;;;
            ret {| stationDataUpdated := true; sensorsProcessed := processed;
                   recordsCreated := (recordsCreated vars + 1)%Z |}
        | Some _ =>
            ret {| stationDataUpdated := stationDataUpdated vars;
                   sensorsProcessed := processed;
                   recordsCreated := recordsCreated vars |}
        end ;;
      lastUpdated <- newDate ;;
      updateOneSensor (sensor__id sensor) value lastUpdated isSimulated ;;;
      ret vars'
  end.

(** One iteration of the sensor loop, lines 140-203. *)
Definition processSensor (station : Station) (sensorDataMap : gmap string Reading)
    (currentTime : Z) (vars : LoopVars) (sensor : Sensor) : M LoopVars :=
  resolved <- resolveValue sensorDataMap sensor ;;
  writeSensorValue station currentTime vars sensor (fst resolved) (snd resolved).

Definition processStation (station : Station) (currentTime : Z) : M Outcome :=
  tryCatch
    (if negb (truthy (station_id station)) && isNotZero (station_id station)
     then ret (failure R_missing_id)
     else
       latestData <- getLatestMeasurements (station_id station) ;;
       if (length latestData =? 0)%nat then ret (failure R_no_data)
       else
         sensors <- findSensors (station__id station) ;;
         if (length sensors =? 0)%nat then ret (failure R_no_sensors)
         else
           let sensorDataMap := buildSensorDataMap latestData in
           vars <- forOf (processSensor station sensorDataMap currentTime) sensors
                     {| stationDataUpdated := false; sensorsProcessed := 0;
                        recordsCreated := 0 |} ;;
           (if stationDataUpdated vars
            then now <- newDate ;; updateOneStation (station__id station) now
            else ret tt) ;;;
           ret {| out_success := stationDataUpdated vars;
                  out_reason :=
                    if stationDataUpdated vars then R_success else R_no_new_data;
                  out_error := None;
                  out_sensorsProcessed := Some (sensorsProcessed vars);
                  out_recordsCreated := Some (recordsCreated vars) |})
    (fun err =>
       msg <- messageOf err ;;
       ret {| out_success := false; out_reason := R_error; out_error := Some msg;
              out_sensorsProcessed := None; out_recordsCreated := None |}).

(** ** [handler], lines 226-434 *)

(** The bounding box of the station query, lines 8-13 and 280-283. *)
Definition minLat : Q := 168 # 5.     (* 33.6 *)
Definition maxLat : Q := 174 # 5.     (* 34.8 *)
Definition minLng : Q := - (1189 # 10). (* -118.9 *)
Definition maxLng : Q := - (235 # 2).   (* -117.5 *)

Definition inLaBounds (s : Station) : bool :=
  match station_coordinates s with
  | Some (lat, lng) =>
      Qle_bool minLat lat && Qle_bool lat maxLat
      && Qle_bool minLng lng && Qle_bool lng maxLng
  | None => false
  end.

(** [results.paging], lines 321-327. *)
Record Paging : Type := {
  totalStations : Z;
  processedOffset : Z;
  processedCount : Z;
  remainingStations : Z;
  isComplete : bool
}.

(** [results], lines 313-328. *)
Record Results : Type := {
  total : Z;
  successful : Z;
  failed : Z;
  failureReasons : gmap string Z;
  res_sensorsProcessed : Z;
  res_recordsCreated : Z;
  paging : Paging
}.

(** The paging arithmetic, lines 302-304, 325-326 and 377. *)
Definition endOffsetOf (totalStations offset maxPerRun : Z) : Z :=
  Z.min (offset + maxPerRun) totalStations.

Definition pageOf (allLaStations : list Station) (offset maxPerRun : Z) : list Station :=
  slice allLaStations offset
    (endOffsetOf (Z.of_nat (length allLaStations)) offset maxPerRun).

Definition pagingOf (allLaStations : list Station) (offset maxPerRun : Z) : Paging :=
  let totalStations := Z.of_nat (length allLaStations) in
  let endOffset := endOffsetOf totalStations offset maxPerRun in
  {| totalStations := totalStations;
     processedOffset := offset;
     processedCount := Z.of_nat (length (pageOf allLaStations offset maxPerRun));
     remainingStations := (totalStations - endOffset)%Z;
     isComplete := (endOffset >=? totalStations)%Z |}.

Definition nextOffsetOf (totalStations endOffset : Z) : Z :=
  if (endOffset >=? totalStations)%Z then 0%Z else endOffset.

Definition batchSize : Z := 3.

(** The values [i] takes in [for (let i = 0; i < stop; i += step)]. *)
Definition forRange (stop step : Z) : list Z :=
  (fun k => (k * step)%Z) <$> seqZ 0 (ceilDiv stop step).

(** Lines 339-347.  The stations of a batch are distinct documents, so
    [batchStations.indexOf(station)] is the position of [station]. *)
Definition processBatchStation (currentTime : Z) (acc : nat * list Outcome)
    (station : Station) : M (nat * list Outcome) :=
  (if (0 <? fst acc)%nat then sleep 1000 else ret tt) ;;;
  result <- processStation station currentTime ;;
  ret (S (fst acc), (snd acc ++ [result])%list).

(** Lines 350-360. *)
Definition orZero (x : option Z) : Z :=
  match x with Some n => n | None => 0%Z end.

Definition tally (results : Results) (result : Outcome) : Results :=
  if out_success result then
    {| total := total results;
       successful := (successful results + 1)%Z;
       failed := failed results;
       failureReasons := failureReasons results;
       res_sensorsProcessed :=
         (res_sensorsProcessed results + orZero (out_sensorsProcessed result))%Z;
       res_recordsCreated :=
         (res_recordsCreated results + orZero (out_recordsCreated result))%Z;
       paging := paging results |}
  else
    let reason := reasonName (out_reason result) in
    {| total := total results;
       successful := successful results;
       failed := (failed results + 1)%Z;
       failureReasons :=
         <[reason := (orZero (failureReasons results !! reason) + 1)%Z]>
           (failureReasons results);
       res_sensorsProcessed := res_sensorsProcessed results;
       res_recordsCreated := res_recordsCreated results;
       paging := paging results |}.

(** One iteration of the batch loop, lines 333-385. *)
Definition processBatch (laStations : list Station) (offset totalStations endOffset
    currentTime : Z) (results : Results) (i : Z) : M Results :=
  let batchStations := slice laStations i (i + batchSize) in
  let batchNumber := (floorDiv i batchSize + 1)%Z in
  acc <- forOf (processBatchStation currentTime) batchStations (O, []) ;;
  let results' := fold_left tally (snd acc) results in
  (if (i + batchSize <? Z.of_nat (length laStations))%Z
   then sleep (8 * 1000) else ret tt) ;;;
  now <- newDate ;;
  upsertProgress
    {| lastRunTime := now;
       lastOffset := offset;
       nextOffset := nextOffsetOf totalStations endOffset;
       prog_totalStations := totalStations;
       batchesCompleted := batchNumber;
       totalBatches := ceilDiv totalStations batchSize;
       isFullyComplete := (endOffset >=? totalStations)%Z |} ;;;
  ret results'.

(** Lines 301-386: paging, hour alignment and the batch loop over the
    stations the query returned. *)
Definition runPage (allLaStations : list Station) (offset maxPerRun : Z) : M Results :=
  let totalStations := Z.of_nat (length allLaStations) in
  let endOffset := endOffsetOf totalStations offset maxPerRun in
  let laStations := pageOf allLaStations offset maxPerRun in
  now <- newDate ;;
  let currentTime := setMinutes (localTZA env) now 0 0 0 in
  let results :=
    {| total := Z.of_nat (length laStations);
       successful := 0; failed := 0; failureReasons := ∅;
       res_sensorsProcessed := 0; res_recordsCreated := 0;
       paging := pagingOf allLaStations offset maxPerRun |} in
  forOf (processBatch laStations offset totalStations endOffset currentTime)
    (forRange (Z.of_nat (length laStations)) batchSize) results.

Inductive Body : Type :=
| BodyConfigurationError
| BodyNoStations
| BodyCompleted (stats : Results)
| BodyFailed (message : string).

Record HandlerResponse : Type := {
  statusCode : Z;
  body : Body
}.

(** An environment variable is usable when set and not empty. *)
Definition isSet (v : option string) : bool :=
  match v with
  | Some s => negb (String.eqb s EmptyString)
  | None => false
  end.

(** The [catch] of the handler, lines 421-427. *)
Definition onError (error : Thrown) : M HandlerResponse :=
  msg <- messageOf error ;;
  ret {| statusCode := 500; body := BodyFailed msg |}.

(** Lines 268-419: the [try] block from [client.connect()] on. *)
Definition collect : M HandlerResponse :=
  storeCall Client ;;;
  storeCall Stations ;;;
  st <- readStore ;;
  let allLaStations := List.filter inLaBounds (stationCollection st) in
  if (length allLaStations =? 0)%nat
  then ret {| statusCode := 404; body := BodyNoStations |}
  else
    results <- runPage allLaStations (STATIONS_OFFSET env)
                 (MAX_STATIONS_PER_RUN env) ;;
    ret {| statusCode := 200; body := BodyCompleted results |}.

(** Lines 226-434.  [client] is assigned by the first statement of the
    [try] block.  When [new MongoClient] throws, [client] is still
    undefined: the [catch] answers and the [finally] block does nothing.
    Once [client] is assigned, the [finally] block awaits
    [client.close()] whatever the block and the [catch] did, and a
    rejection of [close] replaces their answer. *)
Definition handler : M HandlerResponse :=
  if negb (isSet (MONGO_URI env)) || negb (isSet (OPENAQ_API_KEY env))
  then ret {| statusCode := 500; body := BodyConfigurationError |}
  else
    created <- tryCatch (storeCall ClientNew ;;; ret None)
                 (fun error => response <- onError error ;; ret (Some response)) ;;
    match created with
    | Some response => ret response
    | None => tryFinally (tryCatch collect onError) (storeCall ClientClose)
    end.

End WithEnv.

(** ** Hour alignment, lines 308-310 *)

(** [const currentTime = new Date(); currentTime.setMinutes(0, 0, 0)]
    applied to the time value [now]. *)
Definition alignToHour (tza now : Z) : Z := setMinutes tza now 0 0 0.

(** Two instants lie in the same clock hour when their local calendar
    day and hour of day agree. *)
Definition sameClockHour (tza t1 t2 : Z) : Prop :=
  Day (LocalTime tza t1) = Day (LocalTime tza t2)
  /\ HourFromTime (LocalTime tza t1) = HourFromTime (LocalTime tza t2).

(** The index of the local clock hour an instant falls in. *)
Definition hourIndex (tza t : Z) : Z := ((t + tza) / msPerHour)%Z.

(** ** Driving the paging across runs *)

(** A full cycle of runs: each run takes the page at its offset and the
    next run starts at the [nextOffset] the run recorded; the cycle ends
    with the run that records [nextOffset = 0].  [fuel] bounds the number
    of runs; [None] when it does not suffice. *)
Fixpoint cycle (fuel : nat) (allLaStations : list Station) (maxPerRun offset : Z)
    : option (list (list Station)) :=
  match fuel with
  | O => None
  | S fuel' =>
      let totalStations := Z.of_nat (length allLaStations) in
      let endOffset := endOffsetOf totalStations offset maxPerRun in
      let page := pageOf allLaStations offset maxPerRun in
      let next := nextOffsetOf totalStations endOffset in
      if (next =? 0)%Z then Some [page]
      else
        match cycle fuel' allLaStations maxPerRun next with
        | Some pages => Some (page :: pages)
        | None => None
        end
  end.

End LaHourlySync.

(** * The station matcher, [air-lambda/fixed-index.js] *)

Module FixedIndex.
Import Js.

(** An upstream location and a stored station, with the fields
    [matchStations] reads. *)
Record OpenaqLocation : Type := {
  loc_id : JsId;
  loc_name : option string
}.

Record DbStation : Type := {
  db__id : Z;
  db_id : JsId;
  db_name : option string
}.

Inductive MatchType : Type := MatchId | MatchName.

(** What [locationMap[key]] holds when it is truthy: a location stored
    under the key, or the built-in of [Object.prototype] the key names,
    which the matcher takes for a location all the same. *)
Inductive Property : Type :=
| Stored (location : OpenaqLocation)
| Inherited (key : string).

Record Match : Type := {
  dbStation : DbStation;
  openaqLocation : Property;
  matchType : MatchType
}.

Record MatchResult : Type := {
  matchedStations : list Match;
  unmatchedStations : list DbStation
}.

(** The key a truthy id indexes [locationMap] with, and the key of a
    truthy name; [None] when the guard of the source fails. *)
Definition idKey (id : JsId) : option string :=
  if truthy id then Some (toPropertyKey id) else None.

Definition nameKey (name : option string) : option string :=
  match name with
  | Some n => if String.eqb n EmptyString then None else Some (toLowerCase n)
  | None => None
  end.

(** Lines 79-87.  [locationMap] is a plain object (line 76), given by
    the finite map of the entries stored in it; the properties it
    inherits are answered by [lookupKey].  An assignment to
    ["__proto__"] would replace the prototype of the object instead of
    storing an entry: that case and names with other than ASCII
    characters are outside this model, see [plainInputs]. *)
Definition addLocation (locationMap : gmap string OpenaqLocation)
    (location : OpenaqLocation) : gmap string OpenaqLocation :=
  let byId :=
    match idKey (loc_id location) with
    | Some k => <[k := location]> locationMap
    | None => locationMap
    end in
  match nameKey (loc_name location) with
  | Some k => <[k := location]> byId
  | None => byId
  end.

Definition buildLocationMap (openaqLocations : list OpenaqLocation)
    : gmap string OpenaqLocation :=
  fold_left addLocation openaqLocations ∅.

(** [key && locationMap[key]]: the location stored under the key, else
    the built-in the object inherits under that name, else [undefined]. *)
Definition lookupKey (locationMap : gmap string OpenaqLocation) (key : option string)
    : option Property :=
  match key with
  | Some k =>
      match locationMap !! k with
      | Some location => Some (Stored location)
      | None => if isInherited k then Some (Inherited k) else None
      end
  | None => None
  end.

(** Lines 91-114, one station. *)
Definition matchStation (locationMap : gmap string OpenaqLocation)
    (acc : MatchResult) (station : DbStation) : MatchResult :=
  match lookupKey locationMap (idKey (db_id station)) with
  | Some location =>
      {| matchedStations :=
           matchedStations acc ++
             [{| dbStation := station; openaqLocation := location;
                 matchType := MatchId |}];
         unmatchedStations := unmatchedStations acc |}
  | None =>
      match lookupKey locationMap (nameKey (db_name station)) with
      | Some location =>
          {| matchedStations :=
               matchedStations acc ++
                 [{| dbStation := station; openaqLocation := location;
                     matchType := MatchName |}];
             unmatchedStations := unmatchedStations acc |}
      | None =>
          {| matchedStations := matchedStations acc;
             unmatchedStations := unmatchedStations acc ++ [station] |}
      end
  end.

(** [matchStations(dbStations, openaqLocations)], lines 73-118. *)
Definition matchStations (dbStations : list DbStation)
    (openaqLocations : list OpenaqLocation) : MatchResult :=
  fold_left (matchStation (buildLocationMap openaqLocations)) dbStations
    {| matchedStations := []; unmatchedStations := [] |}.

(** ** Ordinary inputs

    Ids and names as the upstream and the store have them: ASCII names,
    integer ids that a double holds exactly (a number indexes the object
    by its decimal digits, which is what [toPropertyKey] gives for
    these), and no key that names a property of [Object.prototype].  On
    such inputs no lookup is answered by an inherited property, no
    assignment replaces the prototype, and [toLowerCase], which lowers
    the ASCII letters, is [String.prototype.toLowerCase], which follows
    Unicode. *)
Definition ownKey (key : option string) : bool :=
  match key with
  | Some k => negb (isInherited k)
  | None => true
  end.

Definition isAscii (s : string) : bool :=
  forallb (fun c => (nat_of_ascii c <? 128)%nat) (list_ascii_of_string s).

Definition safeId (id : JsId) : bool :=
  match id with
  | IdNum n => (Z.abs n <=? 9007199254740991)%Z
  | _ => true
  end.

Definition asciiName (name : option string) : bool :=
  match name with
  | Some n => isAscii n
  | None => true
  end.

Definition plainStation (station : DbStation) : bool :=
  safeId (db_id station) && asciiName (db_name station)
  && ownKey (idKey (db_id station)) && ownKey (nameKey (db_name station)).

Definition plainLocation (location : OpenaqLocation) : bool :=
  safeId (loc_id location) && asciiName (loc_name location)
  && ownKey (idKey (loc_id location)) && ownKey (nameKey (loc_name location)).

Definition plainInputs (dbStations : list DbStation)
    (openaqLocations : list OpenaqLocation) : Prop :=
  forallb plainStation dbStations = true
  /\ forallb plainLocation openaqLocations = true.

(** ** The matcher as the specification words it

    A location is a candidate for a key when the key is its id key or its
    lower-cased name key.  A station is matched by id when its id key has
    a candidate, else by name when its name key has one, else it is
    unmatched; [pick] is the tie-break among the candidates, taken in
    upstream order. *)
Definition option_eqb (a : option string) (k : string) : bool :=
  match a with
  | Some x => String.eqb x k
  | None => false
  end.

Definition hasKey (k : string) (location : OpenaqLocation) : bool :=
  option_eqb (idKey (loc_id location)) k
  || option_eqb (nameKey (loc_name location)) k.

Definition candidates (openaqLocations : list OpenaqLocation) (key : option string)
    : list OpenaqLocation :=
  match key with
  | Some k => List.filter (hasKey k) openaqLocations
  | None => []
  end.

Definition classify (pick : list OpenaqLocation -> option OpenaqLocation)
    (openaqLocations : list OpenaqLocation) (station : DbStation)
    : option (OpenaqLocation * MatchType) :=
  match pick (candidates openaqLocations (idKey (db_id station))) with
  | Some location => Some (location, MatchId)
  | None =>
      match pick (candidates openaqLocations (nameKey (db_name station))) with
      | Some location => Some (location, MatchName)
      | None => None
      end
  end.

Fixpoint matchedBy (pick : list OpenaqLocation -> option OpenaqLocation)
    (openaqLocations : list OpenaqLocation) (dbStations : list DbStation)
    : list Match :=
  match dbStations with
  | [] => []
  | station :: rest =>
      match classify pick openaqLocations station with
      | Some (location, type) =>
          {| dbStation := station; openaqLocation := Stored location; matchType := type |}
          :: matchedBy pick openaqLocations rest
      | None => matchedBy pick openaqLocations rest
      end
  end.

Fixpoint unmatchedBy (pick : list OpenaqLocation -> option OpenaqLocation)
    (openaqLocations : list OpenaqLocation) (dbStations : list DbStation)
    : list DbStation :=
  match dbStations with
  | [] => []
  | station :: rest =>
      match classify pick openaqLocations station with
      | Some _ => unmatchedBy pick openaqLocations rest
      | None => station :: unmatchedBy pick openaqLocations rest
      end
  end.

Definition matchStationsSpec (pick : list OpenaqLocation -> option OpenaqLocation)
    (dbStations : list DbStation) (openaqLocations : list OpenaqLocation)
    : MatchResult :=
  {| matchedStations := matchedBy pick openaqLocations dbStations;
     unmatchedStations := unmatchedBy pick openaqLocations dbStations |}.

(** The two tie-breaks: the first candidate, the last candidate. *)
Definition firstCandidate (l : list OpenaqLocation) : option OpenaqLocation := head l.
Definition lastCandidate (l : list OpenaqLocation) : option OpenaqLocation := last l.

(** ** [fetchWithRetry], lines 5-27

    The retrying fetch of this file pauses [1000 * attempt] milliseconds
    before attempt [attempt]; the rest is as in the hourly job. *)
Section Retry.
Import LaHourlySync.
Local Open Scope js_scope.
Context (env : Env).

Definition fetchAttempt (url : string) (attempt : Z) : M Json :=
  (if (attempt >? 0)%Z then sleep (1000 * attempt) else ret tt) ;;;
  response <- fetch env url ;;
  if resp_ok response then responseJson response
  else throw (ThrownError
         ("HTTP error " ++ pretty (resp_status response) ++ ": " ++ resp_text response)).

Fixpoint fetchLoop (url : string) (remaining : nat) (attempt : Z)
    (lastError : Thrown) : M Json :=
  match remaining with
  | O => throw lastError
  | S n =>
      tryCatch (fetchAttempt url attempt)
        (fun error =>
           _ <- messageOf error ;;
           fetchLoop url n (attempt + 1)%Z error)
  end.

Definition fetchWithRetry (url : string) (maxRetries : nat) : M Json :=
  fetchLoop url maxRetries 0%Z ThrownUndefined.

End Retry.

End FixedIndex.

(** * Specification vocabulary *)

Module Vocabulary.
Import Js LaHourlySync.

(** Every exception a computation raises is an error object carrying a
    message (never the bare value [undefined]). *)
Definition raisesErrors {A : Type} (m : M A) : Prop :=
  forall w e w', m w = (Throw e, w') -> exists msg, e = ThrownError msg.

(** Every value a computation returns satisfies [P]. *)
Definition returns {A : Type} (m : M A) (P : A -> Prop) : Prop :=
  forall w a w', m w = (Ok a, w') -> P a.

(** What every object returned by [processStation] satisfies: the
    reason [error] comes with the message of the exception and no other
    reason does, and the success flag is set exactly for [success]. *)
Definition wellClassified (o : Outcome) : Prop :=
  (out_reason o = R_error <-> exists msg, out_error o = Some msg)
  /\ (out_success o = true <-> out_reason o = R_success).

(** What one attempt of the retrying fetch makes of the upstream's
    answer: the parsed body of a 2xx response, or the message of the
    error the attempt raises. *)
Definition attemptResult (o : FetchOutcome) : Json + string :=
  match o with
  | FetchRejected msg => inr msg
  | FetchResponse status text json =>
      if (200 <=? status)%Z && (status <=? 299)%Z then
        match json with
        | Some body => inl body
        | None => inr "invalid json response body"
        end
      else inr ("HTTP error " ++ pretty status ++ ": " ++ text)
  end.

Definition attemptFails (o : FetchOutcome) : Prop :=
  exists msg, attemptResult o = inr msg.

(** The events of [k] consecutive attempts, the first being attempt
    number [attempt]: a pause before every attempt but attempt 0, then
    the request. *)
Fixpoint attemptEvents (url : string) (k : nat) (attempt : Z) : list Event :=
  match k with
  | O => []
  | S k' =>
      (if (attempt >? 0)%Z then [EvSleep (delayMs attempt)] else [])
      ++ EvFetch url :: attemptEvents url k' (attempt + 1)%Z
  end.

(** The document the writer inserts for a sensor with parameter [p]. *)
Definition measurementFor (station : Station) (p : ParamDesc) (value : JsValue)
    (isSimulated : bool) (currentTime createdAt : Z) : Measurement :=
  {| meas_station := station__id station;
     meas_parameter :=
       {| param_id := param_id p; param_name := param_name p;
          param_units := param_units p; param_displayName := param_displayName p |};
     meas_value := value;
     meas_isSimulated := isSimulated;
     meas_timestamp := currentTime;
     meas_createdAt := createdAt |}.

(** The sensor documents an update by [_id] addresses. *)
Definition hasSensorId (id : ObjectId) (s : Sensor) : bool := (sensor__id s =? id)%Z.

(** The real reading of a sensor in the upstream payload: the value of
    the reading filed under the sensor's key, when that value is
    defined. *)
Definition payloadValue (sensorDataMap : gmap string Reading) (sensor : Sensor)
    : option JsValue :=
  match sensorDataMap
          !! toPropertyKey (Js.or (sensor_openaqSensorId sensor) (sensor_id sensor)) with
  | Some measurement =>
      if isDefined (reading_value measurement) then Some (reading_value measurement)
      else None
  | None => None
  end.

(** The documented range of the synthesized values of a parameter. *)
Definition documentedRange (paramName : option string) : Q * Q :=
  if isCase paramName "pm25" then (5, 45)%Q
  else if isCase paramName "pm10" then (10, 60)%Q
  else if isCase paramName "o3" then (10, 70)%Q
  else if isCase paramName "no2" then (5, 55)%Q
  else if isCase paramName "so2" then (1, 21)%Q
  else if isCase paramName "co" then (1 # 5, 26 # 5)%Q
  else (5, 35)%Q.

Definition inDocumentedRange (paramName : option string) (q : Q) : Prop :=
  (fst (documentedRange paramName) <= q)%Q /\ (q <= snd (documentedRange paramName))%Q.

(** No store operation fails. *)
Definition noStoreFaults (env : Env) : Prop :=
  forall c n, storeFault env c n = None.

(** The progress collection accepts every write; the other collections
    may fail at any operation. *)
Definition progressWritable (env : Env) : Prop :=
  forall n, storeFault env ProgressRecords n = None.

(** [Math.random] returns numbers of the interval [0, 1). *)
Definition randomInUnit (env : Env) : Prop :=
  forall n, (0 <= randomSeq env n)%Q /\ (randomSeq env n < 1)%Q.

(** The progress record written after the batch that starts at [i]. *)
Definition progressAfter (offset totalStations endOffset i now : Z) : Progress :=
  {| lastRunTime := now;
     lastOffset := offset;
     nextOffset := nextOffsetOf totalStations endOffset;
     prog_totalStations := totalStations;
     batchesCompleted := (i / 3 + 1)%Z;
     totalBatches := ceilDiv totalStations batchSize;
     isFullyComplete := (endOffset >=? totalStations)%Z |}.

(** The readings [getLatestMeasurements] takes from a parsed body. *)
Definition readingsOf (body : Json) : list Reading :=
  match body with
  | JsonObject (Some results) => results
  | _ => []
  end.

(** ** Relations between the store before and after a computation *)

(** A computation respects a relation between worlds when every run of
    it, returning or raising, takes a world to a related one. *)
Definition respects {A : Type} (R : World -> World -> Prop) (m : M A) : Prop :=
  forall w r w', m w = (r, w') -> R w w'.

(** The uniqueness key of a Measurement: site, parameter name, hour. *)
Definition keyOf (m : Measurement) : ObjectId * option string * Z :=
  (meas_station m, param_name (meas_parameter m), meas_timestamp m).

Definition uniqueKeys (ms : list Measurement) : Prop := NoDup (keyOf <$> ms).

(** A Measurement with the key exists. *)
Definition keyed (key : ObjectId * option string * Z) (ms : list Measurement) : Prop :=
  exists m, m ∈ ms /\ keyOf m = key.

(** The Measurements stored under the key. *)
Definition underKey (key : ObjectId * option string * Z) (ms : list Measurement)
    : list Measurement :=
  List.filter (fun m => bool_decide (keyOf m = key)) ms.

(** The cached last-known value of the sensor with [_id = id] was
    refreshed: the first document with that [_id] now carries the value,
    the update time and the flag and is otherwise as it was, and every
    document with another [_id] is as it was. *)
Definition sensorRefreshed (id : ObjectId) (value : JsValue) (t : Z) (flag : bool)
    (before after : list Sensor) : Prop :=
  length after = length before
  /\ (forall i s, before !! i = Some s -> sensor__id s <> id -> after !! i = Some s)
  /\ (forall s,
        List.find (fun x => bool_decide (sensor__id x = id)) before = Some s ->
        exists s',
          List.find (fun x => bool_decide (sensor__id x = id)) after = Some s'
          /\ sensor_value s' = value
          /\ sensor_lastUpdated s' = Some t
          /\ sensor_isSimulated s' = Some flag
          /\ sensor_id s' = sensor_id s
          /\ sensor_openaqSensorId s' = sensor_openaqSensorId s
          /\ sensor_parameter s' = sensor_parameter s
          /\ sensor_station s' = sensor_station s).

(** What the job never changes in a sensor and in a station. *)
Definition sensorIdentity (s : Sensor)
    : ObjectId * JsId * JsId * option ParamDesc * ObjectId :=
  (sensor__id s, sensor_id s, sensor_openaqSensorId s, sensor_parameter s,
   sensor_station s).

Definition stationIdentity (s : Station)
    : ObjectId * JsId * option string * option (Q * Q) :=
  (station__id s, station_id s, station_name s, station_coordinates s).

(** A Measurement of the hour [currentTime]: its value is whatever the
    upstream sent, but neither [null] nor absent, and it is a number when
    the Measurement is flagged as simulated. *)
Definition stampedAt (currentTime : Z) (m : Measurement) : Prop :=
  meas_timestamp m = currentTime
  /\ meas_value m <> VNull /\ meas_value m <> VUndefined
  /\ (meas_isSimulated m = true -> exists q, meas_value m = VNum q).

(** The same, for the site [stationId]. *)
Definition stampedFor (stationId : ObjectId) (currentTime : Z) (m : Measurement) : Prop :=
  meas_station m = stationId /\ stampedAt currentTime m.

(** The store only grows: Measurements satisfying [P] are appended and
    none is changed or removed, unique keys stay unique, and the sensors
    and the stations keep their number, order and identity. *)
Definition grows (P : Measurement -> Prop) (s s' : Store) : Prop :=
  (exists added,
     measurementCollection s' = (measurementCollection s ++ added)%list
     /\ Forall P added)
  /\ (uniqueKeys (measurementCollection s) -> uniqueKeys (measurementCollection s'))
  /\ sensorIdentity <$> sensorCollection s' = sensorIdentity <$> sensorCollection s
  /\ stationIdentity <$> stationCollection s' = stationIdentity <$> stationCollection s.

Definition growsBy (P : Measurement -> Prop) (w w' : World) : Prop :=
  grows P (store w) (store w').

(** The store is left as it is. *)
Definition sameStore (w w' : World) : Prop := store w' = store w.

(** Neither the store nor the count of store operations changes: no
    store operation was issued. *)
Definition noStoreAccess (w w' : World) : Prop :=
  store w' = store w /\ storeOps w' = storeOps w.

(** The stations and the progress record are left as they are. *)
Definition keepsStationsAndProgress (w w' : World) : Prop :=
  stationCollection (store w') = stationCollection (store w)
  /\ progressCollection (store w') = progressCollection (store w).

(** The progress record is left as it is. *)
Definition sameProgress (w w' : World) : Prop :=
  progressCollection (store w') = progressCollection (store w).

(** The guard of lines 108-111: the id is missing. *)
Definition idMissing (station : Station) : bool :=
  negb (truthy (station_id station)) && isNotZero (station_id station).

(** The sensors [processStation] finds for a station. *)
Definition sensorsOfStation (station : Station) (s : Store) : list Sensor :=
  List.filter (fun x => (sensor_station x =? station__id station)%Z) (sensorCollection s).

(** The objects [processStation] returns at its end and in its handler. *)
Definition countedOutcome (vars : LoopVars) : Outcome :=
  {| out_success := stationDataUpdated vars;
     out_reason := if stationDataUpdated vars then R_success else R_no_new_data;
     out_error := None;
     out_sensorsProcessed := Some (sensorsProcessed vars);
     out_recordsCreated := Some (recordsCreated vars) |}.

Definition errorOutcome (msg : string) : Outcome :=
  {| out_success := false; out_reason := R_error; out_error := Some msg;
     out_sensorsProcessed := None; out_recordsCreated := None |}.

(** The locals of the sensor loop account for the Measurements [added]
    while [sensors] were visited. *)
Definition accountsFor (vars : LoopVars) (added : list Measurement)
    (sensors : list Sensor) : Prop :=
  recordsCreated vars = Z.of_nat (length added)
  /\ (Z.of_nat (length added) <= sensorsProcessed vars)%Z
  /\ (sensorsProcessed vars <= Z.of_nat (length sensors))%Z
  /\ stationDataUpdated vars = negb (length added =? 0)%nat.

(** At most [n] requests are sent. *)
Definition sends {A : Type} (n : nat) (m : M A) : Prop :=
  forall w r w', m w = (r, w') ->
    (fetchCount w <= fetchCount w' <= fetchCount w + n)%nat.

(** No request is sent. *)
Definition noRequest (w w' : World) : Prop := fetchCount w' = fetchCount w.

(** The clock does not go back. *)
Definition clockAdvances (w w' : World) : Prop := (clock w <= clock w')%Z.

(** Nothing was stored, requested or waited for. *)
Definition quiet (w w' : World) : Prop :=
  store w' = store w /\ clock w' = clock w /\ fetchCount w' = fetchCount w.

(** The outcome of the handler when the [finally] block issues
    [client.close()] as store operation [n] after the [try] and the
    [catch] prepared the answer: that answer, unless [close] rejects. *)
Definition afterClose (env : Env) (n : nat) (prepared : HandlerResponse)
    : Res HandlerResponse :=
  match storeFault env ClientClose n with
  | Some msg => Throw (ThrownError msg)
  | None => Ok prepared
  end.

(** The answer the [try] and the [catch] prepare for a run of the page. *)
Definition answerOf (r : Res Results) (prepared : HandlerResponse) : Prop :=
  match r with
  | Ok results => prepared = {| statusCode := 200; body := BodyCompleted results |}
  | Throw e =>
      exists msg,
        e = ThrownError msg
        /\ prepared = {| statusCode := 500; body := BodyFailed msg |}
  end.

(** ** The statistics of a run *)

(** The names under which failures are counted. *)
Definition failureNames : list string :=
  reasonName <$> [R_missing_id; R_no_data; R_no_sensors; R_no_new_data; R_error].

Definition countOf (results : Results) (name : string) : Z :=
  orZero (failureReasons results !! name).

(** What the statistics use of an outcome: a success reports at least
    one record and at least as many sensors, a failure has a reason other
    than [success]. *)
Definition soundOutcome (o : Outcome) : Prop :=
  if out_success o
  then exists created processed,
         out_recordsCreated o = Some created
         /\ out_sensorsProcessed o = Some processed
         /\ (1 <= created <= processed)%Z
  else out_reason o <> R_success.

Definition consistentStats (r : Results) : Prop :=
  (0 <= successful r)%Z /\ (0 <= failed r)%Z
  /\ failed r = foldr Z.add 0%Z (countOf r <$> failureNames)
  /\ (forall key n, failureReasons r !! key = Some n -> key ∈ failureNames /\ (1 <= n)%Z)
  /\ (successful r <= res_recordsCreated r <= res_sensorsProcessed r)%Z.

(** ** The station matcher *)

(** No upstream location carries the key. *)
Definition keyAbsent (openaqLocations : list FixedIndex.OpenaqLocation)
    (key : option string) : Prop :=
  forall k, key = Some k ->
    forall location, location ∈ openaqLocations -> FixedIndex.hasKey k location = false.

(** The location carries the key. *)
Definition carries (location : FixedIndex.OpenaqLocation) (key : option string) : Prop :=
  exists k, key = Some k /\ FixedIndex.hasKey k location = true.

(** A sound pair: what it holds as location is one of the upstream
    locations, which carries the key of the match, and a match by name
    comes with an id key no upstream location carries. *)
Definition soundMatch (openaqLocations : list FixedIndex.OpenaqLocation)
    (m : FixedIndex.Match) : Prop :=
  exists location,
    FixedIndex.openaqLocation m = FixedIndex.Stored location
    /\ location ∈ openaqLocations
    /\ match FixedIndex.matchType m with
       | FixedIndex.MatchId =>
           carries location (FixedIndex.idKey (FixedIndex.db_id (FixedIndex.dbStation m)))
       | FixedIndex.MatchName =>
           carries location
             (FixedIndex.nameKey (FixedIndex.db_name (FixedIndex.dbStation m)))
           /\ keyAbsent openaqLocations
                (FixedIndex.idKey (FixedIndex.db_id (FixedIndex.dbStation m)))
       end.

End Vocabulary.

(** * Concrete stores and environments

    Small inputs on which the embedding is run: a few stations inside the
    bounding box, sensors attached to them, an upstream that answers or
    fails per station, and a store that may refuse operations. *)

Module Scenario.
Import Js LaHourlySync.

Definition stationAt (i : Z) : Station :=
  {| station__id := i; station_id := IdNum (100 + i);
     station_name := Some "site";
     station_coordinates := Some (34 # 1, - (118 # 1))%Q;
     station_lastDataUpdate := None |}.

Definition sensorOf (i stationId : Z) (name : string) : Sensor :=
  {| sensor__id := i; sensor_id := IdNum (1000 + i);
     sensor_openaqSensorId := IdUndefined;
     sensor_parameter :=
       Some {| param_id := i; param_name := Some name; param_units := "ug/m3";
               param_displayName := name |};
     sensor_station := stationId; sensor_value := VUndefined;
     sensor_lastUpdated := None; sensor_isSimulated := None |}.

Definition stationsUpTo (n : nat) : list Station :=
  stationAt <$> seqZ 1 (Z.of_nat n).

Definition reading (sensor : Z) (v : JsValue) : Reading :=
  {| sensorsId := IdNum sensor; reading_value := v |}.

Definition okBody (readings : list Reading) : FetchOutcome :=
  FetchResponse 200 "OK" (Some (JsonObject (Some readings))).

(** An upstream that is down for the station with external id [down] and
    answers every other request with [readings]. *)
Definition upstream (down : Z) (readings : list Reading) (url : string) (n : nat)
    : FetchOutcome :=
  if String.eqb url (latestUrl (IdNum down))
  then FetchRejected "connect ETIMEDOUT"
  else okBody readings.

(** A store that refuses every operation on the collections of [broken]
    and accepts the others. *)
Definition faultsOn (broken : list Collection) (c : Collection) (n : nat)
    : option string :=
  if existsb (fun b =>
       match b, c with
       | Client, Client | Stations, Stations | Sensors, Sensors
       | Measurements, Measurements | ProgressRecords, ProgressRecords
       | ClientNew, ClientNew | ClientClose, ClientClose => true
       | _, _ => false
       end) broken
  then Some "store unavailable" else None.

Definition envWith (offset maxPerRun : Z) (net : string -> nat -> FetchOutcome)
    (faults : Collection -> nat -> option string) : Env :=
  {| MONGO_URI := Some "mongodb://store"; OPENAQ_API_KEY := Some "key";
     MAX_STATIONS_PER_RUN := maxPerRun; STATIONS_OFFSET := offset;
     localTZA := 0; randomSeq := fun _ => (1 # 2)%Q;
     network := net; storeFault := faults |}.

Definition worldWith (stations : list Station) (sensors : list Sensor)
    (measurements : list Measurement) : World :=
  {| store := {| stationCollection := stations; sensorCollection := sensors;
                 measurementCollection := measurements;
                 progressCollection := None |};
     clock := 1700000123456; randomIdx := 0; fetchCount := 0; storeOps := 0;
     trace := [] |}.

(** The upstream is down for the station with external id 102 and
    answers the others with one reading for sensor 1001; the store
    accepts every operation ([healthyEnv]), or refuses every operation on
    the measurement collection ([brokenMeasurementsEnv]). *)
Definition healthyEnv : Env :=
  envWith 0 50 (upstream 102 [reading 1001 (VNum 7)]) (faultsOn []).

Definition brokenMeasurementsEnv : Env :=
  envWith 0 50 (upstream 102 [reading 1001 (VNum 7)]) (faultsOn [Measurements]).

(** A run configured with offset 5. *)
Definition beyondEnv : Env := envWith 5 50 (upstream 0 []) (faultsOn []).

Definition twoStationsWorld : World := worldWith (stationsUpTo 2) [] [].

Definition threeStationsWorld : World :=
  worldWith (stationsUpTo 3)
    [sensorOf 1 1 "pm25"; sensorOf 2 2 "no2"; sensorOf 3 3 "o3"] [].

Definition fourStationsWorld : World :=
  worldWith (stationsUpTo 4) [sensorOf 1 1 "pm25"; sensorOf 3 3 "o3"] [].

Definition manyStationsWorld : World := worldWith (stationsUpTo 130) [] [].

(** An upstream that answers every request with an empty result list, and
    one whose only reading, for sensor 1001, carries a null value; both
    with a store that accepts every operation. *)
Definition quietEnv : Env := envWith 0 50 (upstream 0 []) (faultsOn []).

Definition nullReadingEnv : Env :=
  envWith 0 50 (upstream 0 [reading 1001 VNull]) (faultsOn []).

(** One station with one pm25 sensor (sensor id 1001) and no
    measurement. *)
Definition oneSensorWorld : World :=
  worldWith [stationAt 1] [sensorOf 1 1 "pm25"] [].

(** The parameter document of [sensorOf i _ name]. *)
Definition paramOf (i : Z) (name : string) : ParamDesc :=
  {| param_id := i; param_name := Some name; param_units := "ug/m3";
     param_displayName := name |}.

(** One station with a pm25 sensor and a no2 sensor, and the pm25
    Measurement of the hour before 1699999200000. *)
Definition earlierHourWorld : World :=
  worldWith [stationAt 1] [sensorOf 1 1 "pm25"; sensorOf 2 1 "no2"]
    [{| meas_station := 1%Z; meas_parameter := paramOf 1 "pm25"; meas_value := VNum 5;
        meas_isSimulated := false; meas_timestamp := 1699995600000%Z;
        meas_createdAt := 1699996400000%Z |}].

(** A store that cannot be reached, and a client that cannot be
    closed. *)
Definition unreachableStoreEnv : Env := envWith 0 50 (upstream 0 []) (faultsOn [Client]).

Definition closeFailsEnv : Env :=
  envWith 0 50 (upstream 102 [reading 1001 (VNum 7)]) (faultsOn [ClientClose]).

End Scenario.

(** * Properties *)

Import Js LaHourlySync Vocabulary.
Local Open Scope js_scope.

(** ** Hour alignment *)

Section HourAlignment.
Local Open Scope Z_scope.

Lemma alignToHour_floor (tza t : Z) :
  alignToHour tza t = hourIndex tza t * msPerHour - tza.
Proof.
  unfold alignToHour, setMinutes, UTC, MakeDate, MakeTime, Day, HourFromTime,
    LocalTime, hourIndex, msPerDay, msPerHour, msPerMinute, msPerSecond.
  set (lt := t + tza).
  replace (lt / 86400000) with (lt / 3600000 / 24) by (rewrite Z.div_div by lia; reflexivity).
  pose proof (Z.div_mod (lt / 3600000) 24 ltac:(lia)). lia.
Qed.

Lemma sameClockHour_hourIndex (tza t1 t2 : Z) :
  sameClockHour tza t1 t2 <-> hourIndex tza t1 = hourIndex tza t2.
Proof.
  unfold sameClockHour, Day, HourFromTime, LocalTime, hourIndex, msPerDay, msPerHour.
  set (a := t1 + tza). set (b := t2 + tza).
  replace (a / 86400000) with (a / 3600000 / 24) by (rewrite Z.div_div by lia; reflexivity).
  replace (b / 86400000) with (b / 3600000 / 24) by (rewrite Z.div_div by lia; reflexivity).
  split.
  - intros [Hd Hh].
    rewrite (Z.div_mod (a / 3600000) 24), (Z.div_mod (b / 3600000) 24) by lia.
    rewrite Hd, Hh. reflexivity.
  - intros ->. split; reflexivity.
Qed.

Lemma hourIndex_alignToHour (tza t : Z) :
  hourIndex tza (alignToHour tza t) = hourIndex tza t.
Proof.
  rewrite alignToHour_floor. unfold hourIndex at 1.
  replace (hourIndex tza t * msPerHour - tza + tza)
    with (hourIndex tza t * msPerHour) by lia.
  apply Z.div_mul. unfold msPerHour. lia.
Qed.

Lemma alignToHour_local_fields (tza t : Z) :
  MinFromTime (LocalTime tza (alignToHour tza t)) = 0
  /\ SecFromTime (LocalTime tza (alignToHour tza t)) = 0
  /\ msFromTime (LocalTime tza (alignToHour tza t)) = 0.
Proof.
  rewrite alignToHour_floor. unfold LocalTime.
  replace (hourIndex tza t * msPerHour - tza + tza)
    with (hourIndex tza t * msPerHour) by lia.
  generalize (hourIndex tza t). intros h.
  unfold MinFromTime, SecFromTime, msFromTime, msPerHour, msPerMinute, msPerSecond.
  repeat split.
  - replace (h * 3600000) with (h * 60 * 60000) by lia.
    rewrite Z.div_mul by lia. apply Z.mod_mul. lia.
  - replace (h * 3600000) with (h * 60 * 60 * 1000) by lia.
    rewrite Z.div_mul by lia. apply Z.mod_mul. lia.
  - replace (h * 3600000) with (h * 3600 * 1000) by lia.
    apply Z.mod_mul. lia.
Qed.

(** C9. Hour alignment zeroes the minutes, seconds and milliseconds of
    the local time and stays within the clock hour; two instants are
    aligned to the same timestamp exactly when they lie in the same clock
    hour (instants of one hour get identical timestamps, instants of
    different hours get different ones); and aligning an aligned
    timestamp changes nothing. *)
Theorem alignToHour_truncates_and_separates_hours (tza t1 t2 : Z) :
  (MinFromTime (LocalTime tza (alignToHour tza t1)) = 0
   /\ SecFromTime (LocalTime tza (alignToHour tza t1)) = 0
   /\ msFromTime (LocalTime tza (alignToHour tza t1)) = 0
   /\ sameClockHour tza (alignToHour tza t1) t1)
  /\ (sameClockHour tza t1 t2 <-> alignToHour tza t1 = alignToHour tza t2)
  /\ alignToHour tza (alignToHour tza t1) = alignToHour tza t1.
Proof.
  split; [|split].
  - pose proof (alignToHour_local_fields tza t1) as (Hm & Hs & Hms).
    repeat split; try assumption;
      apply (proj2 (sameClockHour_hourIndex tza (alignToHour tza t1) t1)),
        hourIndex_alignToHour.
  - split.
    + intros H%sameClockHour_hourIndex. rewrite !alignToHour_floor, H. reflexivity.
    + intros Heq. apply sameClockHour_hourIndex.
      rewrite <- (hourIndex_alignToHour tza t1), <- (hourIndex_alignToHour tza t2), Heq.
      reflexivity.
  - rewrite (alignToHour_floor tza (alignToHour tza t1)), hourIndex_alignToHour.
    symmetry. apply alignToHour_floor.
Qed.

Lemma alignToHour_witness :
  sameClockHour 0 1700000123456 1700002799999
  /\ alignToHour 0 1700000123456 = alignToHour 0 1700002799999
  /\ alignToHour 0 1700000123456 = 1699999200000.
Proof.
  assert (H : sameClockHour 0 1700000123456 1700002799999) by (split; reflexivity).
  split; [exact H|].
  split; [|reflexivity].
  exact (proj1 (proj1 (proj2
           (alignToHour_truncates_and_separates_hours 0 1700000123456 1700002799999)))
           H).
Defined.

(** The next millisecond after the end of the hour is aligned to the
    next hour. *)
Example alignToHour_next_hour :
  alignToHour 0 1700002799999 = 1699999200000
  /\ alignToHour 0 1700002800000 = 1700002800000.
Proof. split; reflexivity. Qed.

End HourAlignment.

(** ** Paging *)

Section Paging.
Local Open Scope Z_scope.

Lemma relativeIndex_nonneg (len k : Z) :
  0 <= k -> relativeIndex len k = Z.min k len.
Proof. intros H. unfold relativeIndex. destruct (Z.ltb_spec k 0); [lia | reflexivity]. Qed.

(** With both indices non-negative, [slice] is the segment between the
    indices clamped to the length. *)
Lemma slice_nonneg {A : Type} (l : list A) (start final : Z) :
  0 <= start -> 0 <= final ->
  slice l start final =
    take (Z.to_nat (Z.min final (Z.of_nat (length l)) - Z.min start (Z.of_nat (length l))))
      (drop (Z.to_nat (Z.min start (Z.of_nat (length l)))) l).
Proof.
  intros Hs Hf. unfold slice. rewrite !relativeIndex_nonneg by assumption. reflexivity.
Qed.

Lemma slice_lookup {A : Type} (l : list A) (start final : Z) (i : nat) :
  0 <= start -> 0 <= final ->
  slice l start final !! i =
    if start + Z.of_nat i <? final then l !! (Z.to_nat start + i)%nat else None.
Proof.
  intros Hs Hf. rewrite slice_nonneg by assumption.
  set (len := Z.of_nat (length l)).
  destruct (Z.ltb_spec (start + Z.of_nat i) final) as [Hlt | Hge].
  - destruct (Z.le_gt_cases len (start + Z.of_nat i)) as [Hout | Hin].
    + rewrite (lookup_ge_None_2 l) by (subst len; lia).
      apply lookup_ge_None_2. rewrite length_take, length_drop. subst len. lia.
    + rewrite lookup_take_lt by (subst len; lia).
      rewrite lookup_drop. f_equal. lia.
  - apply lookup_ge_None_2. rewrite length_take, length_drop. subst len. lia.
Qed.

Lemma slice_length {A : Type} (l : list A) (start final : Z) :
  0 <= start -> 0 <= final ->
  Z.of_nat (length (slice l start final)) =
    Z.max 0 (Z.min final (Z.of_nat (length l)) - Z.min start (Z.of_nat (length l))).
Proof.
  intros Hs Hf. rewrite slice_nonneg by assumption.
  rewrite length_take, length_drop. lia.
Qed.

(** A start at or beyond the end of the array gives the empty slice,
    whatever the end index. *)
Lemma slice_start_beyond {A : Type} (l : list A) (start final : Z) :
  Z.of_nat (length l) <= start -> slice l start final = [].
Proof.
  intros H. unfold slice.
  assert (Hk : relativeIndex (Z.of_nat (length l)) start = Z.of_nat (length l)).
  { unfold relativeIndex. destruct (Z.ltb_spec start 0); lia. }
  rewrite Hk, Nat2Z.id, drop_all. apply take_nil.
Qed.

Lemma endOffsetOf_bounds (totalStations offset maxPerRun : Z) :
  0 <= totalStations -> 0 <= offset -> 0 <= maxPerRun ->
  0 <= endOffsetOf totalStations offset maxPerRun <= totalStations.
Proof. unfold endOffsetOf. lia. Qed.

Lemma pageOf_lookup (allLaStations : list Station) (offset maxPerRun : Z) (i : nat) :
  0 <= offset -> 0 <= maxPerRun ->
  pageOf allLaStations offset maxPerRun !! i =
    if offset + Z.of_nat i
       <? endOffsetOf (Z.of_nat (length allLaStations)) offset maxPerRun
    then allLaStations !! (Z.to_nat offset + i)%nat else None.
Proof.
  intros Ho Hm. unfold pageOf. apply slice_lookup; [assumption|].
  apply endOffsetOf_bounds; lia.
Qed.

Lemma pageOf_length (allLaStations : list Station) (offset maxPerRun : Z) :
  0 <= offset -> 0 <= maxPerRun ->
  Z.of_nat (length (pageOf allLaStations offset maxPerRun)) =
    Z.max 0 (endOffsetOf (Z.of_nat (length allLaStations)) offset maxPerRun - offset).
Proof.
  intros Ho Hm. unfold pageOf. rewrite slice_length; [|assumption|].
  - unfold endOffsetOf. lia.
  - apply endOffsetOf_bounds; lia.
Qed.

Lemma pageOf_drop_take (allLaStations : list Station) (offset maxPerRun : Z) :
  0 <= offset <= Z.of_nat (length allLaStations) -> 0 <= maxPerRun ->
  pageOf allLaStations offset maxPerRun =
    take (Z.to_nat (endOffsetOf (Z.of_nat (length allLaStations)) offset maxPerRun - offset))
      (drop (Z.to_nat offset) allLaStations).
Proof.
  intros Ho Hm. unfold pageOf. rewrite slice_nonneg; [|lia|].
  - f_equal; [|f_equal]; unfold endOffsetOf; lia.
  - apply endOffsetOf_bounds; lia.
Qed.

(** A negative offset is outside the planner's domain: [slice] then
    counts from the end of the list. *)
Example pageOf_negative_offset :
  pageOf (Scenario.stationsUpTo 5) (-2) 50 = Scenario.stationAt <$> [4; 5].
Proof. vm_compute. reflexivity. Qed.

End Paging.

(** ** Rounded-up division *)

Section CeilDiv.
Local Open Scope Z_scope.

Lemma ceilDiv_pos (a b : Z) : 0 < a -> 0 < b -> 1 <= ceilDiv a b.
Proof.
  intros Ha Hb. unfold ceilDiv.
  assert (- a / b < 0) by (apply Z.div_lt_upper_bound; lia). lia.
Qed.

Lemma ceilDiv_small (a b : Z) : 0 < a <= b -> ceilDiv a b = 1.
Proof.
  intros [Ha Hb]. unfold ceilDiv.
  assert (- a / b < 0) by (apply Z.div_lt_upper_bound; lia).
  assert (-1 <= - a / b) by (apply Z.div_le_lower_bound; lia). lia.
Qed.

Lemma ceilDiv_step (a b : Z) : 0 < b -> ceilDiv (a - b) b = ceilDiv a b - 1.
Proof.
  intros Hb. unfold ceilDiv.
  replace (- (a - b)) with (- a + 1 * b) by lia.
  rewrite Z.div_add by lia. lia.
Qed.

Lemma ceilDiv_le (a b : Z) : 0 <= a -> 1 <= b -> ceilDiv a b <= a.
Proof.
  intros Ha Hb. unfold ceilDiv.
  assert (- a <= - a / b) by (apply Z.div_le_lower_bound; nia). lia.
Qed.

Lemma ceilDiv_zero (b : Z) : ceilDiv 0 b = 0.
Proof. unfold ceilDiv. simpl. rewrite Zdiv_0_l. reflexivity. Qed.

End CeilDiv.

(** ** A full cycle of pages *)

Section Cycle.
Local Open Scope Z_scope.

Lemma cycle_covers_from (allLaStations : list Station) (maxPerRun : Z) :
  1 <= maxPerRun ->
  forall (fuel : nat) (offset : Z),
    0 <= offset < Z.of_nat (length allLaStations) ->
    ceilDiv (Z.of_nat (length allLaStations) - offset) maxPerRun <= Z.of_nat fuel ->
    exists pages,
      cycle fuel allLaStations maxPerRun offset = Some pages
      /\ concat pages = drop (Z.to_nat offset) allLaStations
      /\ Z.of_nat (length pages)
         = ceilDiv (Z.of_nat (length allLaStations) - offset) maxPerRun
      /\ Forall (fun page => page <> []) pages.
Proof.
  intros HW. set (T := Z.of_nat (length allLaStations)).
  induction fuel as [|fuel IH]; intros offset Ho Hfuel.
  - pose proof (ceilDiv_pos (T - offset) maxPerRun). lia.
  - cbn [cycle]. fold T.
    assert (Hpage : pageOf allLaStations offset maxPerRun =
                    take (Z.to_nat (endOffsetOf T offset maxPerRun - offset))
                      (drop (Z.to_nat offset) allLaStations))
      by (apply pageOf_drop_take; lia).
    assert (Hne : pageOf allLaStations offset maxPerRun <> []).
    { intros Hnil. apply (f_equal length) in Hnil. revert Hnil.
      rewrite Hpage, length_take, length_drop. unfold endOffsetOf. subst T. simpl. lia. }
    unfold nextOffsetOf.
    destruct (Z.geb_spec (endOffsetOf T offset maxPerRun) T) as [Hdone | Hmore].
    + simpl. eexists. split; [reflexivity|]. split; [|split].
      * simpl. rewrite app_nil_r, Hpage. apply take_ge.
        rewrite length_drop. unfold endOffsetOf in *. subst T. lia.
      * simpl. symmetry. apply ceilDiv_small. unfold endOffsetOf in Hdone. lia.
      * constructor; [assumption | constructor].
    + assert (He : endOffsetOf T offset maxPerRun = offset + maxPerRun)
        by (unfold endOffsetOf in *; lia).
      rewrite He in *.
      destruct (Z.eqb_spec (offset + maxPerRun) 0) as [Hz | _]; [lia|].
      destruct (IH (offset + maxPerRun)) as (pages & Hc & Hcat & Hlen & Hall).
      { lia. }
      { replace (T - (offset + maxPerRun)) with (T - offset - maxPerRun) by lia.
        rewrite ceilDiv_step by lia. lia. }
      rewrite Hc. eexists. split; [reflexivity|]. split; [|split].
      * simpl. rewrite Hcat, Hpage.
        replace (Z.to_nat (offset + maxPerRun))
          with (Z.to_nat offset + Z.to_nat (offset + maxPerRun - offset))%nat by lia.
        rewrite <- drop_drop. apply take_drop.
      * simpl length. rewrite Nat2Z.inj_succ, Hlen.
        replace (T - (offset + maxPerRun)) with (T - offset - maxPerRun) by lia.
        rewrite ceilDiv_step by lia. lia.
      * constructor; assumption.
Qed.

(** C2. For a site population of at least one site and a window of at
    least one site, the runs that start at offset 0 and follow each
    recorded [nextOffset] until it wraps to 0 form a finite cycle whose
    pages, put end to end, are exactly the list of sites: every site
    index is covered once, in order, by non-empty pages. *)
Theorem partition_cycle_covers_every_site_once
    (allLaStations : list Station) (maxPerRun : Z) :
  (1 <= length allLaStations)%nat ->
  1 <= maxPerRun ->
  exists pages,
    cycle (length allLaStations) allLaStations maxPerRun 0 = Some pages
    /\ concat pages = allLaStations
    /\ Z.of_nat (length pages) = ceilDiv (Z.of_nat (length allLaStations)) maxPerRun
    /\ Forall (fun page => page <> []) pages.
Proof.
  intros HT HW.
  destruct (cycle_covers_from allLaStations maxPerRun HW (length allLaStations) 0)
    as (pages & Hc & Hcat & Hlen & Hall).
  - lia.
  - rewrite Z.sub_0_r. apply ceilDiv_le; lia.
  - exists pages. rewrite Z.sub_0_r in Hlen. simpl in Hcat. auto.
Qed.

End Cycle.

(** ** Exceptions are error objects *)

Section RaisesErrors.
Context (env : Env).

Lemma raisesErrors_ret {A : Type} (a : A) : raisesErrors (ret a).
Proof. intros w e w' H. discriminate. Qed.

Lemma raisesErrors_throw {A : Type} (msg : string) :
  raisesErrors (@throw A (ThrownError msg)).
Proof. intros w e w' H. injection H as <- _. eauto. Qed.

Lemma raisesErrors_bind {A B : Type} (m : M A) (k : A -> M B) :
  raisesErrors m -> (forall a, raisesErrors (k a)) -> raisesErrors (bind m k).
Proof.
  intros Hm Hk w e w' H. unfold bind in H.
  destruct (m w) as [[a | e0] w0] eqn:Em.
  - eapply Hk, H.
  - injection H as <- <-. eapply Hm, Em.
Qed.

Lemma raisesErrors_tryCatch {A : Type} (body : M A) (handler : Thrown -> M A) :
  (forall e, raisesErrors (handler e)) -> raisesErrors (tryCatch body handler).
Proof.
  intros Hh w e w' H. unfold tryCatch in H.
  destruct (body w) as [[a | e0] w0]; [discriminate | eapply Hh, H].
Qed.

Lemma raisesErrors_messageOf (e : Thrown) : raisesErrors (messageOf e).
Proof. destruct e; [apply raisesErrors_ret | apply raisesErrors_throw]. Qed.

Lemma raisesErrors_newDate : raisesErrors newDate.
Proof. intros w e w' H. discriminate. Qed.

Lemma raisesErrors_sleep (ms : Z) : raisesErrors (sleep ms).
Proof. intros w e w' H. discriminate. Qed.

Lemma raisesErrors_mathRandom : raisesErrors (mathRandom env).
Proof. intros w e w' H. discriminate. Qed.

Lemma raisesErrors_readStore : raisesErrors readStore.
Proof. intros w e w' H. discriminate. Qed.

Lemma raisesErrors_writeStore (f : Store -> Store) : raisesErrors (writeStore f).
Proof. intros w e w' H. discriminate. Qed.

Lemma raisesErrors_fetch (url : string) : raisesErrors (fetch env url).
Proof.
  intros w e w' H. unfold fetch in H.
  destruct (network env url (fetchCount w)); [|discriminate].
  injection H as <- _. eauto.
Qed.

Lemma raisesErrors_storeCall (c : Collection) : raisesErrors (storeCall env c).
Proof.
  intros w e w' H. unfold storeCall in H.
  destruct (storeFault env c (storeOps w)); [|discriminate].
  injection H as <- _. eauto.
Qed.

Lemma raisesErrors_forOf {A S : Type} (body : S -> A -> M S) (l : list A) :
  (forall s x, raisesErrors (body s x)) -> forall s, raisesErrors (forOf body l s).
Proof.
  intros Hb. induction l as [|x l IH]; intros s; simpl.
  - apply raisesErrors_ret.
  - apply raisesErrors_bind; [apply Hb | apply IH].
Qed.

End RaisesErrors.

Create HintDb raises.

#[local] Hint Resolve raisesErrors_ret raisesErrors_throw raisesErrors_messageOf
  raisesErrors_newDate raisesErrors_sleep raisesErrors_mathRandom
  raisesErrors_readStore raisesErrors_writeStore raisesErrors_fetch
  raisesErrors_storeCall : raises.

(** Decompose a computation along its binds, handlers and branches. *)
Ltac raises :=
  repeat first
    [ solve [auto with raises]
    | apply raisesErrors_bind; [|intros ?]
    | apply raisesErrors_tryCatch; intros ?
    | apply raisesErrors_forOf; intros ? ?
    | match goal with
      | |- raisesErrors (if ?b then _ else _) => destruct b
      | |- raisesErrors (match ?x with _ => _ end) => destruct x
      end ].

Section ProcessStationTotal.
Context (env : Env).

Lemma raisesErrors_fetchLoop (url : string) (remaining : nat) :
  forall attempt msg, raisesErrors (fetchLoop env url remaining attempt (ThrownError msg)).
Proof.
  induction remaining as [|n IH]; intros attempt msg; simpl.
  - apply raisesErrors_throw.
  - apply raisesErrors_tryCatch. intros [m|]; simpl.
    + apply raisesErrors_bind; [apply raisesErrors_ret | intros _; apply IH].
    + intros w e w' H. injection H as <- _. eauto.
Qed.

Lemma raisesErrors_fetchWithRetry (url : string) (maxRetries : nat) :
  raisesErrors (fetchWithRetry env url (S maxRetries)).
Proof.
  unfold fetchWithRetry. simpl. apply raisesErrors_tryCatch. intros [m|]; simpl.
  - apply raisesErrors_bind; [apply raisesErrors_ret|].
    intros _. apply raisesErrors_fetchLoop.
  - intros w e w' H. injection H as <- _. eauto.
Qed.

Lemma raisesErrors_getLatestMeasurements (locationId : JsId) :
  raisesErrors (getLatestMeasurements env locationId).
Proof. unfold getLatestMeasurements. raises. Qed.

Lemma raisesErrors_generateSimulatedValue (paramName : option string) :
  raisesErrors (generateSimulatedValue env paramName).
Proof. unfold generateSimulatedValue. raises. Qed.

Lemma raisesErrors_processSensor station sensorDataMap currentTime vars sensor :
  raisesErrors (processSensor env station sensorDataMap currentTime vars sensor).
Proof.
  pose proof raisesErrors_generateSimulatedValue.
  unfold processSensor, resolveValue, writeSensorValue, parameterOf,
    findOneMeasurement, insertOneMeasurement, updateOneSensor.
  raises.
Qed.

End ProcessStationTotal.

(** ** [processStation] always returns a classified outcome *)

Section Returns.

Lemma returns_ret {A : Type} (a : A) (P : A -> Prop) : P a -> returns (ret a) P.
Proof. intros HP w a' w' H. injection H as <- _. exact HP. Qed.

Lemma returns_bind {A B : Type} (m : M A) (k : A -> M B) (P : B -> Prop) :
  (forall a, returns (k a) P) -> returns (bind m k) P.
Proof.
  intros Hk w b w' H. unfold bind in H.
  destruct (m w) as [[a | e] w0]; [eapply Hk, H | discriminate].
Qed.

End Returns.

Section ProcessStationOutcome.
Context (env : Env).

Lemma processStation_classifies (station : Station) (currentTime : Z) (w : World) :
  exists o w',
    processStation env station currentTime w = (Ok o, w') /\ wellClassified o.
Proof.
  unfold processStation.
  match goal with
  | |- context [tryCatch ?b ?h] => set (body := b); set (handler := h)
  end.
  assert (Hthrows : raisesErrors body).
  { pose proof (raisesErrors_getLatestMeasurements env).
    pose proof (raisesErrors_processSensor env).
    subst body. unfold findSensors, updateOneStation. raises. }
  assert (Hreturns : returns body
            (fun o => out_error o = None /\ out_reason o <> R_error
                      /\ (out_success o = true <-> out_reason o = R_success))).
  { subst body.
    repeat first
      [ apply returns_bind; intros ?
      | match goal with
        | |- returns (if ?b then _ else _) _ => destruct b eqn:?
        end
      | apply returns_ret; simpl; try destruct (stationDataUpdated _);
        repeat split; intros; congruence ]. }
  unfold tryCatch. destruct (body w) as [[o | e] w1] eqn:Eb.
  - exists o, w1. split; [reflexivity|].
    destruct (Hreturns _ _ _ Eb) as (Herr & Hreason & Hsucc).
    split; [|exact Hsucc].
    split; [intros; contradiction | intros [msg Hm]; congruence].
  - destruct (Hthrows _ _ _ Eb) as [msg ->].
    eexists _, w1. split; [reflexivity|]. split; simpl.
    + split; eauto.
    + split; discriminate.
Qed.

End ProcessStationOutcome.

(** ** The batch loop *)

Section BatchLoop.
Context (env : Env).
Local Open Scope Z_scope.

Lemma forOf_app {A S : Type} (body : S -> A -> M S) (l1 l2 : list A) (s : S) (w : World) :
  forOf body (l1 ++ l2) s w = bind (forOf body l1 s) (forOf body l2) w.
Proof.
  revert s w. induction l1 as [|x l1 IH]; intros s w; simpl.
  - reflexivity.
  - unfold bind. destruct (body s x w) as [[s' | e] w']; [exact (IH s' w') | reflexivity].
Qed.

(** Every station of a batch gets an outcome, whatever happens while the
    others are processed. *)
Lemma batch_outcomes (currentTime : Z) (batchStations : list Station) :
  forall (acc : nat * list Outcome) (w : World),
  exists outs w',
    forOf (processBatchStation env currentTime) batchStations acc w
      = (Ok ((fst acc + length batchStations)%nat, (snd acc ++ outs)%list), w')
    /\ length outs = length batchStations
    /\ List.Forall wellClassified outs.
Proof.
  induction batchStations as [|station rest IH]; intros acc w; simpl.
  - exists [], w. rewrite Nat.add_0_r, app_nil_r. destruct acc. auto.
  - unfold bind at 1, processBatchStation at 1.
    set (pause := if (0 <? fst acc)%nat then sleep 1000 else ret tt).
    assert (Hp : exists w0, pause w = (Ok tt, w0)).
    { subst pause. destruct (0 <? fst acc)%nat; eexists; reflexivity. }
    destruct Hp as [w0 Hp]. unfold bind at 1. rewrite Hp.
    destruct (processStation_classifies env station currentTime w0)
      as (o & w1 & Ho & Hwc).
    unfold bind at 1. rewrite Ho. simpl ret.
    destruct (IH (S (fst acc), (snd acc ++ [o])%list) w1) as (outs & w' & Hrest & Hlen & Hall).
    cbv beta iota. unfold ret at 1. rewrite Hrest. exists (o :: outs), w'. simpl.
    rewrite <- app_assoc. simpl. split; [|split].
    + do 2 f_equal. f_equal. lia.
    + congruence.
    + constructor; assumption.
Qed.

Lemma tally_counts (outs : list Outcome) :
  forall results,
    successful (fold_left tally outs results) + failed (fold_left tally outs results)
      = successful results + failed results + Z.of_nat (length outs)
    /\ total (fold_left tally outs results) = total results
    /\ paging (fold_left tally outs results) = paging results.
Proof.
  induction outs as [|o outs IH]; intros results; simpl fold_left.
  - simpl. repeat split. lia.
  - destruct (IH (tally results o)) as (Hc & Ht & Hp).
    rewrite Hc, Ht, Hp. unfold tally. destruct (out_success o); simpl; repeat split; lia.
Qed.

Lemma processBatch_completes (laStations : list Station)
    (offset totalStations endOffset currentTime : Z) (results : Results) (i : Z) (w : World) :
  progressWritable env ->
  exists results' w' now,
    processBatch env laStations offset totalStations endOffset currentTime results i w
      = (Ok results', w')
    /\ successful results' + failed results'
       = successful results + failed results
         + Z.of_nat (length (slice laStations i (i + batchSize)))
    /\ total results' = total results
    /\ paging results' = paging results
    /\ progressCollection (store w')
       = Some (progressAfter offset totalStations endOffset i now).
Proof.
  intros Hprog. unfold processBatch.
  destruct (batch_outcomes currentTime (slice laStations i (i + batchSize)) (O, []) w)
    as (outs & w1 & Hb & Hlen & _).
  unfold bind at 1. rewrite Hb. simpl snd.
  destruct (tally_counts outs results) as (Hc & Ht & Hp).
  set (pause := if i + batchSize <? Z.of_nat (length laStations)
                then sleep (8 * 1000) else ret tt).
  assert (Hpause : exists w2, pause w1 = (Ok tt, w2)).
  { subst pause. destruct (i + batchSize <? _); eexists; reflexivity. }
  destruct Hpause as [w2 Hpause].
  unfold bind at 1. rewrite Hpause.
  cbv [bind newDate upsertProgress storeCall writeStore ret].
  rewrite Hprog.
  eexists _, _, (clock w2). split; [reflexivity|].
  rewrite Hc, Ht, Hp, Hlen. unfold progressAfter, floorDiv, batchSize. auto.
Qed.

End BatchLoop.

Section RunPage.
Context (env : Env).
Local Open Scope Z_scope.

Lemma ceilDiv_spec (a b : Z) : 0 < b -> a <= b * ceilDiv a b < a + b.
Proof.
  intros Hb. unfold ceilDiv.
  pose proof (Z.div_mod (- a) b ltac:(lia)).
  pose proof (Z.mod_pos_bound (- a) b Hb). nia.
Qed.

(** [forRange] lists the multiples of the step from 0 below the bound,
    the values the loop variable takes. *)
Lemma elem_of_forRange (stop step i : Z) :
  0 < step ->
  i ∈ forRange stop step <-> 0 <= i < stop /\ exists k, i = k * step.
Proof.
  intros Hstep. unfold forRange. rewrite list_elem_of_fmap.
  pose proof (ceilDiv_spec stop step Hstep) as Hc.
  split.
  - intros (k & -> & Hk%elem_of_seqZ). split; [nia | eauto].
  - intros (Hi & k & ->). exists k. split; [reflexivity|].
    apply elem_of_seqZ. nia.
Qed.

Lemma batch_loop_invariant (laStations : list Station)
    (offset totalStations endOffset currentTime : Z) (results : Results) (w : World) :
  progressWritable env ->
  forall k : nat,
  exists results' w',
    forOf (processBatch env laStations offset totalStations endOffset currentTime)
      ((fun j => j * batchSize) <$> seqZ 0 (Z.of_nat k)) results w = (Ok results', w')
    /\ successful results' + failed results'
       = successful results + failed results
         + Z.min (3 * Z.of_nat k) (Z.of_nat (length laStations))
    /\ total results' = total results
    /\ paging results' = paging results
    /\ match k with
       | O => w' = w
       | S k' =>
           exists now,
             progressCollection (store w')
             = Some (progressAfter offset totalStations endOffset (3 * Z.of_nat k') now)
       end.
Proof.
  intros Hprog. induction k as [|k IH].
  - exists results, w. simpl. repeat split. lia.
  - destruct IH as (r1 & w1 & Hrun & Hc & Ht & Hp & _).
    rewrite seqZ_S, fmap_app, forOf_app. unfold bind. rewrite Hrun.
    simpl fmap. simpl forOf.
    destruct (processBatch_completes env laStations offset totalStations endOffset
                currentTime r1 ((0 + Z.of_nat k) * batchSize) w1 Hprog)
      as (r2 & w2 & now & Hb & Hc2 & Ht2 & Hp2 & Hprogress).
    unfold bind. rewrite Hb. exists r2, w2. split; [reflexivity|].
    split; [|split; [congruence | split; [congruence|]]].
    + rewrite Hc2, Hc. unfold batchSize.
      pose proof (slice_length laStations ((0 + Z.of_nat k) * 3) ((0 + Z.of_nat k) * 3 + 3)
                    ltac:(lia) ltac:(lia)) as Hlen.
      rewrite Hlen. lia.
    + exists now. rewrite Hprogress. unfold batchSize. f_equal. f_equal. lia.
Qed.

(** A run over a page completes when the progress collection accepts
    writes: every station of the page is counted as successful or
    failed, and a non-empty page leaves the progress record of its last
    batch. *)
Lemma runPage_completes (allLaStations : list Station) (offset maxPerRun : Z) (w : World) :
  progressWritable env ->
  let totalStations := Z.of_nat (length allLaStations) in
  let endOffset := endOffsetOf totalStations offset maxPerRun in
  let laStations := pageOf allLaStations offset maxPerRun in
  exists results w',
    runPage env allLaStations offset maxPerRun w = (Ok results, w')
    /\ total results = Z.of_nat (length laStations)
    /\ successful results + failed results = Z.of_nat (length laStations)
    /\ paging results = pagingOf allLaStations offset maxPerRun
    /\ (laStations <> [] ->
        exists now,
          progressCollection (store w')
          = Some {| lastRunTime := now;
                    lastOffset := offset;
                    nextOffset := nextOffsetOf totalStations endOffset;
                    prog_totalStations := totalStations;
                    batchesCompleted := ceilDiv (Z.of_nat (length laStations)) batchSize;
                    totalBatches := ceilDiv totalStations batchSize;
                    isFullyComplete := (endOffset >=? totalStations) |}).
Proof.
  intros Hprog totalStations endOffset laStations.
  unfold runPage. fold totalStations endOffset laStations.
  unfold bind at 1, newDate at 1.
  set (n := ceilDiv (Z.of_nat (length laStations)) batchSize).
  pose proof (ceilDiv_spec (Z.of_nat (length laStations)) batchSize ltac:(reflexivity)) as Hn.
  fold n in Hn. unfold batchSize in Hn.
  unfold forRange. fold n.
  match goal with
  | |- context [forOf ?body _ ?r0 w] =>
      destruct (batch_loop_invariant laStations offset totalStations endOffset
                  (setMinutes (localTZA env) (clock w) 0 0 0) r0 w Hprog (Z.to_nat n))
        as (r & w' & Hrun & Hc & Ht & Hp & Hfinal)
  end.
  rewrite Z2Nat.id in Hrun, Hc by lia.
  exists r, w'. split; [exact Hrun|]. simpl in Hc, Ht, Hp.
  split; [exact Ht|]. split; [lia|]. split; [exact Hp|].
  intros Hne.
  destruct (Z.to_nat n) as [|k'] eqn:Ek.
  - destruct laStations; [contradiction | simpl in Hn; lia].
  - destruct Hfinal as [now Hfinal]. exists now. rewrite Hfinal.
    unfold progressAfter. f_equal. f_equal.
    rewrite Z.mul_comm, Z.div_mul by lia. lia.
Qed.

(** A run over an empty page does nothing at all. *)
Lemma runPage_empty (allLaStations : list Station) (offset maxPerRun : Z) (w : World) :
  pageOf allLaStations offset maxPerRun = [] ->
  exists results,
    runPage env allLaStations offset maxPerRun w = (Ok results, w)
    /\ total results = 0 /\ successful results = 0 /\ failed results = 0.
Proof.
  intros Hnil. unfold runPage. rewrite Hnil. simpl length.
  unfold forRange. rewrite ceilDiv_zero. simpl.
  eexists. split; [reflexivity|]. simpl. auto.
Qed.

End RunPage.

(** ** The planner and the progress record *)

Section Planner.
Local Open Scope Z_scope.

(** C4. For a non-negative offset and window, the page of a run holds
    the sites at the indices from [offset] up to, not including,
    [min (offset + maxPerRun) totalSites]; the summary reports
    [remaining = totalSites - min (...)] and [isComplete] exactly when
    that minimum reaches [totalSites]; and a run over a non-empty page
    records the minimum as [nextOffset], or 0 once it reaches
    [totalSites].  With 130 sites and window 50: offset 0 gives the first
    50 sites, remaining 80, not complete, next offset 50; offset 100
    gives the sites from index 100 on, remaining 0, complete, next
    offset 0. *)
Theorem planner_contract (env : Env) (allLaStations : list Station) (w : World) :
  progressWritable env ->
  (forall offset maxPerRun,
     0 <= offset -> 0 <= maxPerRun ->
     let totalSites := Z.of_nat (length allLaStations) in
     let endOffset := Z.min (offset + maxPerRun) totalSites in
     (forall i : nat,
        pageOf allLaStations offset maxPerRun !! i =
          if offset + Z.of_nat i <? endOffset
          then allLaStations !! (Z.to_nat offset + i)%nat else None)
     /\ remainingStations (pagingOf allLaStations offset maxPerRun)
        = totalSites - endOffset
     /\ isComplete (pagingOf allLaStations offset maxPerRun)
        = (endOffset >=? totalSites)
     /\ exists results w',
          runPage env allLaStations offset maxPerRun w = (Ok results, w')
          /\ paging results = pagingOf allLaStations offset maxPerRun
          /\ (pageOf allLaStations offset maxPerRun <> [] ->
              exists p, progressCollection (store w') = Some p
                        /\ lastOffset p = offset
                        /\ nextOffset p
                           = if endOffset >=? totalSites then 0 else endOffset))
  /\ (length allLaStations = 130%nat ->
      (pageOf allLaStations 0 50 = take 50 allLaStations
       /\ remainingStations (pagingOf allLaStations 0 50) = 80
       /\ isComplete (pagingOf allLaStations 0 50) = false
       /\ exists results w' p,
            runPage env allLaStations 0 50 w = (Ok results, w')
            /\ progressCollection (store w') = Some p /\ nextOffset p = 50)
      /\ (pageOf allLaStations 100 50 = drop 100 allLaStations
          /\ remainingStations (pagingOf allLaStations 100 50) = 0
          /\ isComplete (pagingOf allLaStations 100 50) = true
          /\ exists results w' p,
               runPage env allLaStations 100 50 w = (Ok results, w')
               /\ progressCollection (store w') = Some p /\ nextOffset p = 0)).
Proof.
  intros Hprog. split.
  - intros offset maxPerRun Ho Hm totalSites endOffset.
    split; [intros i; apply pageOf_lookup; assumption|].
    split; [reflexivity|]. split; [reflexivity|].
    destruct (runPage_completes env allLaStations offset maxPerRun w Hprog)
      as (results & w' & Hrun & _ & _ & Hp & Hprogress).
    exists results, w'. split; [exact Hrun|]. split; [exact Hp|].
    intros Hne. destruct (Hprogress Hne) as [now Hnow].
    eexists. split; [exact Hnow|]. split; reflexivity.
  - intros Hlen.
    assert (Hpage0 : pageOf allLaStations 0 50 = take 50 allLaStations).
    { rewrite pageOf_drop_take by (rewrite ?Hlen; lia). rewrite Hlen. reflexivity. }
    assert (Hpage100 : pageOf allLaStations 100 50 = drop 100 allLaStations).
    { rewrite pageOf_drop_take by (rewrite ?Hlen; lia). rewrite Hlen.
      change (endOffsetOf (Z.of_nat 130) 100 50) with 130.
      apply take_ge. rewrite length_drop. lia. }
    split.
    + split; [exact Hpage0|].
      split; [unfold pagingOf; rewrite Hlen; reflexivity|].
      split; [unfold pagingOf; rewrite Hlen; reflexivity|].
      destruct (runPage_completes env allLaStations 0 50 w Hprog)
        as (results & w' & Hrun & _ & _ & _ & Hprogress).
      destruct Hprogress as [now Hnow].
      { rewrite Hpage0. intros Hnil. apply (f_equal length) in Hnil.
        rewrite length_take, Hlen in Hnil. vm_compute in Hnil. discriminate. }
      eexists results, w', _. split; [exact Hrun|]. split; [exact Hnow|].
      simpl. rewrite Hlen. reflexivity.
    + split; [exact Hpage100|].
      split; [unfold pagingOf; rewrite Hlen; reflexivity|].
      split; [unfold pagingOf; rewrite Hlen; reflexivity|].
      destruct (runPage_completes env allLaStations 100 50 w Hprog)
        as (results & w' & Hrun & _ & _ & _ & Hprogress).
      destruct Hprogress as [now Hnow].
      { rewrite Hpage100. intros Hnil. apply (f_equal length) in Hnil.
        rewrite length_drop, Hlen in Hnil. vm_compute in Hnil. discriminate. }
      eexists results, w', _. split; [exact Hrun|]. split; [exact Hnow|].
      simpl. rewrite Hlen. reflexivity.
Qed.

End Planner.

Section PlannerScenarios.
Local Open Scope Z_scope.

Lemma planner_contract_witness :
  progressWritable Scenario.brokenMeasurementsEnv
  /\ length (Scenario.stationsUpTo 130) = 130%nat
  /\ exists results w' p,
       runPage Scenario.brokenMeasurementsEnv (Scenario.stationsUpTo 130) 0 50
         Scenario.manyStationsWorld = (Ok results, w')
       /\ progressCollection (store w') = Some p /\ nextOffset p = 50.
Proof.
  assert (Hprog : progressWritable Scenario.brokenMeasurementsEnv)
    by (intros n; reflexivity).
  assert (Hlen : length (Scenario.stationsUpTo 130) = 130%nat) by reflexivity.
  split; [exact Hprog|]. split; [exact Hlen|].
  exact (proj2 (proj2 (proj2 (proj1
           (proj2 (planner_contract Scenario.brokenMeasurementsEnv
                     (Scenario.stationsUpTo 130) Scenario.manyStationsWorld Hprog)
              Hlen))))).
Defined.

Lemma partition_cycle_witness :
  (1 <= length (Scenario.stationsUpTo 5))%nat
  /\ 1 <= 2
  /\ exists pages,
       cycle (length (Scenario.stationsUpTo 5)) (Scenario.stationsUpTo 5) 2 0 = Some pages
       /\ concat pages = Scenario.stationsUpTo 5
       /\ Z.of_nat (length pages)
          = ceilDiv (Z.of_nat (length (Scenario.stationsUpTo 5))) 2
       /\ Forall (fun page => page <> []) pages.
Proof.
  assert (H1 : (1 <= length (Scenario.stationsUpTo 5))%nat) by (vm_compute; lia).
  assert (H2 : 1 <= 2) by lia.
  split; [exact H1|]. split; [exact H2|].
  exact (partition_cycle_covers_every_site_once (Scenario.stationsUpTo 5) 2 H1 H2).
Defined.

(** Five sites with window two: pages of two, two and one site. *)
Example cycle_five_by_two :
  cycle 5 (Scenario.stationsUpTo 5) 2 0
  = Some [Scenario.stationAt <$> [1; 2]; Scenario.stationAt <$> [3; 4];
          Scenario.stationAt <$> [5]].
Proof. vm_compute. reflexivity. Qed.

(** C3, as the code has it. For every run whose starting offset is at
    least the number of sites, the page is empty and the run processes no
    site and changes nothing: no request is sent and no store operation
    is issued, so the progress record stays as it was. *)
Theorem offset_beyond_total_changes_nothing
    (env : Env) (allLaStations : list Station) (offset maxPerRun : Z) (w : World) :
  Z.of_nat (length allLaStations) <= offset ->
  pageOf allLaStations offset maxPerRun = []
  /\ exists results,
       runPage env allLaStations offset maxPerRun w = (Ok results, w)
       /\ total results = 0 /\ successful results = 0 /\ failed results = 0.
Proof.
  intros Hoff.
  assert (Hnil : pageOf allLaStations offset maxPerRun = [])
    by (apply slice_start_beyond; exact Hoff).
  split; [exact Hnil|].
  apply runPage_empty. exact Hnil.
Qed.

Lemma offset_beyond_total_witness :
  Z.of_nat (length (Scenario.stationsUpTo 2)) <= 5
  /\ pageOf (Scenario.stationsUpTo 2) 5 50 = []
  /\ exists results,
       runPage Scenario.beyondEnv (Scenario.stationsUpTo 2) 5 50 Scenario.twoStationsWorld
       = (Ok results, Scenario.twoStationsWorld)
       /\ total results = 0 /\ successful results = 0 /\ failed results = 0.
Proof.
  assert (H : Z.of_nat (length (Scenario.stationsUpTo 2)) <= 5)
    by (vm_compute; discriminate).
  split; [exact H|].
  exact (offset_beyond_total_changes_nothing Scenario.beyondEnv
           (Scenario.stationsUpTo 2) 5 50 Scenario.twoStationsWorld H).
Defined.

(** C3, as stated, fails: with two sites in the store, offset 5 and an
    unset progress record, the handler answers 200 for an empty page and
    the progress record is still unset afterwards, so no record with
    [nextOffset = 0] was written. *)
Lemma offset_beyond_total_writes_no_progress :
  Z.of_nat (length (List.filter inLaBounds
                      (stationCollection (store Scenario.twoStationsWorld))))
    <= STATIONS_OFFSET Scenario.beyondEnv
  /\ (exists results w',
        handler Scenario.beyondEnv Scenario.twoStationsWorld
        = (Ok {| statusCode := 200; body := BodyCompleted results |}, w')
        /\ total results = 0
        /\ progressCollection (store w') = None)
  /\ ~ (exists p,
          progressCollection
            (store (snd (handler Scenario.beyondEnv Scenario.twoStationsWorld))) = Some p
          /\ nextOffset p = 0).
Proof.
  split; [vm_compute; discriminate|]. split.
  - eexists _, _. split; [vm_compute; reflexivity|]. split; reflexivity.
  - intros [p [Hp _]]. vm_compute in Hp. discriminate.
Qed.

End PlannerScenarios.

(** ** Isolation of per-site failures *)

Section FailureIsolation.
Local Open Scope Z_scope.

(** C7. Whatever the upstream answers and whichever operations on the
    station, sensor and measurement collections fail, [processStation]
    returns an outcome instead of raising: its reason is one of the six
    categories, and it is [error] exactly when a message is retained.
    Hence every station of a batch gets an outcome, every station of the
    page is counted as successful or failed, and, the progress collection
    accepting writes, the progress record is written after every batch: a
    non-empty page ends with the record of its last batch. *)
Theorem site_failures_do_not_abort_the_page
    (env : Env) (allLaStations : list Station) (offset maxPerRun : Z) (w : World) :
  progressWritable env ->
  (forall station currentTime w0,
     exists o w1,
       processStation env station currentTime w0 = (Ok o, w1) /\ wellClassified o)
  /\ (forall currentTime batchStations w0,
        exists outs w1,
          forOf (processBatchStation env currentTime) batchStations (O, []) w0
            = (Ok (length batchStations, outs), w1)
          /\ length outs = length batchStations
          /\ List.Forall wellClassified outs)
  /\ (forall laStations totalStations endOffset currentTime results i w0,
        exists results' w1 p,
          processBatch env laStations offset totalStations endOffset currentTime
            results i w0 = (Ok results', w1)
          /\ progressCollection (store w1) = Some p
          /\ batchesCompleted p = i / batchSize + 1)
  /\ exists results w',
       runPage env allLaStations offset maxPerRun w = (Ok results, w')
       /\ total results = Z.of_nat (length (pageOf allLaStations offset maxPerRun))
       /\ successful results + failed results = total results
       /\ (pageOf allLaStations offset maxPerRun <> [] ->
           exists p,
             progressCollection (store w') = Some p
             /\ lastOffset p = offset
             /\ batchesCompleted p
                = ceilDiv (Z.of_nat (length (pageOf allLaStations offset maxPerRun)))
                    batchSize).
Proof.
  intros Hprog. split; [|split; [|split]].
  - intros station currentTime w0. apply processStation_classifies.
  - intros currentTime batchStations w0.
    destruct (batch_outcomes env currentTime batchStations (O, []) w0)
      as (outs & w1 & Hrun & Hlen & Hall).
    exists outs, w1. auto.
  - intros laStations totalStations endOffset currentTime results i w0.
    destruct (processBatch_completes env laStations offset totalStations endOffset
                currentTime results i w0 Hprog)
      as (results' & w1 & now & Hrun & _ & _ & _ & Hp).
    eexists results', w1, _. split; [exact Hrun|]. split; [exact Hp | reflexivity].
  - destruct (runPage_completes env allLaStations offset maxPerRun w Hprog)
      as (results & w' & Hrun & Ht & Hc & _ & Hprogress).
    exists results, w'. split; [exact Hrun|]. split; [exact Ht|].
    split; [congruence|].
    intros Hne. destruct (Hprogress Hne) as [now Hnow].
    eexists. split; [exact Hnow|]. split; reflexivity.
Qed.

Lemma site_failures_witness :
  progressWritable Scenario.brokenMeasurementsEnv
  /\ exists results w',
       runPage Scenario.brokenMeasurementsEnv (Scenario.stationsUpTo 4) 0 50
         Scenario.fourStationsWorld = (Ok results, w')
       /\ total results = Z.of_nat (length (pageOf (Scenario.stationsUpTo 4) 0 50))
       /\ successful results + failed results = total results
       /\ (pageOf (Scenario.stationsUpTo 4) 0 50 <> [] ->
           exists p,
             progressCollection (store w') = Some p
             /\ lastOffset p = 0
             /\ batchesCompleted p
                = ceilDiv (Z.of_nat (length (pageOf (Scenario.stationsUpTo 4) 0 50)))
                    batchSize).
Proof.
  assert (Hprog : progressWritable Scenario.brokenMeasurementsEnv)
    by (intros n; reflexivity).
  split; [exact Hprog|].
  exact (proj2 (proj2 (proj2 (site_failures_do_not_abort_the_page
                                Scenario.brokenMeasurementsEnv (Scenario.stationsUpTo 4)
                                0 50 Scenario.fourStationsWorld Hprog)))).
Defined.

(** One page of four sites in two batches.  The upstream is down for the
    second site and the measurement collection refuses every operation:
    the first and third sites end in [error], the second in [no_data],
    the fourth (no sensors) in [no_sensors], all four are counted, and
    the progress record of the second batch is written. *)
Example four_sites_all_failing :
  exists results w',
    handler Scenario.brokenMeasurementsEnv Scenario.fourStationsWorld
    = (Ok {| statusCode := 200; body := BodyCompleted results |}, w')
    /\ total results = 4 /\ successful results = 0 /\ failed results = 4
    /\ failureReasons results !! "error" = Some 2
    /\ failureReasons results !! "no_data" = Some 1
    /\ failureReasons results !! "no_sensors" = Some 1
    /\ (batchesCompleted <$> progressCollection (store w')) = Some 2.
Proof. eexists _, _. split; [vm_compute; reflexivity|]. repeat split. Qed.

(** Three sites and a healthy store: the site whose requests all fail is
    counted as [no_data] and the sites around it succeed. *)
Example one_site_down :
  exists results w',
    handler Scenario.healthyEnv Scenario.threeStationsWorld
    = (Ok {| statusCode := 200; body := BodyCompleted results |}, w')
    /\ total results = 3 /\ successful results = 2 /\ failed results = 1
    /\ failureReasons results !! "no_data" = Some 1
    /\ res_recordsCreated results = 2
    /\ (batchesCompleted <$> progressCollection (store w')) = Some 1
    /\ (nextOffset <$> progressCollection (store w')) = Some 0.
Proof. eexists _, _. split; [vm_compute; reflexivity|]. repeat split. Qed.

End FailureIsolation.

(** ** The retrying fetch *)

Section FetchWithRetry.
Context (env : Env).
Local Open Scope Z_scope.

Lemma delayMs_grows (attempt : Z) : 0 <= attempt -> delayMs attempt < delayMs (attempt + 1).
Proof.
  intros H. unfold delayMs. rewrite Z.pow_add_r by lia.
  assert (0 < 2 ^ attempt) by (apply Z.pow_pos_nonneg; lia). lia.
Qed.

(** One attempt: the request is sent after the pause, and the attempt
    returns or raises according to the answer. *)
Lemma fetchAttempt_run (url : string) (attempt : Z) (w : World) :
  exists w',
    fetchAttempt env url attempt w
      = (match attemptResult (network env url (fetchCount w)) with
         | inl body => Ok body
         | inr msg => Throw (ThrownError msg)
         end, w')
    /\ fetchCount w' = S (fetchCount w)
    /\ trace w' = (trace w ++ attemptEvents url 1 attempt)%list
    /\ store w' = store w.
Proof.
  unfold fetchAttempt, attemptResult. simpl attemptEvents.
  cbv [bind fetch responseJson resp_ok resp_status resp_json resp_text ret throw].
  destruct (attempt >? 0); simpl;
    destruct (network env url (fetchCount w)) as [msg | status text [body|]]; simpl;
    try destruct ((200 <=? status) && (status <=? 299)); simpl;
    eexists; (split; [reflexivity|]); simpl; rewrite <- ?app_assoc; auto.
Qed.

Lemma fetchLoop_run (url : string) :
  forall (remaining : nat) (attempt : Z) (lastError : Thrown) (w : World),
  exists (k : nat) r w',
    fetchLoop env url remaining attempt lastError w = (r, w')
    /\ (k <= remaining)%nat
    /\ fetchCount w' = (fetchCount w + k)%nat
    /\ trace w' = (trace w ++ attemptEvents url k attempt)%list
    /\ store w' = store w
    /\ match r with
       | Ok body =>
           exists j, k = S j
             /\ attemptResult (network env url (fetchCount w + j)) = inl body
             /\ forall i, (i < j)%nat -> attemptFails (network env url (fetchCount w + i))
       | Throw e =>
           k = remaining
           /\ (forall i, (i < k)%nat -> attemptFails (network env url (fetchCount w + i)))
           /\ match k with
              | O => e = lastError
              | S j => exists msg,
                  attemptResult (network env url (fetchCount w + j)) = inr msg
                  /\ e = ThrownError msg
              end
       end.
Proof.
  induction remaining as [|n IH]; intros attempt lastError w.
  - exists O, (Throw lastError), w. simpl. rewrite Nat.add_0_r, app_nil_r.
    repeat split; auto. intros i Hi. lia.
  - simpl fetchLoop. unfold tryCatch.
    destruct (fetchAttempt_run url attempt w) as (w1 & Hrun & Hcount & Htrace & Hstore).
    rewrite Hrun.
    destruct (attemptResult (network env url (fetchCount w))) as [body | msg] eqn:Hres.
    + exists 1%nat, (Ok body), w1. split; [reflexivity|].
      split; [lia|]. split; [lia|]. split; [exact Htrace|]. split; [exact Hstore|].
      exists O. rewrite Nat.add_0_r. split; [reflexivity|]. split; [exact Hres|].
      intros i Hi. lia.
    + cbv [bind messageOf ret].
      destruct (IH (attempt + 1) (ThrownError msg) w1)
        as (k & r & w' & Hloop & Hk & Hc & Ht & Hs & Hr).
      exists (S k), r, w'. split; [exact Hloop|].
      split; [lia|]. split; [lia|].
      split.
      { rewrite Ht, Htrace. simpl. rewrite <- !app_assoc. reflexivity. }
      split; [congruence|].
      assert (Hfirst : attemptFails (network env url (fetchCount w + 0)))
        by (rewrite Nat.add_0_r; exists msg; exact Hres).
      rewrite Hcount in Hr.
      destruct r as [body | e].
      * destruct Hr as (j & -> & Hok & Hfail). exists (S j).
        split; [reflexivity|].
        split; [rewrite <- Hok; do 2 f_equal; lia|].
        intros [|i] Hi; [exact Hfirst|].
        replace (fetchCount w + S i)%nat with (S (fetchCount w) + i)%nat by lia.
        apply Hfail. lia.
      * destruct Hr as (-> & Hfail & Hlast). split; [reflexivity|]. split.
        { intros [|i] Hi; [exact Hfirst|].
          replace (fetchCount w + S i)%nat with (S (fetchCount w) + i)%nat by lia.
          apply Hfail. lia. }
        destruct n as [|j].
        { exists msg. rewrite Nat.add_0_r. split; [exact Hres | exact Hlast]. }
        { destruct Hlast as (m & Hm & He). exists m. split; [|exact He].
          rewrite <- Hm. do 2 f_equal. lia. }
Qed.

End FetchWithRetry.

Section FetchWithRetryContract.
Local Open Scope Z_scope.

Lemma attemptResult_2xx (status : Z) (text : string) (body : Json) :
  200 <= status <= 299 ->
  attemptResult (FetchResponse status text (Some body)) = inl body.
Proof.
  intros [Hlo Hhi]. unfold attemptResult.
  destruct (Z.leb_spec 200 status); [|lia].
  destruct (Z.leb_spec status 299); [reflexivity | lia].
Qed.

Lemma attemptFails_not_inl (o : FetchOutcome) (body : Json) :
  attemptFails o -> attemptResult o = inl body -> False.
Proof. intros [msg Hm] Hb. congruence. Qed.

(** C6. With the default of three attempts, the retrying fetch sends at
    least one and at most three requests; attempt 0 is sent at once and
    each later attempt [a] after a pause of [2000 * 2 ^ a] milliseconds,
    which grows with the attempt number.  The first 2xx answer whose body
    parses ends the call at once with that body, whatever the body holds
    (an empty result list included), and no further request is sent.
    When all three attempts fail, the call raises the error of the third
    attempt. *)
Theorem fetchWithRetry_contract (env : Env) (url : string) (w : World) :
  (exists (k : nat) r w',
     fetchWithRetry env url defaultMaxRetries w = (r, w')
     /\ (1 <= k <= 3)%nat
     /\ fetchCount w' = (fetchCount w + k)%nat
     /\ trace w' = (trace w ++ attemptEvents url k 0)%list)
  /\ (forall attempt, 0 <= attempt -> delayMs attempt < delayMs (attempt + 1))
  /\ (forall (j : nat) status text body,
        (j < 3)%nat ->
        network env url (fetchCount w + j) = FetchResponse status text (Some body) ->
        200 <= status <= 299 ->
        (forall i, (i < j)%nat -> attemptFails (network env url (fetchCount w + i))) ->
        exists w',
          fetchWithRetry env url defaultMaxRetries w = (Ok body, w')
          /\ fetchCount w' = (fetchCount w + S j)%nat
          /\ trace w' = (trace w ++ attemptEvents url (S j) 0)%list)
  /\ ((forall i, (i < 3)%nat -> attemptFails (network env url (fetchCount w + i))) ->
      exists msg w',
        attemptResult (network env url (fetchCount w + 2)) = inr msg
        /\ fetchWithRetry env url defaultMaxRetries w = (Throw (ThrownError msg), w')
        /\ fetchCount w' = (fetchCount w + 3)%nat).
Proof.
  unfold fetchWithRetry, defaultMaxRetries.
  destruct (fetchLoop_run env url 3 0 ThrownUndefined w)
    as (k & r & w' & Hrun & Hk & Hc & Ht & _ & Hr).
  split; [|split; [|split]].
  - exists k, r, w'. split; [exact Hrun|]. split; [|split; assumption].
    destruct r; [destruct Hr as (j & -> & _); lia | destruct Hr as (-> & _); lia].
  - apply delayMs_grows.
  - intros j status text body Hj Hnet Hstatus Hbefore.
    pose proof (attemptResult_2xx status text body Hstatus) as Hok.
    rewrite <- Hnet in Hok.
    destruct r as [body' | e].
    + destruct Hr as (j' & -> & Hok' & Hfail').
      destruct (Nat.lt_trichotomy j j') as [Hlt | [-> | Hgt]].
      * destruct (attemptFails_not_inl _ _ (Hfail' j Hlt) Hok).
      * exists w'. rewrite Hok in Hok'. injection Hok' as <-.
        split; [exact Hrun|]. split; assumption.
      * destruct (attemptFails_not_inl _ _ (Hbefore j' Hgt) Hok').
    + destruct Hr as (-> & Hfail & _).
      destruct (attemptFails_not_inl _ _ (Hfail j Hj) Hok).
  - intros Hall. destruct r as [body | e].
    + destruct Hr as (j & -> & Hok & _).
      destruct (attemptFails_not_inl _ _ (Hall j ltac:(lia)) Hok).
    + destruct Hr as (-> & _ & msg & Hm & ->).
      exists msg, w'. split; [exact Hm|]. split; [exact Hrun | exact Hc].
Qed.

Lemma fetchWithRetry_contract_witness :
  (forall i, (i < 3)%nat ->
     attemptFails
       (network Scenario.healthyEnv (latestUrl (IdNum 102))
          (fetchCount Scenario.oneSensorWorld + i)))
  /\ exists msg w',
       attemptResult
         (network Scenario.healthyEnv (latestUrl (IdNum 102))
            (fetchCount Scenario.oneSensorWorld + 2)) = inr msg
       /\ fetchWithRetry Scenario.healthyEnv (latestUrl (IdNum 102)) defaultMaxRetries
            Scenario.oneSensorWorld = (Throw (ThrownError msg), w')
       /\ fetchCount w' = (fetchCount Scenario.oneSensorWorld + 3)%nat.
Proof.
  assert (H : forall i, (i < 3)%nat ->
     attemptFails
       (network Scenario.healthyEnv (latestUrl (IdNum 102))
          (fetchCount Scenario.oneSensorWorld + i)))
    by (intros i _; exists "connect ETIMEDOUT"; reflexivity).
  split; [exact H|].
  exact (proj2 (proj2 (proj2
           (fetchWithRetry_contract Scenario.healthyEnv (latestUrl (IdNum 102))
              Scenario.oneSensorWorld))) H).
Defined.

(** Three failing attempts: request, 4 s, request, 8 s, request, and the
    error of the last attempt. *)
Example three_failed_attempts :
  fetchWithRetry Scenario.healthyEnv (latestUrl (IdNum 102)) defaultMaxRetries
    (Scenario.worldWith [] [] [])
  = (Throw (ThrownError "connect ETIMEDOUT"),
     {| store := store (Scenario.worldWith [] [] []);
        clock := 1700000123456 + 4000 + 8000;
        randomIdx := 0; fetchCount := 3; storeOps := 0;
        trace :=
          [EvFetch "https://api.openaq.org/v3/locations/102/latest"; EvSleep 4000;
           EvFetch "https://api.openaq.org/v3/locations/102/latest"; EvSleep 8000;
           EvFetch "https://api.openaq.org/v3/locations/102/latest"] |}).
Proof. vm_compute. reflexivity. Qed.

(** A 2xx answer with an empty result list is returned at the first
    attempt. *)
Example empty_results_are_not_retried :
  fetchWithRetry Scenario.quietEnv (latestUrl (IdNum 101)) defaultMaxRetries
    (Scenario.worldWith [] [] [])
  = (Ok (JsonObject (Some [])),
     {| store := store (Scenario.worldWith [] [] []);
        clock := 1700000123456; randomIdx := 0; fetchCount := 1; storeOps := 0;
        trace := [EvFetch "https://api.openaq.org/v3/locations/101/latest"] |}).
Proof. vm_compute. reflexivity. Qed.

End FetchWithRetryContract.

(** ** The station matcher *)

Section Matcher.
Import FixedIndex.

Lemma addLocation_lookup (m : gmap string OpenaqLocation) (location : OpenaqLocation)
    (k : string) :
  addLocation m location !! k = if hasKey k location then Some location else m !! k.
Proof.
  unfold addLocation, hasKey.
  destruct (idKey (loc_id location)) as [ki|], (nameKey (loc_name location)) as [kn|];
    simpl;
    repeat match goal with
    | |- context [String.eqb ?a k] => destruct (String.eqb_spec a k); subst
    end; simpl;
    repeat first [rewrite lookup_insert_eq | rewrite lookup_insert_ne by assumption];
    reflexivity.
Qed.

(** The map built from the upstream list answers a key with the last
    location of the list that carries the key. *)
Lemma fold_addLocation_lookup (openaqLocations : list OpenaqLocation) (k : string) :
  forall m,
    fold_left addLocation openaqLocations m !! k =
      match last (List.filter (hasKey k) openaqLocations) with
      | Some location => Some location
      | None => m !! k
      end.
Proof.
  induction openaqLocations as [|location rest IH]; intros m; simpl.
  - reflexivity.
  - rewrite IH, addLocation_lookup.
    destruct (hasKey k location) eqn:Hk.
    + rewrite last_cons. destruct (last (List.filter (hasKey k) rest)); reflexivity.
    + reflexivity.
Qed.

(** A key that names no inherited property is answered by the last
    location of the list that carries it; any key under which a location
    is stored is answered by that location. *)
Lemma lookupKey_last (openaqLocations : list OpenaqLocation) (key : option string) :
  lookupKey (buildLocationMap openaqLocations) key
  = match lastCandidate (candidates openaqLocations key) with
    | Some location => Some (Stored location)
    | None =>
        match key with
        | Some k => if isInherited k then Some (Inherited k) else None
        | None => None
        end
    end.
Proof.
  destruct key as [k|]; simpl; [|reflexivity].
  unfold buildLocationMap, lastCandidate.
  rewrite fold_addLocation_lookup, lookup_empty.
  destruct (last (List.filter (hasKey k) openaqLocations)); reflexivity.
Qed.

Lemma lookupKey_own (openaqLocations : list OpenaqLocation) (key : option string) :
  ownKey key = true ->
  lookupKey (buildLocationMap openaqLocations) key
  = Stored <$> lastCandidate (candidates openaqLocations key).
Proof.
  intros Hown. rewrite lookupKey_last.
  destruct (lastCandidate (candidates openaqLocations key)); [reflexivity|].
  destruct key as [k|]; [|reflexivity]. simpl in Hown.
  destruct (isInherited k); [discriminate | reflexivity].
Qed.

Lemma plainStation_keys (station : DbStation) :
  plainStation station = true ->
  ownKey (idKey (db_id station)) = true /\ ownKey (nameKey (db_name station)) = true.
Proof.
  unfold plainStation. rewrite !andb_true_iff. intros [[_ H1] H2]. auto.
Qed.

Lemma matchStation_classify (openaqLocations : list OpenaqLocation)
    (acc : MatchResult) (station : DbStation) :
  plainStation station = true ->
  matchStation (buildLocationMap openaqLocations) acc station =
    match classify lastCandidate openaqLocations station with
    | Some (location, type) =>
        {| matchedStations :=
             matchedStations acc ++
               [{| dbStation := station; openaqLocation := Stored location;
                   matchType := type |}];
           unmatchedStations := unmatchedStations acc |}
    | None =>
        {| matchedStations := matchedStations acc;
           unmatchedStations := unmatchedStations acc ++ [station] |}
    end.
Proof.
  intros Hplain. destruct (plainStation_keys station Hplain) as [Hid Hname].
  unfold matchStation, classify. rewrite !lookupKey_own by assumption.
  destruct (lastCandidate (candidates openaqLocations (idKey (db_id station))));
    [reflexivity|].
  destruct (lastCandidate (candidates openaqLocations (nameKey (db_name station))));
    reflexivity.
Qed.

(** C5, as the code has it. For local and upstream sites with ordinary
    keys (ASCII names, no key that names a property of [Object.prototype],
    integer ids a double holds exactly), the matcher keeps one lookup
    keyed by the upstream ids and by the lower-cased upstream names; each
    local site is matched by id when its id key is in the lookup, else by
    name when its lower-cased name is, else it is unmatched; and among
    several upstream candidates for one key the last one in upstream
    order wins. *)
Theorem matchStations_last_candidate_wins
    (dbStations : list DbStation) (openaqLocations : list OpenaqLocation) :
  plainInputs dbStations openaqLocations ->
  matchStations dbStations openaqLocations
  = matchStationsSpec lastCandidate dbStations openaqLocations.
Proof.
  intros [Hstations _]. unfold matchStations, matchStationsSpec.
  enough (H : forall acc,
            fold_left (matchStation (buildLocationMap openaqLocations)) dbStations acc
            = {| matchedStations :=
                   matchedStations acc ++ matchedBy lastCandidate openaqLocations dbStations;
                 unmatchedStations :=
                   unmatchedStations acc
                   ++ unmatchedBy lastCandidate openaqLocations dbStations |})
    by (rewrite H; reflexivity).
  induction dbStations as [|station rest IH]; intros acc; simpl.
  - rewrite !app_nil_r. destruct acc; reflexivity.
  - simpl in Hstations. apply andb_true_iff in Hstations. destruct Hstations as [Hs Hrest].
    rewrite (IH Hrest), (matchStation_classify _ _ _ Hs).
    destruct (classify lastCandidate openaqLocations station) as [[location type]|];
      simpl; rewrite <- ?app_assoc; reflexivity.
Qed.

Lemma matchStations_last_candidate_witness :
  plainInputs
    [{| db__id := 1; db_id := IdNum 7; db_name := Some "Downtown" |};
     {| db__id := 2; db_id := IdUndefined; db_name := Some "Main Street" |};
     {| db__id := 3; db_id := IdNum 9; db_name := Some "Harbor" |}]
    [{| loc_id := IdNum 7; loc_name := Some "First" |};
     {| loc_id := IdNum 7; loc_name := Some "Second" |};
     {| loc_id := IdNum 1; loc_name := Some "MAIN STREET" |};
     {| loc_id := IdNum 2; loc_name := Some "main street" |}]
  /\ matchStations
       [{| db__id := 1; db_id := IdNum 7; db_name := Some "Downtown" |};
        {| db__id := 2; db_id := IdUndefined; db_name := Some "Main Street" |};
        {| db__id := 3; db_id := IdNum 9; db_name := Some "Harbor" |}]
       [{| loc_id := IdNum 7; loc_name := Some "First" |};
        {| loc_id := IdNum 7; loc_name := Some "Second" |};
        {| loc_id := IdNum 1; loc_name := Some "MAIN STREET" |};
        {| loc_id := IdNum 2; loc_name := Some "main street" |}]
     = matchStationsSpec lastCandidate
         [{| db__id := 1; db_id := IdNum 7; db_name := Some "Downtown" |};
          {| db__id := 2; db_id := IdUndefined; db_name := Some "Main Street" |};
          {| db__id := 3; db_id := IdNum 9; db_name := Some "Harbor" |}]
         [{| loc_id := IdNum 7; loc_name := Some "First" |};
          {| loc_id := IdNum 7; loc_name := Some "Second" |};
          {| loc_id := IdNum 1; loc_name := Some "MAIN STREET" |};
          {| loc_id := IdNum 2; loc_name := Some "main street" |}].
Proof.
  assert (H : plainInputs
    [{| db__id := 1; db_id := IdNum 7; db_name := Some "Downtown" |};
     {| db__id := 2; db_id := IdUndefined; db_name := Some "Main Street" |};
     {| db__id := 3; db_id := IdNum 9; db_name := Some "Harbor" |}]
    [{| loc_id := IdNum 7; loc_name := Some "First" |};
     {| loc_id := IdNum 7; loc_name := Some "Second" |};
     {| loc_id := IdNum 1; loc_name := Some "MAIN STREET" |};
     {| loc_id := IdNum 2; loc_name := Some "main street" |}])
    by (split; vm_compute; reflexivity).
  split; [exact H|].
  exact (matchStations_last_candidate_wins _ _ H).
Defined.

(** C5, as stated, fails: two upstream locations share the id 7; the
    local site with id 7 is matched to the second of them, not to the
    first. *)
Lemma matchStations_first_candidate_loses :
  matchStations
    [{| db__id := 1; db_id := IdNum 7; db_name := Some "Downtown" |}]
    [{| loc_id := IdNum 7; loc_name := Some "First" |};
     {| loc_id := IdNum 7; loc_name := Some "Second" |}]
  = {| matchedStations :=
         [{| dbStation := {| db__id := 1; db_id := IdNum 7; db_name := Some "Downtown" |};
             openaqLocation := Stored {| loc_id := IdNum 7; loc_name := Some "Second" |};
             matchType := MatchId |}];
       unmatchedStations := [] |}
  /\ matchStations
       [{| db__id := 1; db_id := IdNum 7; db_name := Some "Downtown" |}]
       [{| loc_id := IdNum 7; loc_name := Some "First" |};
        {| loc_id := IdNum 7; loc_name := Some "Second" |}]
     <> matchStationsSpec firstCandidate
          [{| db__id := 1; db_id := IdNum 7; db_name := Some "Downtown" |}]
          [{| loc_id := IdNum 7; loc_name := Some "First" |};
           {| loc_id := IdNum 7; loc_name := Some "Second" |}].
Proof.
  split; [vm_compute; reflexivity|].
  vm_compute. intros H. discriminate H.
Qed.

(** The same holds for two upstream locations whose names differ only in
    case. *)
Example matchStations_name_tie :
  matchedStations
    (matchStations
       [{| db__id := 1; db_id := IdUndefined; db_name := Some "Main Street" |}]
       [{| loc_id := IdNum 1; loc_name := Some "MAIN STREET" |};
        {| loc_id := IdNum 2; loc_name := Some "main street" |}])
  = [{| dbStation := {| db__id := 1; db_id := IdUndefined; db_name := Some "Main Street" |};
        openaqLocation := Stored {| loc_id := IdNum 2; loc_name := Some "main street" |};
        matchType := MatchName |}].
Proof. vm_compute. reflexivity. Qed.

(** Outside the ordinary inputs the lookup is not a map of the upstream
    locations: a station named after a property of [Object.prototype] is
    reported as matched, to the built-in, although no upstream location
    carries its name. *)
Example matchStations_inherited_key :
  matchStations
    [{| db__id := 1; db_id := IdUndefined; db_name := Some "Constructor" |};
     {| db__id := 2; db_id := IdStr "toString"; db_name := None |}]
    [{| loc_id := IdNum 7; loc_name := Some "First" |}]
  = {| matchedStations :=
         [{| dbStation :=
               {| db__id := 1; db_id := IdUndefined; db_name := Some "Constructor" |};
             openaqLocation := Inherited "constructor";
             matchType := MatchName |};
          {| dbStation := {| db__id := 2; db_id := IdStr "toString"; db_name := None |};
             openaqLocation := Inherited "toString";
             matchType := MatchId |}];
       unmatchedStations := [] |}.
Proof. vm_compute. reflexivity. Qed.

End Matcher.

(** ** The writer *)

Section Writer.
Context (env : Env).
Local Open Scope Z_scope.

Lemma sameKey_measurementFor station p value isSimulated currentTime createdAt :
  sameKey (station__id station) (param_name p) currentTime
    (measurementFor station p value isSimulated currentTime createdAt) = true.
Proof.
  unfold sameKey, measurementFor. simpl. rewrite !Z.eqb_refl.
  destruct (param_name p); simpl; [rewrite String.eqb_refl|]; reflexivity.
Qed.

Lemma find_app_found {A : Type} (f : A -> bool) (l : list A) (x : A) :
  f x = true -> exists y, List.find f (l ++ [x])%list = Some y.
Proof.
  intros Hx. induction l as [|a l IH]; simpl.
  - rewrite Hx. eauto.
  - destruct (f a); eauto.
Qed.

Lemma filter_find_none {A : Type} (f : A -> bool) (l : list A) :
  List.find f l = None -> List.filter f l = [].
Proof.
  induction l as [|a l IH]; simpl; [reflexivity|].
  destruct (f a); [discriminate | exact IH].
Qed.

Lemma find_updateFirst {A : Type} (p : A -> bool) (f : A -> A) (l : list A) :
  (forall x, p (f x) = p x) ->
  List.find p (updateFirst p f l) = f <$> List.find p l.
Proof.
  intros Hp. induction l as [|a l IH]; simpl; [reflexivity|].
  destruct (p a) eqn:Ha; simpl.
  - rewrite Hp, Ha. reflexivity.
  - rewrite Ha. exact IH.
Qed.

Lemma updateFirst_twice {A : Type} (p : A -> bool) (f g : A -> A) (l : list A) :
  (forall x, p (f x) = p x) ->
  updateFirst p g (updateFirst p f l) = updateFirst p (fun x => g (f x)) l.
Proof.
  intros Hp. induction l as [|a l IH]; simpl; [reflexivity|].
  destruct (p a) eqn:Ha; simpl.
  - rewrite Hp, Ha. reflexivity.
  - rewrite Ha, IH. reflexivity.
Qed.

(** One write of a non-null value for a sensor that has a parameter, on
    a store that accepts every operation. *)
Lemma writeSensorValue_run (station : Station) (sensor : Sensor) (p : ParamDesc)
    (currentTime : Z) (vars : LoopVars) (value : JsValue) (isSimulated : bool)
    (w : World) :
  noStoreFaults env ->
  sensor_parameter sensor = Some p ->
  value <> VNull ->
  exists vars' w',
    writeSensorValue env station currentTime vars sensor value isSimulated w
      = (Ok vars', w')
    /\ measurementCollection (store w')
       = match List.find (sameKey (station__id station) (param_name p) currentTime)
                 (measurementCollection (store w)) with
         | Some _ => measurementCollection (store w)
         | None =>
             (measurementCollection (store w)
              ++ [measurementFor station p value isSimulated currentTime (clock w)])%list
         end
    /\ sensorCollection (store w')
       = updateFirst (hasSensorId (sensor__id sensor))
           (setSensorValue value (clock w) isSimulated) (sensorCollection (store w))
    /\ recordsCreated vars'
       = match List.find (sameKey (station__id station) (param_name p) currentTime)
                 (measurementCollection (store w)) with
         | Some _ => recordsCreated vars
         | None => recordsCreated vars + 1
         end
    /\ sensorsProcessed vars' = sensorsProcessed vars + 1
    /\ clock w' = clock w
    /\ stationCollection (store w') = stationCollection (store w)
    /\ progressCollection (store w') = progressCollection (store w).
Proof.
  intros Hfaults Hp Hvalue. unfold writeSensorValue, parameterOf. rewrite Hp.
  destruct value; try contradiction;
    cbv [bind ret findOneMeasurement insertOneMeasurement updateOneSensor storeCall
         readStore writeStore newDate];
    rewrite !Hfaults; cbn [store measurementCollection];
    destruct (List.find _ (measurementCollection (store w))) as [existing|];
    cbn; rewrite ?Hfaults; cbn;
    (eexists _, _; split; [reflexivity|]; cbn; repeat split; reflexivity).
Qed.

Lemma sameKey_keyOf (stationId : ObjectId) (name : option string) (timestamp : Z)
    (m : Measurement) :
  sameKey stationId name timestamp m = true <-> keyOf m = (stationId, name, timestamp).
Proof.
  unfold sameKey, keyOf. rewrite !andb_true_iff, !Z.eqb_eq.
  assert (Hn : option_string_eqb (param_name (meas_parameter m)) name = true
               <-> param_name (meas_parameter m) = name).
  { destruct (param_name (meas_parameter m)) as [a|], name as [b|]; simpl;
      rewrite ?String.eqb_eq; split; congruence. }
  rewrite Hn. split.
  - intros [[-> ->] ->]. reflexivity.
  - intros H. injection H as -> -> ->. auto.
Qed.

Lemma find_none_key_fresh (stationId : ObjectId) (name : option string) (timestamp : Z)
    (ms : list Measurement) :
  List.find (sameKey stationId name timestamp) ms = None ->
  (stationId, name, timestamp) ∉ keyOf <$> ms.
Proof.
  intros Hnone Hin. apply list_elem_of_fmap in Hin. destruct Hin as (m & Hk & Hm).
  apply list_elem_of_In in Hm.
  pose proof (List.find_none _ _ Hnone m Hm) as Hf.
  symmetry in Hk. apply sameKey_keyOf in Hk. congruence.
Qed.

Lemma find_sameKey_keyed (key : ObjectId * option string * Z) (ms : list Measurement) :
  (exists m, List.find (sameKey key.1.1 key.1.2 key.2) ms = Some m) <-> keyed key ms.
Proof.
  destruct key as [[stationId name] timestamp]. simpl. unfold keyed. split.
  - intros [m Hm]. exists m. apply List.find_some in Hm. destruct Hm as [Hin Hk].
    split; [apply list_elem_of_In; exact Hin | apply sameKey_keyOf; exact Hk].
  - intros (m & Hin & Hk).
    destruct (List.find (sameKey stationId name timestamp) ms) as [m'|] eqn:Hf; [eauto|].
    apply list_elem_of_In in Hin.
    pose proof (List.find_none _ _ Hf m Hin) as Hnone.
    apply sameKey_keyOf in Hk. congruence.
Qed.

Lemma underKey_app (key : ObjectId * option string * Z) (l1 l2 : list Measurement) :
  underKey key (l1 ++ l2) = (underKey key l1 ++ underKey key l2)%list.
Proof. unfold underKey. apply List.filter_app. Qed.

Lemma underKey_nil_iff (key : ObjectId * option string * Z) (ms : list Measurement) :
  underKey key ms = [] <-> ~ keyed key ms.
Proof.
  unfold underKey, keyed. induction ms as [|m ms IH]; simpl.
  - split; [intros _ (m & Hin & _); inversion Hin | reflexivity].
  - destruct (bool_decide_reflect (keyOf m = key)) as [Hk | Hk].
    + split; [discriminate|]. intros Hno. exfalso. apply Hno. exists m.
      split; [apply list_elem_of_here | exact Hk].
    + rewrite IH. split.
      * intros Hno (m' & Hin & Hk'). inversion Hin; subst; [contradiction|].
        apply Hno. eauto.
      * intros Hno (m' & Hin & Hk'). apply Hno. exists m'.
        split; [apply list_elem_of_further; exact Hin | exact Hk'].
Qed.

(** What [updateOne({ _id }, { $set: { value, lastUpdated, isSimulated } })]
    does to the sensor collection. *)
Lemma updateFirst_sensorRefreshed (id : ObjectId) (value : JsValue) (t : Z) (flag : bool)
    (l : list Sensor) :
  sensorRefreshed id value t flag l
    (updateFirst (fun s => (sensor__id s =? id)%Z) (setSensorValue value t flag) l).
Proof.
  unfold sensorRefreshed. induction l as [|a l (IHlen & IHother & IHfirst)].
  - simpl. split; [reflexivity|]. split; [intros i s Hi; discriminate Hi|].
    intros s Hs. discriminate Hs.
  - cbn [updateFirst List.find]. destruct (Z.eqb_spec (sensor__id a) id) as [Ha | Ha].
    + split; [reflexivity|]. split.
      * intros [|i] s Hi Hne; simpl in *; [|exact Hi].
        injection Hi as <-. contradiction.
      * intros s Hs. rewrite bool_decide_eq_true_2 in Hs by exact Ha.
        injection Hs as <-. exists (setSensorValue value t flag a).
        cbn [List.find]. rewrite bool_decide_eq_true_2 by exact Ha.
        repeat split.
    + split; [simpl; rewrite IHlen; reflexivity|]. split.
      * intros [|i] s Hi Hne; simpl in *; [exact Hi | apply IHother; assumption].
      * intros s Hs. rewrite bool_decide_eq_false_2 in Hs by exact Ha.
        cbn [List.find]. rewrite bool_decide_eq_false_2 by exact Ha.
        apply IHfirst. exact Hs.
Qed.

(** One write of a non-null value, in terms of the key of the
    Measurement and of the fields of the sensor document. *)
Lemma writeSensorValue_keyed (station : Station) (sensor : Sensor) (p : ParamDesc)
    (currentTime : Z) (vars : LoopVars) (value : JsValue) (isSimulated : bool)
    (w : World) :
  noStoreFaults env ->
  sensor_parameter sensor = Some p ->
  value <> VNull ->
  exists vars' w',
    writeSensorValue env station currentTime vars sensor value isSimulated w
      = (Ok vars', w')
    /\ (keyed (station__id station, param_name p, currentTime)
          (measurementCollection (store w)) ->
        measurementCollection (store w') = measurementCollection (store w)
        /\ recordsCreated vars' = recordsCreated vars)
    /\ (~ keyed (station__id station, param_name p, currentTime)
            (measurementCollection (store w)) ->
        measurementCollection (store w')
        = (measurementCollection (store w)
           ++ [measurementFor station p value isSimulated currentTime (clock w)])%list
        /\ recordsCreated vars' = recordsCreated vars + 1)
    /\ sensorRefreshed (sensor__id sensor) value (clock w) isSimulated
         (sensorCollection (store w)) (sensorCollection (store w'))
    /\ sensorsProcessed vars' = sensorsProcessed vars + 1
    /\ clock w' = clock w.
Proof.
  intros Hfaults Hp Hvalue.
  destruct (writeSensorValue_run station sensor p currentTime vars value isSimulated w
              Hfaults Hp Hvalue)
    as (vars' & w' & Hrun & Hm & Hs & Hr & Hn & Hclock & _).
  exists vars', w'. split; [exact Hrun|].
  pose proof (find_sameKey_keyed (station__id station, param_name p, currentTime)
                (measurementCollection (store w))) as Hkey.
  cbn [fst snd] in Hkey.
  destruct (List.find (sameKey (station__id station) (param_name p) currentTime)
              (measurementCollection (store w))) as [m|].
  - split; [auto|]. split.
    + intros Hno. exfalso. apply Hno, Hkey. eauto.
    + split; [|auto]. rewrite Hs. apply updateFirst_sensorRefreshed.
  - split.
    + intros Hyes. apply Hkey in Hyes. destruct Hyes as [m Hm']. discriminate Hm'.
    + split; [auto|]. split; [|auto]. rewrite Hs. apply updateFirst_sensorRefreshed.
Qed.

End Writer.

Section Idempotency.
Local Open Scope Z_scope.

(** C1. On a store that accepts its operations, for a sensor with a
    parameter and non-null values, a write of the key (site, parameter
    name, aligned hour): when a Measurement with that key exists, none is
    created; when none exists, exactly one is appended, with that key,
    the value and the flag; in both cases the first sensor document with
    the sensor's [_id] gets the value, an update time read during the
    write and the flag, and no other sensor document changes.  A second
    write of the key finds the key present, adds no Measurement and
    refreshes the sensor document again with its own value and flag, so
    that after both writes the key holds one Measurement when it held
    none before, and as many as before otherwise. *)
Theorem write_is_idempotent
    (env : Env) (station : Station) (sensor : Sensor) (p : ParamDesc)
    (currentTime : Z) (vars : LoopVars) (v1 v2 : JsValue) (s1 s2 : bool) (w : World) :
  noStoreFaults env ->
  sensor_parameter sensor = Some p ->
  v1 <> VNull -> v2 <> VNull ->
  let key := (station__id station, param_name p, currentTime) in
  exists vars1 w1 vars2 w2,
    writeSensorValue env station currentTime vars sensor v1 s1 w = (Ok vars1, w1)
    /\ writeSensorValue env station currentTime vars1 sensor v2 s2 w1 = (Ok vars2, w2)
    /\ (keyed key (measurementCollection (store w)) ->
        measurementCollection (store w1) = measurementCollection (store w)
        /\ recordsCreated vars1 = recordsCreated vars)
    /\ (~ keyed key (measurementCollection (store w)) ->
        exists m,
          measurementCollection (store w1) = (measurementCollection (store w) ++ [m])%list
          /\ keyOf m = key /\ meas_value m = v1 /\ meas_isSimulated m = s1
          /\ recordsCreated vars1 = recordsCreated vars + 1)
    /\ (exists t,
          clock w <= t <= clock w1
          /\ sensorRefreshed (sensor__id sensor) v1 t s1
               (sensorCollection (store w)) (sensorCollection (store w1)))
    /\ keyed key (measurementCollection (store w1))
    /\ measurementCollection (store w2) = measurementCollection (store w1)
    /\ recordsCreated vars2 = recordsCreated vars1
    /\ (exists t,
          clock w1 <= t <= clock w2
          /\ sensorRefreshed (sensor__id sensor) v2 t s2
               (sensorCollection (store w1)) (sensorCollection (store w2)))
    /\ length (underKey key (measurementCollection (store w2)))
       = Nat.max 1 (length (underKey key (measurementCollection (store w)))).
Proof.
  intros Hfaults Hp Hv1 Hv2 key.
  destruct (writeSensorValue_keyed env station sensor p currentTime vars v1 s1 w
              Hfaults Hp Hv1)
    as (vars1 & w1 & Hrun1 & Hold1 & Hnew1 & Hs1 & _ & Hclock1).
  destruct (writeSensorValue_keyed env station sensor p currentTime vars1 v2 s2 w1
              Hfaults Hp Hv2)
    as (vars2 & w2 & Hrun2 & Hold2 & _ & Hs2 & _ & Hclock2).
  fold key in Hold1, Hnew1, Hold2.
  assert (Hkey1 : keyOf (measurementFor station p v1 s1 currentTime (clock w)) = key)
    by reflexivity.
  assert (Hcases : keyed key (measurementCollection (store w))
                   \/ ~ keyed key (measurementCollection (store w))).
  { pose proof (find_sameKey_keyed key (measurementCollection (store w))) as Hk.
    destruct (List.find (sameKey key.1.1 key.1.2 key.2)
                (measurementCollection (store w))) as [m|].
    - left. apply Hk. eauto.
    - right. intros Hyes. apply Hk in Hyes. destruct Hyes as [m Hm]. discriminate Hm. }
  assert (Hafter1 : keyed key (measurementCollection (store w1))).
  { destruct Hcases as [Hyes | Hno].
    - destruct (Hold1 Hyes) as [-> _]. exact Hyes.
    - destruct (Hnew1 Hno) as [-> _].
      exists (measurementFor station p v1 s1 currentTime (clock w)).
      split; [|exact Hkey1]. apply elem_of_app. right. apply list_elem_of_here. }
  destruct (Hold2 Hafter1) as [Hm2 Hr2].
  exists vars1, w1, vars2, w2.
  split; [exact Hrun1|]. split; [exact Hrun2|]. split; [exact Hold1|]. split.
  { intros Hno. destruct (Hnew1 Hno) as [Hm Hr].
    exists (measurementFor station p v1 s1 currentTime (clock w)). repeat split; auto. }
  split; [exists (clock w); split; [lia | exact Hs1]|].
  split; [exact Hafter1|]. split; [exact Hm2|]. split; [exact Hr2|].
  split; [exists (clock w1); split; [lia | exact Hs2]|].
  rewrite Hm2. destruct Hcases as [Hyes | Hno].
  - destruct (Hold1 Hyes) as [-> _].
    destruct (underKey key (measurementCollection (store w))) eqn:Hu; [|simpl; lia].
    apply underKey_nil_iff in Hu. contradiction.
  - destruct (Hnew1 Hno) as [-> _]. rewrite underKey_app.
    rewrite (proj2 (underKey_nil_iff _ _) Hno). unfold underKey at 1. simpl.
    rewrite bool_decide_eq_true_2 by exact Hkey1. reflexivity.
Qed.

Lemma write_is_idempotent_witness :
  noStoreFaults Scenario.quietEnv
  /\ sensor_parameter (Scenario.sensorOf 1 1 "pm25") = Some (Scenario.paramOf 1 "pm25")
  /\ VNum 12 <> VNull /\ VStr "n/a" <> VNull
  /\ exists vars1 w1 vars2 w2,
       writeSensorValue Scenario.quietEnv (Scenario.stationAt 1) 1699999200000
         {| stationDataUpdated := false; sensorsProcessed := 0; recordsCreated := 0 |}
         (Scenario.sensorOf 1 1 "pm25") (VNum 12) false Scenario.earlierHourWorld
       = (Ok vars1, w1)
       /\ writeSensorValue Scenario.quietEnv (Scenario.stationAt 1) 1699999200000 vars1
            (Scenario.sensorOf 1 1 "pm25") (VStr "n/a") true w1
          = (Ok vars2, w2)
       /\ (meas_timestamp <$> measurementCollection (store w2))
          = [1699995600000; 1699999200000]
       /\ (meas_value <$> measurementCollection (store w2)) = [VNum 5; VNum 12]
       /\ recordsCreated vars2 = 1
       /\ (sensor_value <$> sensorCollection (store w2)) = [VStr "n/a"; VUndefined]
       /\ (sensor_isSimulated <$> sensorCollection (store w2)) = [Some true; None]
       /\ (sensor_lastUpdated <$> sensorCollection (store w2))
          = [Some 1700000123456; None].
Proof.
  assert (H1 : noStoreFaults Scenario.quietEnv) by (intros c n; reflexivity).
  assert (H2 : sensor_parameter (Scenario.sensorOf 1 1 "pm25")
               = Some (Scenario.paramOf 1 "pm25")) by reflexivity.
  assert (H3 : VNum 12 <> VNull) by discriminate.
  assert (H4 : VStr "n/a" <> VNull) by discriminate.
  split; [exact H1|]. split; [exact H2|]. split; [exact H3|]. split; [exact H4|].
  destruct (write_is_idempotent _ (Scenario.stationAt 1) _ _ 1699999200000
              {| stationDataUpdated := false; sensorsProcessed := 0; recordsCreated := 0 |}
              (VNum 12) (VStr "n/a") false true Scenario.earlierHourWorld H1 H2 H3 H4)
    as (vars1 & w1 & vars2 & w2 & Hrun1 & Hrun2 & _).
  exists vars1, w1, vars2, w2.
  split; [exact Hrun1|]. split; [exact Hrun2|].
  vm_compute in Hrun1. injection Hrun1 as <- <-.
  vm_compute in Hrun2. injection Hrun2 as <- <-.
  repeat split.
Defined.

End Idempotency.

(** ** Value resolution *)

Section ValueResolution.
Context (env : Env).
Local Open Scope Z_scope.

Lemma generateSimulatedValue_run (paramName : option string) (w : World) :
  exists q w',
    generateSimulatedValue env paramName w = (Ok q, w')
    /\ store w' = store w /\ clock w' = clock w
    /\ (randomInUnit env -> inDocumentedRange paramName q).
Proof.
  unfold generateSimulatedValue, inDocumentedRange, documentedRange.
  repeat match goal with
  | |- context [if isCase paramName ?l then _ else _] => destruct (isCase paramName l)
  end;
    cbv [bind mathRandom ret]; (eexists _, _; split; [reflexivity|]);
    (split; [reflexivity|]); (split; [reflexivity|]);
    intros Hrand; destruct (Hrand (randomIdx w)) as [Hlo Hhi]; simpl; split; lra.
Qed.

(** The resolved value is the real reading when the payload has one, and
    a synthesized number flagged as simulated otherwise. *)
Lemma resolveValue_run (sensorDataMap : gmap string Reading) (sensor : Sensor) (w : World) :
  exists v b w',
    resolveValue env sensorDataMap sensor w = (Ok (v, b), w')
    /\ store w' = store w /\ clock w' = clock w
    /\ match payloadValue sensorDataMap sensor with
       | Some real => v = real /\ b = false /\ w' = w
       | None =>
           b = true
           /\ exists q, v = VNum q
                /\ (randomInUnit env -> inDocumentedRange (paramNameOf sensor) q)
       end.
Proof.
  unfold resolveValue, payloadValue.
  destruct (sensorDataMap !! _) as [measurement|];
    [destruct (isDefined (reading_value measurement))|];
    try (exists (reading_value measurement), false, w; repeat split; reflexivity);
    destruct (generateSimulatedValue_run (paramNameOf sensor) w)
      as (q & w' & Hgen & Hstore & Hclock & Hrange);
    unfold bind; rewrite Hgen; exists (VNum q), true, w';
    (split; [reflexivity|]); eauto 8.
Qed.

(** One iteration of the sensor loop on a store that accepts its
    operations, for a sensor with a parameter. *)
Lemma processSensor_run (station : Station) (sensorDataMap : gmap string Reading)
    (currentTime : Z) (vars : LoopVars) (sensor : Sensor) (p : ParamDesc)
    (v : JsValue) (b : bool) (w0 w : World) :
  noStoreFaults env ->
  sensor_parameter sensor = Some p ->
  resolveValue env sensorDataMap sensor w = (Ok (v, b), w0) ->
  store w0 = store w -> clock w0 = clock w ->
  v <> VNull ->
  exists vars' w',
    processSensor env station sensorDataMap currentTime vars sensor w = (Ok vars', w')
    /\ sensorsProcessed vars' = sensorsProcessed vars + 1
    /\ sensorCollection (store w')
       = updateFirst (hasSensorId (sensor__id sensor)) (setSensorValue v (clock w) b)
           (sensorCollection (store w))
    /\ measurementCollection (store w')
       = match List.find (sameKey (station__id station) (param_name p) currentTime)
                 (measurementCollection (store w)) with
         | Some _ => measurementCollection (store w)
         | None =>
             (measurementCollection (store w)
              ++ [measurementFor station p v b currentTime (clock w)])%list
         end.
Proof.
  intros Hfaults Hp Hres Hstore Hclock Hv.
  unfold processSensor, bind. rewrite Hres. simpl fst. simpl snd.
  destruct (writeSensorValue_run env station sensor p currentTime vars v b w0
              Hfaults Hp Hv)
    as (vars' & w' & Hrun & Hm & Hs & _ & Hn & _).
  rewrite Hstore, Hclock in *.
  exists vars', w'. auto.
Qed.

End ValueResolution.

Section SimulatedValues.
Local Open Scope Z_scope.



End SimulatedValues.

Section SimulatedValuesWitness.
Local Open Scope Z_scope.


Lemma noStoreFaults_quietEnv : noStoreFaults Scenario.quietEnv.
Proof. intros c n. reflexivity. Qed.


End SimulatedValuesWitness.

(** ** Null readings *)

Section NullReadings.
Local Open Scope Z_scope.

(** C10, as the code has it. The resolved value of a sensor is null
    exactly when the payload files a reading with a null value under the
    sensor's key; the sensor is then skipped and nothing is written for
    it.  In every other case (a real non-null reading, or a synthesized
    number) the sensor is counted and, on a store that accepts its
    operations and for a sensor with a parameter, its cached value is
    updated and the existence-checked Measurement write is made. *)
Theorem resolved_value_is_null_only_for_null_reading
    (env : Env) (station : Station) (sensorDataMap : gmap string Reading)
    (currentTime : Z) (vars : LoopVars) (sensor : Sensor) (w : World) :
  exists v b w0,
    resolveValue env sensorDataMap sensor w = (Ok (v, b), w0)
    /\ (v = VNull <-> payloadValue sensorDataMap sensor = Some VNull)
    /\ (v = VNull ->
        processSensor env station sensorDataMap currentTime vars sensor w = (Ok vars, w))
    /\ (v <> VNull -> noStoreFaults env ->
        forall p, sensor_parameter sensor = Some p ->
        exists vars' w',
          processSensor env station sensorDataMap currentTime vars sensor w = (Ok vars', w')
          /\ sensorsProcessed vars' = sensorsProcessed vars + 1
          /\ sensorCollection (store w')
             = updateFirst (hasSensorId (sensor__id sensor)) (setSensorValue v (clock w) b)
                 (sensorCollection (store w))
          /\ measurementCollection (store w')
             = match List.find (sameKey (station__id station) (param_name p) currentTime)
                       (measurementCollection (store w)) with
               | Some _ => measurementCollection (store w)
               | None =>
                   (measurementCollection (store w)
                    ++ [measurementFor station p v b currentTime (clock w)])%list
               end).
Proof.
  destruct (resolveValue_run env sensorDataMap sensor w)
    as (v & b & w0 & Hres & Hstore & Hclock & Hcases).
  exists v, b, w0. split; [exact Hres|]. split; [|split].
  - destruct (payloadValue sensorDataMap sensor) as [real|].
    + destruct Hcases as (-> & _). split; congruence.
    + destruct Hcases as (_ & q & -> & _). split; discriminate.
  - intros ->. unfold processSensor, bind. rewrite Hres.
    destruct (payloadValue sensorDataMap sensor) as [real|].
    + destruct Hcases as (_ & _ & ->). reflexivity.
    + destruct Hcases as (_ & q & Hq & _). discriminate.
  - intros Hv Hfaults p Hp.
    exact (processSensor_run env station sensorDataMap currentTime vars sensor p
             v b w0 w Hfaults Hp Hres Hstore Hclock Hv).
Qed.

Lemma null_reading_witness :
  noStoreFaults Scenario.quietEnv
  /\ exists v b w0,
       resolveValue Scenario.quietEnv
         (buildSensorDataMap [Scenario.reading 1001 (VNum 9)])
         (Scenario.sensorOf 1 1 "pm25") Scenario.oneSensorWorld = (Ok (v, b), w0)
       /\ v <> VNull
       /\ exists vars' w',
            processSensor Scenario.quietEnv (Scenario.stationAt 1)
              (buildSensorDataMap [Scenario.reading 1001 (VNum 9)]) 1699999200000
              {| stationDataUpdated := false; sensorsProcessed := 0; recordsCreated := 0 |}
              (Scenario.sensorOf 1 1 "pm25") Scenario.oneSensorWorld = (Ok vars', w')
            /\ sensorsProcessed vars' = 1
            /\ (sensor_value <$> sensorCollection (store w')) = [v].
Proof.
  split; [exact noStoreFaults_quietEnv|].
  destruct (resolved_value_is_null_only_for_null_reading Scenario.quietEnv
              (Scenario.stationAt 1)
              (buildSensorDataMap [Scenario.reading 1001 (VNum 9)]) 1699999200000
              {| stationDataUpdated := false; sensorsProcessed := 0; recordsCreated := 0 |}
              (Scenario.sensorOf 1 1 "pm25") Scenario.oneSensorWorld)
    as (v & b & w0 & Hres & Hnull & _ & Hwrite).
  assert (Hv : v <> VNull).
  { intros Hn. apply Hnull in Hn. vm_compute in Hn. discriminate. }
  exists v, b, w0. split; [exact Hres|]. split; [exact Hv|].
  destruct (Hwrite Hv noStoreFaults_quietEnv _ eq_refl)
    as (vars' & w' & Hrun & Hn & Hs & _).
  exists vars', w'. split; [exact Hrun|]. split; [exact Hn|].
  rewrite Hs. reflexivity.
Defined.

(** C10, as stated, fails: the site passes the three guards (it has an
    id, the payload has one reading, the site has one sensor), the one
    reading carries a null value for the sensor, the resolved value is
    null, and the run returns [no_new_data] having processed no sensor:
    the sensor keeps its old cached value and no Measurement is
    written. *)
Lemma null_reading_skips_the_sensor :
  resolveValue Scenario.nullReadingEnv
    (buildSensorDataMap [Scenario.reading 1001 VNull])
    (Scenario.sensorOf 1 1 "pm25") Scenario.oneSensorWorld
  = (Ok (VNull, false), Scenario.oneSensorWorld)
  /\ exists w',
       processStation Scenario.nullReadingEnv (Scenario.stationAt 1) 1699999200000
         Scenario.oneSensorWorld
       = (Ok {| out_success := false; out_reason := R_no_new_data; out_error := None;
                out_sensorsProcessed := Some 0; out_recordsCreated := Some 0 |}, w')
       /\ sensorCollection (store w') = [Scenario.sensorOf 1 1 "pm25"]
       /\ measurementCollection (store w') = [].
Proof.
  split; [vm_compute; reflexivity|].
  eexists. split; [vm_compute; reflexivity|]. split; reflexivity.
Qed.

End NullReadings.

(** * Further properties of the code *)

(** ** The aligned hour and the instant it comes from *)

Section HourBounds.
Local Open Scope Z_scope.

(** The aligned timestamp is the start of the hour the instant lies in:
    never later than the instant, less than an hour before it, and
    alignment keeps the order of instants. *)
Theorem alignToHour_bounds_and_order (tza t1 t2 : Z) :
  t1 <= t2 ->
  alignToHour tza t1 <= t1 < alignToHour tza t1 + msPerHour
  /\ alignToHour tza t1 <= alignToHour tza t2.
Proof.
  intros Hle. rewrite !alignToHour_floor. unfold hourIndex, msPerHour.
  pose proof (Z.div_mod (t1 + tza) 3600000 ltac:(lia)) as Hdm.
  pose proof (Z.mod_pos_bound (t1 + tza) 3600000 ltac:(lia)) as Hb.
  pose proof (Z.div_le_mono (t1 + tza) (t2 + tza) 3600000 ltac:(lia) ltac:(lia)) as Hm.
  lia.
Qed.

Lemma alignToHour_bounds_witness :
  1700000123456 <= 1700009999999
  /\ alignToHour 0 1700000123456 <= 1700000123456
       < alignToHour 0 1700000123456 + msPerHour
  /\ alignToHour 0 1700000123456 <= alignToHour 0 1700009999999.
Proof.
  assert (H : 1700000123456 <= 1700009999999) by lia.
  split; [exact H|].
  exact (alignToHour_bounds_and_order 0 1700000123456 1700009999999 H).
Defined.

End HourBounds.

(** ** The paging summary and the pages *)

Section PagingSummary.
Local Open Scope Z_scope.

(** For an offset within the population and a window of at least one
    site, the summary accounts for every site (offset, processed and
    remaining add up to the total, at most a window is processed), and
    the offset recorded for the next run is a valid start index that is 0
    exactly when the run completes the population. *)
Theorem paging_summary_is_consistent
    (allLaStations : list Station) (offset maxPerRun : Z) :
  0 <= offset < Z.of_nat (length allLaStations) ->
  1 <= maxPerRun ->
  let p := pagingOf allLaStations offset maxPerRun in
  let next := nextOffsetOf (totalStations p)
                (endOffsetOf (totalStations p) offset maxPerRun) in
  processedOffset p + processedCount p + remainingStations p = totalStations p
  /\ 1 <= processedCount p <= maxPerRun
  /\ 0 <= remainingStations p
  /\ 0 <= next < totalStations p
  /\ (next = 0 <-> isComplete p = true)
  /\ (next <> 0 -> next = offset + maxPerRun).
Proof.
  intros Ho Hw p next. subst p next. unfold pagingOf. cbn [totalStations
    processedOffset processedCount remainingStations isComplete].
  rewrite pageOf_length by lia.
  unfold nextOffsetOf, endOffsetOf.
  destruct (Z.geb_spec (Z.min (offset + maxPerRun) (Z.of_nat (length allLaStations)))
              (Z.of_nat (length allLaStations))) as [Hge | Hlt].
  - repeat split; intros; try lia; try congruence.
  - repeat split; intros; try lia; try congruence.
Qed.

Lemma paging_summary_witness :
  0 <= 50 < Z.of_nat (length (Scenario.stationsUpTo 130))
  /\ 1 <= 50
  /\ processedOffset (pagingOf (Scenario.stationsUpTo 130) 50 50)
     + processedCount (pagingOf (Scenario.stationsUpTo 130) 50 50)
     + remainingStations (pagingOf (Scenario.stationsUpTo 130) 50 50)
     = totalStations (pagingOf (Scenario.stationsUpTo 130) 50 50).
Proof.
  assert (H1 : 0 <= 50 < Z.of_nat (length (Scenario.stationsUpTo 130)))
    by (vm_compute; split; [discriminate | reflexivity]).
  assert (H2 : 1 <= 50) by lia.
  split; [exact H1|]. split; [exact H2|].
  exact (proj1 (paging_summary_is_consistent (Scenario.stationsUpTo 130) 50 50 H1 H2)).
Defined.

End PagingSummary.

(** ** The batches of a page *)

Section Batches.
Local Open Scope Z_scope.

(** Between non-negative indices in order, [slice] is a [take] of a
    [drop]: the clamping of the indices is that of the list functions. *)
Lemma slice_take_drop {A : Type} (l : list A) (start final : Z) :
  0 <= start <= final ->
  slice l start final = take (Z.to_nat (final - start)) (drop (Z.to_nat start) l).
Proof.
  intros H. apply list_eq. intros i.
  rewrite slice_lookup by lia.
  destruct (Z.ltb_spec (start + Z.of_nat i) final) as [Hlt | Hge].
  - rewrite lookup_take_lt by lia. rewrite lookup_drop. reflexivity.
  - symmetry. apply lookup_take_ge. lia.
Qed.

Lemma batches_prefix {A : Type} (l : list A) (k : nat) :
  concat ((fun i => slice l i (i + batchSize))
            <$> ((fun j => j * batchSize) <$> seqZ 0 (Z.of_nat k)))
  = take (3 * k) l.
Proof.
  induction k as [|k IH].
  - reflexivity.
  - rewrite seqZ_S, !fmap_app, concat_app, IH. simpl concat. rewrite app_nil_r.
    unfold batchSize. rewrite slice_take_drop by lia.
    replace (Z.to_nat ((0 + Z.of_nat k) * 3 + 3 - (0 + Z.of_nat k) * 3)) with 3%nat by lia.
    replace (Z.to_nat ((0 + Z.of_nat k) * 3)) with (3 * k)%nat by lia.
    rewrite take_take_drop. f_equal. lia.
Qed.

(** The batch loop cuts the page into consecutive batches of one to
    three stations: put end to end the batches are the page, so every
    station of the page is in exactly one batch, and there are
    [ceil(n / 3)] of them. *)
Theorem batches_partition_the_page (laStations : list Station) :
  concat ((fun i => slice laStations i (i + batchSize))
            <$> forRange (Z.of_nat (length laStations)) batchSize)
  = laStations
  /\ Forall (fun batch => (1 <= length batch <= 3)%nat)
       ((fun i => slice laStations i (i + batchSize))
          <$> forRange (Z.of_nat (length laStations)) batchSize)
  /\ Z.of_nat (length (forRange (Z.of_nat (length laStations)) batchSize))
     = ceilDiv (Z.of_nat (length laStations)) batchSize.
Proof.
  pose proof (ceilDiv_spec (Z.of_nat (length laStations)) batchSize ltac:(reflexivity))
    as Hn.
  unfold batchSize in Hn.
  split; [|split].
  - unfold forRange.
    rewrite <- (Z2Nat.id (ceilDiv (Z.of_nat (length laStations)) batchSize))
      by (unfold batchSize; lia).
    rewrite batches_prefix. apply take_ge. unfold batchSize. lia.
  - apply Forall_fmap, Forall_forall. intros i Hi.
    apply elem_of_forRange in Hi; [|reflexivity]. destruct Hi as [Hi _].
    simpl. unfold batchSize. rewrite slice_take_drop by lia.
    rewrite length_take, length_drop. lia.
  - unfold forRange. rewrite length_fmap, length_seqZ. unfold batchSize. lia.
Qed.

End Batches.

(** ** The retrying fetch with any number of attempts *)

Section FetchBudget.
Context (env : Env).
Local Open Scope Z_scope.

(** An attempt changes the clock by its pause, counts one request, and
    touches nothing else but the trace. *)
Lemma fetchAttempt_world (url : string) (attempt : Z) (w : World) :
  exists r w',
    fetchAttempt env url attempt w = (r, w')
    /\ clock w' = clock w + (if attempt >? 0 then delayMs attempt else 0)
    /\ fetchCount w' = S (fetchCount w)
    /\ noStoreAccess w w'
    /\ forall e, r = Throw e -> exists msg, e = ThrownError msg.
Proof.
  unfold fetchAttempt, noStoreAccess.
  cbv [bind fetch responseJson resp_ok resp_status resp_json resp_text ret throw sleep].
  destruct (attempt >? 0);
    destruct (network env url _) as [msg | status text [body|]]; simpl;
    try destruct ((200 <=? status) && (status <=? 299)); simpl;
    eexists _, _; (split; [reflexivity|]); simpl;
    repeat split; try lia;
    intros e He; first [discriminate He | injection He as <-; eauto].
Qed.

Lemma fetchLoop_world (url : string) :
  forall (remaining : nat) (attempt : Z) (msg : string) (w : World),
  1 <= attempt ->
  exists (k : nat) r w',
    fetchLoop env url remaining attempt (ThrownError msg) w = (r, w')
    /\ (k <= remaining)%nat
    /\ fetchCount w' = (fetchCount w + k)%nat
    /\ clock w' = clock w + 2000 * (2 ^ (attempt + Z.of_nat k) - 2 ^ attempt)
    /\ noStoreAccess w w'
    /\ forall e, r = Throw e -> k = remaining /\ exists m, e = ThrownError m.
Proof.
  induction remaining as [|n IH]; intros attempt msg w Ha.
  - exists O, (Throw (ThrownError msg)), w. simpl.
    rewrite Z.add_0_r, Z.sub_diag, Nat.add_0_r. unfold noStoreAccess.
    split; [reflexivity|]. split; [lia|]. split; [lia|]. split; [lia|].
    split; [split; reflexivity|].
    intros e' He. injection He as <-. eauto.
  - simpl fetchLoop. unfold tryCatch.
    destruct (fetchAttempt_world url attempt w)
      as (r1 & w1 & Hrun & Hclock & Hcount & [Hstore Hops] & Herr).
    rewrite Hrun.
    assert (Hpause : clock w1 = clock w + 2000 * 2 ^ attempt).
    { rewrite Hclock. destruct (Z.gtb_spec attempt 0); [reflexivity | lia]. }
    assert (Hpow : 2 ^ (attempt + 1) = 2 * 2 ^ attempt)
      by (rewrite Z.pow_add_r by lia; lia).
    destruct r1 as [body | e].
    + exists 1%nat, (Ok body), w1. split; [reflexivity|].
      unfold noStoreAccess. change (Z.of_nat 1) with 1.
      split; [lia|]. split; [lia|]. split; [lia|]. split; [split; assumption|].
      intros e' He. discriminate.
    + destruct (Herr e eq_refl) as [m ->]. cbv [bind messageOf ret].
      destruct (IH (attempt + 1) m w1 ltac:(lia))
        as (k & r & w' & Hloop & Hk & Hc & Hcl & [Hs Ho] & Hthrow).
      exists (S k), r, w'. split; [exact Hloop|].
      replace (attempt + Z.of_nat (S k)) with (attempt + 1 + Z.of_nat k) by lia.
      unfold noStoreAccess.
      split; [lia|]. split; [lia|]. split; [lia|]. split; [split; congruence|].
      intros e' He. destruct (Hthrow e' He) as [-> Hm]. split; [reflexivity | exact Hm].
Qed.

(** For every number of allowed attempts [n], the retrying fetch sends
    [k <= n] requests, all [n] of them when it raises, pauses
    [2000 * (2^k - 2)] milliseconds in total (12 s at most with the
    default of three), issues no store operation, and with [n = 0] raises
    the undefined initial error without sending anything. *)
Theorem fetchWithRetry_budget (url : string) (maxRetries : nat) (w : World) :
  exists (k : nat) r w',
    fetchWithRetry env url maxRetries w = (r, w')
    /\ (k <= maxRetries)%nat
    /\ fetchCount w' = (fetchCount w + k)%nat
    /\ clock w' = clock w
                 + match k with
                   | O => 0
                   | S _ => 2000 * (2 ^ Z.of_nat k - 2)
                   end
    /\ noStoreAccess w w'
    /\ (forall e, r = Throw e -> k = maxRetries)
    /\ (maxRetries = O -> r = Throw ThrownUndefined /\ w' = w)
    /\ (maxRetries = 3%nat -> clock w' <= clock w + 12000).
Proof.
  unfold fetchWithRetry. destruct maxRetries as [|n].
  - exists O, (Throw ThrownUndefined), w. simpl. unfold noStoreAccess.
    rewrite Z.add_0_r, Nat.add_0_r.
    split; [reflexivity|]. split; [lia|]. split; [reflexivity|].
    split; [reflexivity|]. split; [split; reflexivity|].
    split; [reflexivity|]. split; [auto | discriminate].
  - simpl fetchLoop. unfold tryCatch.
    destruct (fetchAttempt_world url 0 w)
      as (r1 & w1 & Hrun & Hclock & Hcount & [Hstore Hops] & Herr).
    rewrite Hrun. simpl in Hclock.
    destruct r1 as [body | e].
    + exists 1%nat, (Ok body), w1. split; [reflexivity|].
      unfold noStoreAccess. simpl.
      split; [lia|]. split; [lia|]. split; [lia|]. split; [split; assumption|].
      split; [discriminate|]. split; [discriminate | lia].
    + destruct (Herr e eq_refl) as [m ->]. cbv [bind messageOf ret].
      destruct (fetchLoop_world url n 1 m w1 ltac:(lia))
        as (k & r & w' & Hloop & Hk & Hc & Hcl & [Hs Ho] & Hthrow).
      exists (S k), r, w'. split; [exact Hloop|].
      assert (Hpow : 2 ^ Z.of_nat (S k) = 2 ^ (1 + Z.of_nat k))
        by (f_equal; lia).
      unfold noStoreAccess.
      split; [lia|]. split; [lia|]. split; [lia|]. split; [split; congruence|].
      split; [|split].
      * intros e' He. destruct (Hthrow e' He) as [-> _]. reflexivity.
      * discriminate.
      * intros Hn. injection Hn as ->. rewrite Hcl, Hclock.
        assert (Hk3 : (k = 0 \/ k = 1 \/ k = 2 \/ k = 3)%nat) by lia.
        destruct Hk3 as [-> | [-> | [-> | ->]]]; simpl; lia.
Qed.

End FetchBudget.

(** ** Relations every run respects *)

Section Respects.
Context {R : World -> World -> Prop} `{!PreOrder R}.

Lemma respects_ret {A : Type} (a : A) : respects R (ret a).
Proof. intros w r w' H. injection H as _ <-. reflexivity. Qed.

Lemma respects_throw {A : Type} (e : Thrown) : respects R (@throw A e).
Proof. intros w r w' H. injection H as _ <-. reflexivity. Qed.

Lemma respects_messageOf (e : Thrown) : respects R (messageOf e).
Proof. destruct e; [apply respects_ret | apply respects_throw]. Qed.

Lemma respects_bind {A B : Type} (m : M A) (k : A -> M B) :
  respects R m -> (forall a, respects R (k a)) -> respects R (bind m k).
Proof.
  intros Hm Hk w r w' H. unfold bind in H.
  destruct (m w) as [[a | e] w1] eqn:Em.
  - transitivity w1; [eapply Hm, Em | eapply Hk, H].
  - injection H as _ <-. eapply Hm, Em.
Qed.

Lemma respects_tryCatch {A : Type} (body : M A) (handler : Thrown -> M A) :
  respects R body -> (forall e, respects R (handler e)) ->
  respects R (tryCatch body handler).
Proof.
  intros Hb Hh w r w' H. unfold tryCatch in H.
  destruct (body w) as [[a | e] w1] eqn:Eb.
  - injection H as _ <-. eapply Hb, Eb.
  - transitivity w1; [eapply Hb, Eb | eapply Hh, H].
Qed.

Lemma respects_forOf {A S : Type} (body : S -> A -> M S) (l : list A) :
  (forall s x, respects R (body s x)) -> forall s, respects R (forOf body l s).
Proof.
  intros Hb. induction l as [|x l IH]; intros s; simpl.
  - apply respects_ret.
  - apply respects_bind; [apply Hb | apply IH].
Qed.

End Respects.

Lemma respects_impl {A : Type} (R1 R2 : World -> World -> Prop) (m : M A) :
  (forall w w', R1 w w' -> R2 w w') -> respects R1 m -> respects R2 m.
Proof. intros Himpl H w r w' Hrun. eapply Himpl, H, Hrun. Qed.

Section Relations.

#[local] Instance sameStore_preorder : PreOrder sameStore.
Proof.
  split; [intros w; reflexivity|].
  intros a b c H1 H2. unfold sameStore in *. congruence.
Qed.

#[local] Instance noStoreAccess_preorder : PreOrder noStoreAccess.
Proof.
  split; [intros w; split; reflexivity|].
  intros a b c [H1 H1'] [H2 H2']. split; congruence.
Qed.

#[local] Instance keepsStationsAndProgress_preorder : PreOrder keepsStationsAndProgress.
Proof.
  split; [intros w; split; reflexivity|].
  intros a b c [H1 H1'] [H2 H2']. split; congruence.
Qed.

Lemma grows_refl (P : Measurement -> Prop) (s : Store) : grows P s s.
Proof.
  split; [|split; [|split]]; auto.
  exists []. rewrite app_nil_r. split; [reflexivity | constructor].
Qed.

Lemma grows_trans (P : Measurement -> Prop) (s1 s2 s3 : Store) :
  grows P s1 s2 -> grows P s2 s3 -> grows P s1 s3.
Proof.
  intros ((a1 & Hm1 & Hp1) & Hu1 & Hs1 & Ht1) ((a2 & Hm2 & Hp2) & Hu2 & Hs2 & Ht2).
  split; [|split; [|split]]; try congruence; auto.
  exists (a1 ++ a2)%list. split.
  - rewrite Hm2, Hm1, app_assoc. reflexivity.
  - apply Forall_app. split; assumption.
Qed.

Lemma grows_impl (P Q : Measurement -> Prop) (s s' : Store) :
  (forall m, P m -> Q m) -> grows P s s' -> grows Q s s'.
Proof.
  intros Himpl ((a & Hm & Hp) & Hrest). split; [|exact Hrest].
  exists a. split; [exact Hm|]. eapply Forall_impl; eauto.
Qed.

#[local] Instance growsBy_preorder (P : Measurement -> Prop) : PreOrder (growsBy P).
Proof.
  split; [intros w; apply grows_refl|].
  intros a b c. apply grows_trans.
Qed.

Lemma sameStore_growsBy (P : Measurement -> Prop) (w w' : World) :
  sameStore w w' -> growsBy P w w'.
Proof. intros H. unfold growsBy. rewrite H. apply grows_refl. Qed.

Lemma sameStore_keeps (w w' : World) : sameStore w w' -> keepsStationsAndProgress w w'.
Proof. intros H. unfold keepsStationsAndProgress. rewrite H. auto. Qed.

Lemma noStoreAccess_sameStore (w w' : World) : noStoreAccess w w' -> sameStore w w'.
Proof. intros [H _]. exact H. Qed.

End Relations.

#[local] Existing Instances sameStore_preorder noStoreAccess_preorder
  keepsStationsAndProgress_preorder growsBy_preorder.

Section Leaves.
Context (env : Env).

Lemma newDate_noStoreAccess : respects noStoreAccess newDate.
Proof. intros w r w' H. injection H as _ <-. split; reflexivity. Qed.

Lemma sleep_noStoreAccess (ms : Z) : respects noStoreAccess (sleep ms).
Proof. intros w r w' H. injection H as _ <-. split; reflexivity. Qed.

Lemma mathRandom_noStoreAccess : respects noStoreAccess (mathRandom env).
Proof. intros w r w' H. injection H as _ <-. split; reflexivity. Qed.

Lemma readStore_noStoreAccess : respects noStoreAccess readStore.
Proof. intros w r w' H. injection H as _ <-. split; reflexivity. Qed.

Lemma fetch_noStoreAccess (url : string) : respects noStoreAccess (fetch env url).
Proof.
  intros w r w' H. unfold fetch in H.
  destruct (network env url (fetchCount w)); injection H as _ <-; split; reflexivity.
Qed.

Lemma storeCall_sameStore (c : Collection) : respects sameStore (storeCall env c).
Proof.
  intros w r w' H. unfold storeCall in H.
  destruct (storeFault env c (storeOps w)); injection H as _ <-; reflexivity.
Qed.

End Leaves.

Create HintDb noaccess.

#[local] Hint Resolve newDate_noStoreAccess sleep_noStoreAccess mathRandom_noStoreAccess
  readStore_noStoreAccess fetch_noStoreAccess : noaccess.

(** Decompose a computation along its structure; [leaf] closes the
    primitive operations. *)
Ltac respects_with leaf :=
  repeat first
    [ apply respects_ret
    | apply respects_throw
    | apply respects_messageOf
    | leaf
    | apply respects_bind; [|intros ?]
    | apply respects_tryCatch; [|intros ?]
    | apply respects_forOf; intros ? ?
    | match goal with
      | |- respects _ (if ?b then _ else _) => destruct b
      | |- respects _ (match ?x with _ => _ end) => destruct x
      end ].

Ltac noaccess_leaf := solve [auto with noaccess].

Section NoStoreAccess.
Context (env : Env).

Lemma fetchLoop_noStoreAccess (url : string) (remaining : nat) :
  forall attempt lastError,
    respects noStoreAccess (fetchLoop env url remaining attempt lastError).
Proof.
  induction remaining as [|n IH]; intros attempt lastError; simpl.
  - apply respects_throw.
  - unfold fetchAttempt, responseJson.
    respects_with ltac:(first [noaccess_leaf | apply IH]).
Qed.

Lemma getLatestMeasurements_noStoreAccess (locationId : JsId) :
  respects noStoreAccess (getLatestMeasurements env locationId).
Proof.
  pose proof fetchLoop_noStoreAccess.
  unfold getLatestMeasurements, fetchWithRetry.
  respects_with ltac:(first [noaccess_leaf | solve [auto]]).
Qed.

Lemma generateSimulatedValue_noStoreAccess (paramName : option string) :
  respects noStoreAccess (generateSimulatedValue env paramName).
Proof. unfold generateSimulatedValue. respects_with noaccess_leaf. Qed.

Lemma resolveValue_noStoreAccess (sensorDataMap : gmap string Reading) (sensor : Sensor) :
  respects noStoreAccess (resolveValue env sensorDataMap sensor).
Proof.
  pose proof generateSimulatedValue_noStoreAccess.
  unfold resolveValue. respects_with ltac:(first [noaccess_leaf | solve [auto]]).
Qed.

End NoStoreAccess.

(** ** [getLatestMeasurements] *)

Section LatestMeasurements.
Context (env : Env).

(** [getLatestMeasurements] never raises and issues no store operation.
    It sends one to three requests and returns the result list of the
    first attempt that succeeds, the empty list when that body is null or
    has no result list, and the empty list when all three attempts fail:
    a failed fetch and an empty answer look the same to the caller. *)
Theorem getLatestMeasurements_never_raises (locationId : JsId) (w : World) :
  exists readings w',
    getLatestMeasurements env locationId w = (Ok readings, w')
    /\ noStoreAccess w w'
    /\ (fetchCount w < fetchCount w' <= fetchCount w + 3)%nat
    /\ (forall (j : nat) body,
          (j < 3)%nat ->
          attemptResult (network env (latestUrl locationId) (fetchCount w + j)) = inl body ->
          (forall i, (i < j)%nat ->
             attemptFails (network env (latestUrl locationId) (fetchCount w + i))) ->
          readings = readingsOf body /\ fetchCount w' = (fetchCount w + S j)%nat)
    /\ ((forall i, (i < 3)%nat ->
           attemptFails (network env (latestUrl locationId) (fetchCount w + i))) ->
        readings = [] /\ fetchCount w' = (fetchCount w + 3)%nat).
Proof.
  destruct (getLatestMeasurements env locationId w) as [r w'] eqn:Hrun.
  pose proof (getLatestMeasurements_noStoreAccess env locationId w r w' Hrun) as Hna.
  revert Hrun. unfold getLatestMeasurements, fetchWithRetry, defaultMaxRetries, tryCatch.
  destruct (fetchLoop_run env (latestUrl locationId) 3 0%Z ThrownUndefined w)
    as (k & r1 & w1 & Hloop & Hk & Hc & _ & _ & Hr).
  unfold bind. rewrite Hloop.
  destruct r1 as [body | e].
  - destruct Hr as (j & -> & Hok & Hfail). intros Hrun.
    assert (Hres : r = Ok (readingsOf body) /\ w' = w1).
    { destruct body as [|[results|]]; simpl in Hrun; injection Hrun as <- <-; auto. }
    destruct Hres as [-> ->].
    exists (readingsOf body), w1. split; [reflexivity|]. split; [exact Hna|].
    split; [lia|]. split.
    + intros j' body' Hj' Hok' Hbefore.
      destruct (Nat.lt_trichotomy j j') as [Hlt | [-> | Hgt]].
      * destruct (attemptFails_not_inl _ _ (Hbefore j Hlt) Hok).
      * rewrite Hok in Hok'. injection Hok' as <-. auto.
      * destruct (attemptFails_not_inl _ _ (Hfail j' Hgt) Hok').
    + intros Hall. destruct (attemptFails_not_inl _ _ (Hall j ltac:(lia)) Hok).
  - destruct Hr as (-> & Hfail & msg & _ & ->). simpl. intros Hrun.
    injection Hrun as <- <-.
    exists [], w1. split; [reflexivity|]. split; [exact Hna|]. split; [lia|]. split.
    + intros j body Hj Hok _. destruct (attemptFails_not_inl _ _ (Hfail j Hj) Hok).
    + intros _. auto.
Qed.

End LatestMeasurements.

(** ** What a run does to the store *)

Section StoreSteps.
Local Open Scope Z_scope.

Lemma uniqueKeys_snoc (ms : list Measurement) (m : Measurement) :
  uniqueKeys ms -> keyOf m ∉ keyOf <$> ms -> uniqueKeys (ms ++ [m]).
Proof.
  unfold uniqueKeys. intros Hu Hfresh. rewrite fmap_app. apply NoDup_app.
  split; [exact Hu|]. split; [|apply NoDup_singleton].
  intros k Hk Hin. apply list_elem_of_singleton in Hin. subst k. contradiction.
Qed.

Lemma sensorIdentity_updateFirst (p : Sensor -> bool) (value : JsValue) (t : Z)
    (flag : bool) (l : list Sensor) :
  sensorIdentity <$> updateFirst p (setSensorValue value t flag) l = sensorIdentity <$> l.
Proof.
  induction l as [|s l IH]; [reflexivity|]. cbn [updateFirst].
  destruct (p s); rewrite !fmap_cons; [reflexivity | rewrite IH; reflexivity].
Qed.

Lemma stationIdentity_updateFirst (p : Station -> bool) (t : Z) (l : list Station) :
  stationIdentity <$> updateFirst p (setLastDataUpdate t) l = stationIdentity <$> l.
Proof.
  induction l as [|s l IH]; [reflexivity|]. cbn [updateFirst].
  destruct (p s); rewrite !fmap_cons; [reflexivity | rewrite IH; reflexivity].
Qed.

Lemma grows_insert (P : Measurement -> Prop) (s : Store) (doc : Measurement) :
  P doc ->
  keyOf doc ∉ keyOf <$> measurementCollection s ->
  grows P s (setMeasurements (measurementCollection s ++ [doc]) s).
Proof.
  intros HP Hfresh. split; [|split; [|split]]; simpl; auto.
  - exists [doc]. split; [reflexivity | repeat constructor; exact HP].
  - intros Hu. apply uniqueKeys_snoc; assumption.
Qed.

Lemma grows_setSensors (P : Measurement -> Prop) (s : Store) (p : Sensor -> bool)
    (value : JsValue) (t : Z) (flag : bool) (l : list Sensor) :
  sensorIdentity <$> l = sensorIdentity <$> sensorCollection s ->
  grows P s (setSensors (updateFirst p (setSensorValue value t flag) l) s).
Proof.
  intros Hl. split; [|split; [|split]]; simpl; auto.
  - exists []. rewrite app_nil_r. split; [reflexivity | constructor].
  - rewrite sensorIdentity_updateFirst. exact Hl.
Qed.

Lemma grows_setStations (P : Measurement -> Prop) (s : Store) (p : Station -> bool) (t : Z) :
  grows P s (setStations (updateFirst p (setLastDataUpdate t) (stationCollection s)) s).
Proof.
  split; [|split; [|split]]; simpl; auto.
  - exists []. rewrite app_nil_r. split; [reflexivity | constructor].
  - apply stationIdentity_updateFirst.
Qed.

Lemma grows_setProgress (P : Measurement -> Prop) (s : Store) (p : option Progress) :
  grows P s (setProgress p s).
Proof.
  split; [|split; [|split]]; simpl; auto.
  exists []. rewrite app_nil_r. split; [reflexivity | constructor].
Qed.

End StoreSteps.

Section StoreOperations.
Context (env : Env).

Lemma findSensors_sameStore (stationId : ObjectId) :
  respects sameStore (findSensors env stationId).
Proof.
  pose proof (storeCall_sameStore env).
  assert (respects sameStore readStore)
    by (eapply respects_impl; [apply noStoreAccess_sameStore | apply readStore_noStoreAccess]).
  unfold findSensors. respects_with ltac:(solve [auto]).
Qed.

Lemma updateOneSensor_growsBy (P : Measurement -> Prop) id value t flag :
  respects (growsBy P) (updateOneSensor env id value t flag).
Proof.
  intros w r w' H. unfold updateOneSensor, bind, storeCall, writeStore in H.
  destruct (storeFault env Sensors (storeOps w)); injection H as _ <-.
  - apply grows_refl.
  - apply grows_setSensors. reflexivity.
Qed.

Lemma updateOneStation_growsBy (P : Measurement -> Prop) id t :
  respects (growsBy P) (updateOneStation env id t).
Proof.
  intros w r w' H. unfold updateOneStation, bind, storeCall, writeStore in H.
  destruct (storeFault env Stations (storeOps w)); injection H as _ <-.
  - apply grows_refl.
  - apply grows_setStations.
Qed.

Lemma upsertProgress_growsBy (P : Measurement -> Prop) p :
  respects (growsBy P) (upsertProgress env p).
Proof.
  intros w r w' H. unfold upsertProgress, bind, storeCall, writeStore in H.
  destruct (storeFault env ProgressRecords (storeOps w)); injection H as _ <-.
  - apply grows_refl.
  - apply grows_setProgress.
Qed.

End StoreOperations.

Section WriterEffect.
Context (env : Env).
Local Open Scope Z_scope.

(** What one write does to the store and to the loop's counters, for any
    behaviour of the store. *)
Lemma writeSensorValue_effect (station : Station) (currentTime : Z) (vars : LoopVars)
    (sensor : Sensor) (value : JsValue) (isSimulated : bool) (w : World) :
  value <> VUndefined ->
  (isSimulated = true -> exists q, value = VNum q) ->
  forall r w',
    writeSensorValue env station currentTime vars sensor value isSimulated w = (r, w') ->
    growsBy (stampedFor (station__id station) currentTime) w w'
    /\ keepsStationsAndProgress w w'
    /\ forall vars', r = Ok vars' ->
         exists added,
           measurementCollection (store w')
           = (measurementCollection (store w) ++ added)%list
           /\ recordsCreated vars' = recordsCreated vars + Z.of_nat (length added)
           /\ sensorsProcessed vars <= sensorsProcessed vars' <= sensorsProcessed vars + 1
           /\ Z.of_nat (length added) <= sensorsProcessed vars' - sensorsProcessed vars
           /\ stationDataUpdated vars'
              = stationDataUpdated vars || negb (length added =? 0)%nat.
Proof.
  intros Hdef Hsim r w' H. unfold writeSensorValue, parameterOf in H.
  assert (Hnull : value = VNull \/ value <> VNull)
    by (destruct value; first [left; reflexivity | right; discriminate]).
  destruct Hnull as [-> | Hnn].
  { injection H as <- <-. split; [reflexivity|]. split; [reflexivity|].
    intros vars' Hv. injection Hv as <-. exists []. rewrite app_nil_r.
    simpl. rewrite orb_false_r. repeat split; lia. }
  assert (Hmatch : forall (A : Type) (a b : A),
            match value with VNull => a | _ => b end = b)
    by (intros A a b; destruct value; try reflexivity; contradiction).
  rewrite Hmatch in H.
  destruct (sensor_parameter sensor) as [p|].
  2:{ injection H as <- <-. split; [reflexivity|]. split; [reflexivity|].
      intros vars' Hv. discriminate. }
  cbv [bind ret throw findOneMeasurement insertOneMeasurement updateOneSensor
       storeCall readStore writeStore newDate setStore] in H.
  cbn [store clock randomIdx fetchCount storeOps trace] in H.
  destruct (storeFault env Measurements (storeOps w)) as [m1|].
  { injection H as <- <-. split; [apply grows_refl|]. split; [split; reflexivity|].
    intros vars' Hv. discriminate. }
  cbn [store clock randomIdx fetchCount storeOps trace] in H.
  destruct (List.find _ (measurementCollection (store w))) as [existing|] eqn:Hfind;
    cbn [store clock randomIdx fetchCount storeOps trace] in H.
  + destruct (storeFault env Sensors (S (storeOps w))) as [m2|];
      cbn [store clock randomIdx fetchCount storeOps trace] in H;
      injection H as <- <-.
    * split; [apply grows_refl|]. split; [split; reflexivity|].
      intros vars' Hv. discriminate.
    * split; [apply grows_setSensors; reflexivity|]. split; [split; reflexivity|].
      intros vars' Hv. injection Hv as <-. exists []. rewrite app_nil_r.
      simpl. rewrite orb_false_r. repeat split; lia.
  + assert (Hgrow : grows (stampedFor (station__id station) currentTime) (store w)
              (setMeasurements
                 (measurementCollection (store w)
                  ++ [measurementFor station p value isSimulated currentTime (clock w)])
                 (store w))).
    { apply grows_insert.
      - unfold stampedFor, stampedAt. cbn. repeat split; assumption.
      - apply find_none_key_fresh. exact Hfind. }
    unfold measurementFor in Hgrow.
    destruct (storeFault env Measurements (S (storeOps w))) as [m2|];
      cbn [store clock randomIdx fetchCount storeOps trace] in H.
    { injection H as <- <-. split; [apply grows_refl|]. split; [split; reflexivity|].
      intros vars' Hv. discriminate. }
    destruct (storeFault env Sensors (S (S (storeOps w)))) as [m3|];
      cbn [store clock randomIdx fetchCount storeOps trace] in H;
      injection H as <- <-.
    * split; [unfold growsBy; cbn [store]; exact Hgrow|].
      split; [split; reflexivity|].
      intros vars' Hv. discriminate.
    * split; [|split; [split; reflexivity|]].
      -- unfold growsBy. cbn [store].
         eapply grows_trans; [exact Hgrow | apply grows_setSensors; reflexivity].
      -- intros vars' Hv. injection Hv as <-. eexists [_].
         split; [reflexivity|]. simpl. rewrite orb_true_r. repeat split; lia.
Qed.

(** The same for one iteration of the sensor loop: the value written is
    never [undefined]. *)
Lemma processSensor_effect (station : Station) (sensorDataMap : gmap string Reading)
    (currentTime : Z) (vars : LoopVars) (sensor : Sensor) (w : World) :
  forall r w',
    processSensor env station sensorDataMap currentTime vars sensor w = (r, w') ->
    growsBy (stampedFor (station__id station) currentTime) w w'
    /\ keepsStationsAndProgress w w'
    /\ forall vars', r = Ok vars' ->
         exists added,
           measurementCollection (store w')
           = (measurementCollection (store w) ++ added)%list
           /\ recordsCreated vars' = recordsCreated vars + Z.of_nat (length added)
           /\ sensorsProcessed vars <= sensorsProcessed vars' <= sensorsProcessed vars + 1
           /\ Z.of_nat (length added) <= sensorsProcessed vars' - sensorsProcessed vars
           /\ stationDataUpdated vars'
              = stationDataUpdated vars || negb (length added =? 0)%nat.
Proof.
  intros r w' H. unfold processSensor, bind in H.
  destruct (resolveValue_run env sensorDataMap sensor w)
    as (v & b & w0 & Hres & Hstore & Hclock & Hcases).
  rewrite Hres in H. simpl fst in H. simpl snd in H.
  assert (Hdef : v <> VUndefined /\ (b = true -> exists q, v = VNum q)).
  { unfold payloadValue in Hcases.
    destruct (sensorDataMap !! _) as [measurement|].
    - destruct (isDefined (reading_value measurement)) eqn:Hd.
      + destruct Hcases as (-> & -> & _).
        split; [destruct (reading_value measurement); discriminate | discriminate].
      + destruct Hcases as (_ & q & -> & _). split; [discriminate | eauto].
    - destruct Hcases as (_ & q & -> & _). split; [discriminate | eauto]. }
  destruct (writeSensorValue_effect station currentTime vars sensor v b w0
              (proj1 Hdef) (proj2 Hdef) r w' H)
    as (Hg & Hk & Hc).
  unfold growsBy, keepsStationsAndProgress in *. rewrite Hstore in *.
  auto.
Qed.

End WriterEffect.

Section SensorLoop.
Context (env : Env).
Local Open Scope Z_scope.

(** The sensor loop: whatever happens, the store only grows and the
    stations and the progress record are untouched; when the loop ends
    normally, the records counted are the Measurements appended. *)
Lemma sensorLoop_effect (station : Station) (sensorDataMap : gmap string Reading)
    (currentTime : Z) (sensors : list Sensor) :
  forall (vars : LoopVars) (w : World) r w',
    forOf (processSensor env station sensorDataMap currentTime) sensors vars w = (r, w') ->
    growsBy (stampedFor (station__id station) currentTime) w w'
    /\ keepsStationsAndProgress w w'
    /\ forall vars', r = Ok vars' ->
         exists added,
           measurementCollection (store w')
           = (measurementCollection (store w) ++ added)%list
           /\ recordsCreated vars' = recordsCreated vars + Z.of_nat (length added)
           /\ sensorsProcessed vars <= sensorsProcessed vars'
              <= sensorsProcessed vars + Z.of_nat (length sensors)
           /\ Z.of_nat (length added) <= sensorsProcessed vars' - sensorsProcessed vars
           /\ stationDataUpdated vars'
              = stationDataUpdated vars || negb (length added =? 0)%nat.
Proof.
  induction sensors as [|sensor rest IH]; intros vars w r w' H.
  - injection H as <- <-. split; [reflexivity|]. split; [reflexivity|].
    intros vars' Hv. injection Hv as <-. exists []. rewrite app_nil_r. simpl.
    rewrite orb_false_r. repeat split; lia.
  - simpl in H. unfold bind in H.
    destruct (processSensor env station sensorDataMap currentTime vars sensor w)
      as [[vars1 | e] w1] eqn:Hstep.
    + destruct (processSensor_effect env _ _ _ _ _ _ _ _ Hstep) as (Hg1 & Hk1 & Hc1).
      destruct (IH _ _ _ _ H) as (Hg2 & Hk2 & Hc2).
      split; [etransitivity; eassumption|]. split; [etransitivity; eassumption|].
      intros vars' Hv.
      destruct (Hc1 vars1 eq_refl) as (a1 & Hm1 & Hr1 & Hs1 & Hl1 & Hf1).
      destruct (Hc2 vars' Hv) as (a2 & Hm2 & Hr2 & Hs2 & Hl2 & Hf2).
      exists (a1 ++ a2)%list. rewrite Hm2, Hm1, app_assoc, length_app.
      split; [reflexivity|]. simpl length.
      split; [lia|]. split; [lia|]. split; [lia|].
      rewrite Hf2, Hf1. destruct (stationDataUpdated vars), a1, a2; reflexivity.
    + injection H as <- <-.
      destruct (processSensor_effect env _ _ _ _ _ _ _ _ Hstep) as (Hg1 & Hk1 & _).
      split; [exact Hg1|]. split; [exact Hk1|]. intros vars' Hv. discriminate.
Qed.

Lemma findSensors_run (stationId : ObjectId) (w : World) :
  exists r w',
    findSensors env stationId w = (r, w')
    /\ store w' = store w /\ clock w' = clock w /\ fetchCount w' = fetchCount w
    /\ (forall e, r = Throw e -> exists msg, e = ThrownError msg)
    /\ (forall sensors, r = Ok sensors ->
          sensors = List.filter (fun s => (sensor_station s =? stationId)%Z)
                      (sensorCollection (store w))).
Proof.
  unfold findSensors. cbv [bind storeCall readStore ret].
  destruct (storeFault env Sensors (storeOps w)); eexists _, _;
    (split; [reflexivity|]); cbn; repeat split; intros x Hx;
    first [discriminate Hx | injection Hx as <-; eauto].
Qed.

Lemma updateOneStation_run (id : ObjectId) (t : Z) (w : World) :
  exists r w',
    updateOneStation env id t w = (r, w')
    /\ (forall e, r = Throw e -> store w' = store w /\ exists msg, e = ThrownError msg)
    /\ (r = Ok tt ->
        store w'
        = setStations (updateFirst (fun s => (station__id s =? id)%Z)
                         (setLastDataUpdate t) (stationCollection (store w))) (store w)).
Proof.
  unfold updateOneStation. cbv [bind storeCall writeStore ret setStore].
  destruct (storeFault env Stations (storeOps w)); eexists _, _;
    (split; [reflexivity|]); cbn; split; intros; try discriminate; eauto.
  injection H as <-. eauto.
Qed.

End SensorLoop.

(** ** The anatomy of [processStation] *)

Section ProcessStationAnatomy.
Context (env : Env).
Local Open Scope Z_scope.

Lemma sensorLoop_raisesErrors station sensorDataMap currentTime sensors vars :
  raisesErrors (forOf (processSensor env station sensorDataMap currentTime) sensors vars).
Proof. apply raisesErrors_forOf. intros s x. apply raisesErrors_processSensor. Qed.

(** Every run of [processStation] is one of six: the id is missing; no
    data; no sensors; an error object was raised somewhere; the loop
    ended without a new record; the loop ended with new records and the
    station was updated. *)
Lemma processStation_anatomy (station : Station) (currentTime : Z) (w : World) :
  exists o w',
    processStation env station currentTime w = (Ok o, w')
    /\ ((idMissing station = true /\ o = failure R_missing_id /\ w' = w)
        \/ (idMissing station = false /\ o = failure R_no_data /\ noStoreAccess w w')
        \/ (idMissing station = false /\ o = failure R_no_sensors /\ sameStore w w'
            /\ sensorsOfStation station (store w) = [])
        \/ (idMissing station = false /\ (exists msg, o = errorOutcome msg)
            /\ keepsStationsAndProgress w w')
        \/ (idMissing station = false
            /\ exists vars added,
                 o = countedOutcome vars /\ stationDataUpdated vars = false
                 /\ keepsStationsAndProgress w w'
                 /\ measurementCollection (store w')
                    = (measurementCollection (store w) ++ added)%list
                 /\ accountsFor vars added (sensorsOfStation station (store w)))
        \/ (idMissing station = false
            /\ exists vars added now (w3 : World),
                 o = countedOutcome vars /\ stationDataUpdated vars = true
                 /\ keepsStationsAndProgress w w3
                 /\ store w'
                    = setStations
                        (updateFirst (fun s => (station__id s =? station__id station)%Z)
                           (setLastDataUpdate now) (stationCollection (store w3)))
                        (store w3)
                 /\ measurementCollection (store w3)
                    = (measurementCollection (store w) ++ added)%list
                 /\ accountsFor vars added (sensorsOfStation station (store w)))).
Proof.
  unfold processStation, tryCatch. fold (idMissing station).
  destruct (idMissing station) eqn:Hguard.
  { exists (failure R_missing_id), w. split; [reflexivity|]. left. auto. }
  unfold bind at 1.
  destruct (getLatestMeasurements_never_raises env (station_id station) w)
    as (latest & w1 & Hlatest & Hna & _).
  rewrite Hlatest.
  destruct latest as [|reading latest]; cbn [length Nat.eqb].
  { exists (failure R_no_data), w1. split; [reflexivity|]. right. left. auto. }
  unfold bind at 1.
  destruct (findSensors_run env (station__id station) w1)
    as (r2 & w2 & Hfind & Hstore2 & _ & _ & Herr2 & Hsensors).
  rewrite Hfind.
  assert (Hs12 : store w2 = store w) by (destruct Hna as [Hs _]; congruence).
  destruct r2 as [sensors | e].
  2:{ destruct (Herr2 e eq_refl) as [msg ->]. cbv [bind messageOf ret].
      exists (errorOutcome msg), w2. split; [reflexivity|].
      do 3 right. left. split; [reflexivity|]. split; [eauto|].
      unfold keepsStationsAndProgress. rewrite Hs12. auto. }
  pose proof (Hsensors sensors eq_refl) as Hsens.
  assert (Hsof : sensors = sensorsOfStation station (store w)).
  { rewrite Hsens. unfold sensorsOfStation. destruct Hna as [Hs _]. rewrite Hs.
    reflexivity. }
  destruct sensors as [|sensor sensors]; cbn [length Nat.eqb].
  { exists (failure R_no_sensors), w2. split; [reflexivity|].
    do 2 right. left. unfold sameStore. auto. }
  unfold bind at 1.
  destruct (forOf _ (sensor :: sensors) _ w2) as [[vars | e] w3] eqn:Hloop.
  2:{ destruct (sensorLoop_raisesErrors _ _ _ _ _ _ _ _ Hloop) as [msg ->].
      destruct (sensorLoop_effect env _ _ _ _ _ _ _ _ Hloop) as (_ & Hk & _).
      cbv [bind messageOf ret].
      exists (errorOutcome msg), w3. split; [reflexivity|].
      do 3 right. left. split; [reflexivity|]. split; [eauto|].
      unfold keepsStationsAndProgress in *. rewrite Hs12 in Hk. exact Hk. }
  destruct (sensorLoop_effect env _ _ _ _ _ _ _ _ Hloop) as (_ & Hk & Hc).
  destruct (Hc vars eq_refl) as (added & Hm & Hr & Hs & Hl & Hf).
  cbn [stationDataUpdated sensorsProcessed recordsCreated] in Hr, Hs, Hl, Hf.
  rewrite Hs12 in Hm. unfold keepsStationsAndProgress in Hk. rewrite Hs12 in Hk.
  assert (Hacc : accountsFor vars added (sensorsOfStation station (store w))).
  { unfold accountsFor. rewrite <- Hsof. repeat split; try lia. exact Hf. }
  destruct (stationDataUpdated vars) eqn:Hflag.
  - unfold bind at 1. unfold bind at 1. cbv [newDate].
    destruct (updateOneStation_run env (station__id station) (clock w3) w3)
      as (r4 & w4 & Hupd & Herr4 & Hok4).
    rewrite Hupd. destruct r4 as [[] | e].
    + cbv [ret]. eexists _, w4. split; [reflexivity|].
      do 5 right. split; [reflexivity|].
      exists vars, added, (clock w3), w3.
      unfold countedOutcome. rewrite Hflag. auto 10.
    + destruct (Herr4 e eq_refl) as (Hs4 & msg & ->). cbv [bind messageOf ret].
      exists (errorOutcome msg), w4. split; [reflexivity|].
      do 3 right. left. split; [reflexivity|]. split; [eauto|].
      unfold keepsStationsAndProgress. rewrite Hs4. exact Hk.
  - cbv [bind ret]. eexists _, w3. split; [reflexivity|].
    do 4 right. left. split; [reflexivity|].
    exists vars, added. unfold countedOutcome. rewrite Hflag. auto 10.
Qed.

End ProcessStationAnatomy.

(** ** What [processStation] does and never does *)

Section ProcessStationFacts.
Context (env : Env).
Local Open Scope Z_scope.

Lemma idMissing_spec (station : Station) :
  idMissing station = true
  <-> station_id station = IdUndefined \/ station_id station = IdStr EmptyString.
Proof.
  unfold idMissing. destruct (station_id station) as [|n|s]; simpl.
  - split; auto.
  - destruct (n =? 0); simpl; split; try discriminate; intros [H|H]; discriminate.
  - destruct (String.eqb_spec s EmptyString) as [->|Hne]; simpl.
    + split; auto.
    + split; [discriminate|]. intros [H|H]; [discriminate | congruence].
Qed.

Lemma processSensor_growsBy station sensorDataMap currentTime vars sensor :
  respects (growsBy (stampedFor (station__id station) currentTime))
    (processSensor env station sensorDataMap currentTime vars sensor).
Proof. intros w r w' H. apply (processSensor_effect env _ _ _ _ _ _ _ _ H). Qed.

Lemma processStation_growsBy (station : Station) (currentTime : Z) :
  respects (growsBy (stampedFor (station__id station) currentTime))
    (processStation env station currentTime).
Proof.
  pose proof (fun P id =>
    respects_impl sameStore (growsBy P) _ (sameStore_growsBy P)
      (respects_impl _ _ _ noStoreAccess_sameStore
         (getLatestMeasurements_noStoreAccess env id))) as Hlatest.
  pose proof (fun P id =>
    respects_impl sameStore (growsBy P) _ (sameStore_growsBy P)
      (findSensors_sameStore env id)) as Hfind.
  pose proof (fun P =>
    respects_impl sameStore (growsBy P) _ (sameStore_growsBy P)
      (respects_impl _ _ _ noStoreAccess_sameStore newDate_noStoreAccess)) as Hdate.
  pose proof (updateOneStation_growsBy env) as Hupd.
  pose proof processSensor_growsBy as Hsensor.
  unfold processStation.
  respects_with ltac:(solve [auto]).
Qed.

(** Whatever the upstream and the store do, [processStation] only
    appends to the measurement collection, and only Measurements of its
    station and of the hour it is given, whose value is whatever the
    upstream sent for the sensor but neither [null] nor absent, and a
    number when the Measurement is flagged as simulated; it changes or
    removes no Measurement, keeps unique keys unique, leaves the
    number, order and identity of the sensors and of the stations as they
    are, and never touches the progress record. *)
Theorem processStation_only_appends (station : Station) (currentTime : Z) (w : World) :
  exists o w',
    processStation env station currentTime w = (Ok o, w')
    /\ (exists added,
          measurementCollection (store w')
          = (measurementCollection (store w) ++ added)%list
          /\ Forall (stampedFor (station__id station) currentTime) added)
    /\ (uniqueKeys (measurementCollection (store w))
        -> uniqueKeys (measurementCollection (store w')))
    /\ sensorIdentity <$> sensorCollection (store w')
       = sensorIdentity <$> sensorCollection (store w)
    /\ stationIdentity <$> stationCollection (store w')
       = stationIdentity <$> stationCollection (store w)
    /\ progressCollection (store w') = progressCollection (store w).
Proof.
  destruct (processStation_anatomy env station currentTime w) as (o & w' & Hrun & Hcases).
  exists o, w'. split; [exact Hrun|].
  destruct (processStation_growsBy station currentTime w _ _ Hrun)
    as (Hadd & Huniq & Hsens & Hstat).
  split; [exact Hadd|]. split; [exact Huniq|]. split; [exact Hsens|].
  split; [exact Hstat|].
  destruct Hcases as [(_ & _ & ->) | [(_ & _ & [Hs _]) | [(_ & _ & Hs & _) |
    [(_ & _ & [_ Hp]) | [(_ & vars & added & _ & _ & [_ Hp] & _) |
    (_ & vars & added & now & w3 & _ & _ & [_ Hp] & Hs & _)]]]]];
    try reflexivity; try (rewrite Hs; reflexivity); try exact Hp.
  rewrite Hs. exact Hp.
Qed.

(** When [processStation] reports counters, the records it reports are
    the Measurements it appended: their number is [recordsCreated], it is
    at most [sensorsProcessed], which is at most the number of sensors of
    the station, and the outcome is [success] exactly when at least one
    record was created. *)
Theorem processStation_counters_are_exact (station : Station) (currentTime : Z) (w : World) :
  exists o w' added,
    processStation env station currentTime w = (Ok o, w')
    /\ measurementCollection (store w')
       = (measurementCollection (store w) ++ added)%list
    /\ forall created processed,
         out_recordsCreated o = Some created ->
         out_sensorsProcessed o = Some processed ->
         created = Z.of_nat (length added)
         /\ created <= processed
            <= Z.of_nat (length (sensorsOfStation station (store w)))
         /\ (out_reason o = R_success <-> 1 <= created)
         /\ (out_reason o = R_no_new_data <-> created = 0)
         /\ (out_success o = true <-> 1 <= created).
Proof.
  destruct (processStation_anatomy env station currentTime w) as (o & w' & Hrun & Hcases).
  destruct (processStation_growsBy station currentTime w _ _ Hrun)
    as ((added0 & Hadd0 & _) & _).
  destruct Hcases as [(_ & -> & _) | [(_ & -> & _) | [(_ & -> & _) |
    [(_ & (msg & ->) & _) | [(_ & vars & added & -> & Hflag & _ & Hm & Hacc) |
    (_ & vars & added & now & w3 & -> & Hflag & _ & Hs & Hm & Hacc)]]]]].
  1-4: eexists _, w', added0; (split; [exact Hrun|]); (split; [exact Hadd0|]);
       intros created processed Hc; discriminate Hc.
  - eexists _, w', added. split; [exact Hrun|]. split; [exact Hm|].
    intros created processed Hc Hp. injection Hc as <-. injection Hp as <-.
    destruct Hacc as (Hr & Hl & Hn & Hf). unfold countedOutcome. simpl.
    rewrite Hflag in *. destruct added; simpl in *; [|discriminate].
    repeat split; intros; try lia; try discriminate; try congruence.
  - eexists _, w', added. split; [exact Hrun|].
    split; [rewrite Hs; exact Hm|].
    intros created processed Hc Hp. injection Hc as <-. injection Hp as <-.
    destruct Hacc as (Hr & Hl & Hn & Hf). unfold countedOutcome. simpl.
    rewrite Hflag in *. destruct added; simpl in *; [discriminate|].
    repeat split; intros; try lia; try discriminate; try congruence.
Qed.

(** The station document is written only on success: for every other
    outcome the station collection is left as it is, and on success the
    only change is the [lastDataUpdate] of the document with the
    station's [_id]. *)
Theorem processStation_updates_station_only_on_success
    (station : Station) (currentTime : Z) (w : World) :
  exists o w',
    processStation env station currentTime w = (Ok o, w')
    /\ (out_reason o <> R_success ->
        stationCollection (store w') = stationCollection (store w))
    /\ (out_reason o = R_success ->
        exists now,
          stationCollection (store w')
          = updateFirst (fun s => (station__id s =? station__id station)%Z)
              (setLastDataUpdate now) (stationCollection (store w))).
Proof.
  destruct (processStation_anatomy env station currentTime w) as (o & w' & Hrun & Hcases).
  exists o, w'. split; [exact Hrun|].
  destruct Hcases as [(_ & -> & ->) | [(_ & -> & [Hs _]) | [(_ & -> & Hs & _) |
    [(_ & (msg & ->) & [Hs _]) | [(_ & vars & added & -> & Hflag & [Hs _] & _) |
    (_ & vars & added & now & w3 & -> & Hflag & [Hs3 _] & Hs & _)]]]]];
    unfold countedOutcome; simpl; rewrite ?Hflag;
    try (split; [intros _; first [reflexivity | rewrite Hs; reflexivity | exact Hs]
                | intros Hx; discriminate Hx]).
  split; [intros Hx; contradiction|]. intros _. exists now.
  rewrite Hs. simpl. rewrite Hs3. reflexivity.
Qed.

(** The guards do no work.  The outcome is [missing_id] exactly when the
    id is absent or the empty string (the number 0 is a valid id), and
    then nothing at all happens; with [no_data] requests were sent but no
    store operation was issued; with [no_sensors] the store is as before
    and the station indeed has no sensor. *)
Theorem processStation_guards_do_no_work (station : Station) (currentTime : Z) (w : World) :
  exists o w',
    processStation env station currentTime w = (Ok o, w')
    /\ (out_reason o = R_missing_id
        <-> station_id station = IdUndefined \/ station_id station = IdStr EmptyString)
    /\ (out_reason o = R_missing_id -> w' = w)
    /\ (out_reason o = R_no_data -> noStoreAccess w w')
    /\ (out_reason o = R_no_sensors ->
        store w' = store w /\ sensorsOfStation station (store w) = []).
Proof.
  destruct (processStation_anatomy env station currentTime w) as (o & w' & Hrun & Hcases).
  exists o, w'. split; [exact Hrun|]. rewrite <- idMissing_spec.
  destruct Hcases as [(Hg & -> & ->) | [(Hg & -> & Hna) | [(Hg & -> & Hs & Hnone) |
    [(Hg & (msg & ->) & _) | [(Hg & vars & added & -> & Hflag & _) |
    (Hg & vars & added & now & w3 & -> & Hflag & _)]]]]];
    unfold countedOutcome; simpl; rewrite ?Hflag, Hg;
    repeat split; intros; try discriminate; try congruence; auto;
    destruct Hna; assumption.
Qed.

End ProcessStationFacts.

(** ** The page: what a run keeps and what it raises *)

Section PageFacts.
Context (env : Env).
Local Open Scope Z_scope.

Lemma raisesErrors_processStation (station : Station) (currentTime : Z) :
  raisesErrors (processStation env station currentTime).
Proof.
  intros w e w' H.
  destruct (processStation_classifies env station currentTime w) as (o & w1 & Hrun & _).
  congruence.
Qed.

Lemma raisesErrors_runPage (allLaStations : list Station) (offset maxPerRun : Z) :
  raisesErrors (runPage env allLaStations offset maxPerRun).
Proof.
  pose proof raisesErrors_processStation.
  unfold runPage, processBatch, processBatchStation, upsertProgress. raises.
Qed.

Lemma stampedFor_stampedAt (stationId : ObjectId) (currentTime : Z) (m : Measurement) :
  stampedFor stationId currentTime m -> stampedAt currentTime m.
Proof. intros [_ H]. exact H. Qed.

Lemma processBatch_growsBy (laStations : list Station)
    (offset totalStations endOffset currentTime : Z) (results : Results) (i : Z) :
  respects (growsBy (stampedAt currentTime))
    (processBatch env laStations offset totalStations endOffset currentTime results i).
Proof.
  pose proof (fun station =>
    respects_impl _ (growsBy (stampedAt currentTime)) _
      (fun w w' => grows_impl _ _ _ _ (stampedFor_stampedAt (station__id station) currentTime))
      (processStation_growsBy env station currentTime)) as Hstation.
  pose proof (fun ms =>
    respects_impl sameStore (growsBy (stampedAt currentTime)) _ (sameStore_growsBy _)
      (respects_impl _ _ _ noStoreAccess_sameStore (sleep_noStoreAccess ms))) as Hsleep.
  pose proof (
    respects_impl sameStore (growsBy (stampedAt currentTime)) _ (sameStore_growsBy _)
      (respects_impl _ _ _ noStoreAccess_sameStore newDate_noStoreAccess)) as Hdate.
  pose proof (upsertProgress_growsBy env (stampedAt currentTime)) as Hprog.
  unfold processBatch, processBatchStation.
  respects_with ltac:(solve [auto]).
Qed.

Lemma runPage_growsBy (allLaStations : list Station) (offset maxPerRun : Z) (w : World) :
  forall r w',
    runPage env allLaStations offset maxPerRun w = (r, w') ->
    growsBy (stampedAt (alignToHour (localTZA env) (clock w))) w w'.
Proof.
  intros r w' H. unfold runPage, bind at 1, newDate in H.
  revert H. apply respects_forOf. intros results i. apply processBatch_growsBy.
Qed.

End PageFacts.

(** ** Requests sent to the upstream *)

Section Requests.
Context (env : Env).

#[local] Instance noRequest_preorder : PreOrder noRequest.
Proof.
  split; [intros w; reflexivity|].
  intros a b c H1 H2. unfold noRequest in *. congruence.
Qed.

Lemma sends_of_noRequest {A : Type} (m : M A) : respects noRequest m -> sends 0 m.
Proof. intros H w r w' Hrun. rewrite (H w r w' Hrun). lia. Qed.

Lemma sends_le {A : Type} (n k : nat) (m : M A) :
  (n <= k)%nat -> sends n m -> sends k m.
Proof. intros Hle H w r w' Hrun. specialize (H w r w' Hrun). lia. Qed.

Lemma sends_bind {A B : Type} (n k : nat) (m : M A) (f : A -> M B) :
  sends n m -> (forall a, sends k (f a)) -> sends (n + k) (bind m f).
Proof.
  intros Hm Hf w r w' H. unfold bind in H.
  destruct (m w) as [[a | e] w1] eqn:Em; specialize (Hm w _ w1 Em).
  - specialize (Hf a w1 r w' H). lia.
  - injection H as _ <-. lia.
Qed.

Lemma sends_tryCatch {A : Type} (n k : nat) (body : M A) (handler : Thrown -> M A) :
  sends n body -> (forall e, sends k (handler e)) -> sends (n + k) (tryCatch body handler).
Proof.
  intros Hb Hh w r w' H. unfold tryCatch in H.
  destruct (body w) as [[a | e] w1] eqn:Eb; specialize (Hb w _ w1 Eb).
  - injection H as _ <-. lia.
  - specialize (Hh e w1 r w' H). lia.
Qed.

Lemma sends_forOf {A S : Type} (g : A -> nat) (body : S -> A -> M S) (l : list A) :
  (forall s x, sends (g x) (body s x)) ->
  forall s, sends (sum_list (g <$> l)) (forOf body l s).
Proof.
  intros Hb. induction l as [|x l IH]; intros s; simpl.
  - apply sends_of_noRequest, respects_ret.
  - apply sends_bind; [apply Hb | apply IH].
Qed.

Lemma newDate_noRequest : respects noRequest (newDate).
Proof. intros w r w' H. injection H as _ <-. reflexivity. Qed.

Lemma sleep_noRequest (ms : Z) : respects noRequest (sleep ms).
Proof. intros w r w' H. injection H as _ <-. reflexivity. Qed.

Lemma mathRandom_noRequest : respects noRequest (mathRandom env).
Proof. intros w r w' H. injection H as _ <-. reflexivity. Qed.

Lemma readStore_noRequest : respects noRequest readStore.
Proof. intros w r w' H. injection H as _ <-. reflexivity. Qed.

Lemma writeStore_noRequest (f : Store -> Store) : respects noRequest (writeStore f).
Proof. intros w r w' H. injection H as _ <-. reflexivity. Qed.

Lemma storeCall_noRequest (c : Collection) : respects noRequest (storeCall env c).
Proof.
  intros w r w' H. unfold storeCall in H.
  destruct (storeFault env c (storeOps w)); injection H as _ <-; reflexivity.
Qed.

Ltac norequest_leaf :=
  first [ apply newDate_noRequest | apply sleep_noRequest | apply mathRandom_noRequest
        | apply readStore_noRequest | apply writeStore_noRequest
        | apply storeCall_noRequest ].

Lemma processSensor_noRequest (station : Station) (sensorDataMap : gmap string Reading)
    (currentTime : Z) (vars : LoopVars) (sensor : Sensor) :
  respects noRequest (processSensor env station sensorDataMap currentTime vars sensor).
Proof.
  unfold processSensor, resolveValue, generateSimulatedValue, writeSensorValue,
    findOneMeasurement, insertOneMeasurement, updateOneSensor, parameterOf.
  respects_with norequest_leaf.
Qed.

Lemma fetchLoop_sends (url : string) (remaining : nat) :
  forall attempt lastError, sends remaining (fetchLoop env url remaining attempt lastError).
Proof.
  induction remaining as [|n IH]; intros attempt lastError; simpl.
  - apply sends_of_noRequest, respects_throw.
  - apply (sends_tryCatch 1 n).
    + intros w r w' H.
      destruct (fetchAttempt_world env url attempt w) as (r1 & w1 & Hrun & _ & Hc & _).
      rewrite Hrun in H. injection H as _ <-. lia.
    + intros e. apply (sends_bind 0 n); [|intros _; apply IH].
      apply sends_of_noRequest, respects_messageOf.
Qed.

Lemma getLatestMeasurements_sends (locationId : JsId) :
  sends defaultMaxRetries (getLatestMeasurements env locationId).
Proof.
  unfold getLatestMeasurements, fetchWithRetry.
  apply (sends_le (defaultMaxRetries + 0 + 0)); [lia|].
  apply sends_tryCatch.
  - apply sends_bind; [apply fetchLoop_sends|].
    intros data. apply sends_of_noRequest. respects_with fail.
  - intros e. apply sends_of_noRequest. respects_with fail.
Qed.

Lemma processStation_sends (station : Station) (currentTime : Z) :
  sends defaultMaxRetries (processStation env station currentTime).
Proof.
  pose proof (processSensor_noRequest station) as Hsensor.
  unfold processStation.
  apply (sends_le (defaultMaxRetries + 0 + 0)); [lia|].
  apply sends_tryCatch.
  - destruct (negb (truthy (station_id station)) && isNotZero (station_id station)).
    + apply (sends_le 0); [lia|]. apply sends_of_noRequest, respects_ret.
    + apply sends_bind; [apply getLatestMeasurements_sends|].
      intros latestData. apply sends_of_noRequest.
      unfold findSensors, updateOneStation.
      respects_with ltac:(first [norequest_leaf | solve [auto]]).
  - intros e. apply sends_of_noRequest. respects_with fail.
Qed.

Lemma sum_list_batches {A B : Type} (f : A -> list B) (l : list A) :
  sum_list ((fun x => 3 * length (f x))%nat <$> l) = (3 * length (concat (f <$> l)))%nat.
Proof.
  induction l as [|x l IH]; [reflexivity|].
  rewrite !fmap_cons.
  change (sum_list ((3 * length (f x))%nat :: ((fun x => 3 * length (f x))%nat <$> l)))
    with (3 * length (f x) + sum_list ((fun x => 3 * length (f x))%nat <$> l))%nat.
  change (concat (f x :: (f <$> l))) with (f x ++ concat (f <$> l))%list.
  rewrite length_app, IH. lia.
Qed.

Lemma sum_list_const {A : Type} (n : nat) (l : list A) :
  sum_list ((fun _ => n) <$> l) = (n * length l)%nat.
Proof.
  induction l as [|x l IH]; [simpl; lia|].
  rewrite fmap_cons.
  change (sum_list (n :: ((fun _ => n) <$> l)))
    with (n + sum_list ((fun _ : A => n) <$> l))%nat.
  rewrite IH. simpl length. lia.
Qed.

Lemma processBatch_sends (laStations : list Station)
    (offset totalStations endOffset currentTime : Z) (results : Results) (i : Z) :
  sends (3 * length (slice laStations i (i + batchSize)))
    (processBatch env laStations offset totalStations endOffset currentTime results i).
Proof.
  unfold processBatch.
  rewrite <- (sum_list_const 3 (slice laStations i (i + batchSize))).
  apply (sends_le (sum_list ((fun _ => 3%nat) <$> slice laStations i (i + batchSize)) + 0));
    [lia|].
  apply sends_bind.
  - apply sends_forOf. intros acc station. unfold processBatchStation.
    apply (sends_bind 0 3).
    + apply sends_of_noRequest. respects_with norequest_leaf.
    + intros _. apply (sends_le (3 + 0)); [lia|].
      apply sends_bind; [apply processStation_sends|].
      intros o. apply sends_of_noRequest, respects_ret.
  - intros acc. apply sends_of_noRequest. unfold upsertProgress.
    respects_with norequest_leaf.
Qed.

Lemma runPage_sends (allLaStations : list Station) (offset maxPerRun : Z) :
  sends (3 * length (pageOf allLaStations offset maxPerRun))
    (runPage env allLaStations offset maxPerRun).
Proof.
  unfold runPage.
  set (laStations := pageOf allLaStations offset maxPerRun).
  assert (Hcat : concat ((fun i => slice laStations i (i + batchSize))
                           <$> forRange (Z.of_nat (length laStations)) batchSize)
                 = laStations).
  { pose proof (ceilDiv_spec (Z.of_nat (length laStations)) batchSize ltac:(reflexivity))
      as Hn.
    unfold batchSize in Hn. unfold forRange.
    rewrite <- (Z2Nat.id (ceilDiv (Z.of_nat (length laStations)) batchSize))
      by (unfold batchSize; lia).
    rewrite batches_prefix. apply take_ge. unfold batchSize. lia. }
  rewrite <- Hcat at 1. rewrite <- sum_list_batches.
  apply (sends_bind 0); [apply sends_of_noRequest, newDate_noRequest|].
  intros now. apply sends_forOf. intros results i. apply processBatch_sends.
Qed.

End Requests.

(** ** The statistics of a run *)

Section Statistics.
Context (env : Env).
Local Open Scope Z_scope.

Lemma processStation_outcome_sound (station : Station) (currentTime : Z) (w : World) :
  exists o w',
    processStation env station currentTime w = (Ok o, w') /\ soundOutcome o.
Proof.
  destruct (processStation_anatomy env station currentTime w) as (o & w' & Hrun & Hcases).
  exists o, w'. split; [exact Hrun|].
  destruct Hcases as [(_ & -> & _) | [(_ & -> & _) | [(_ & -> & _) |
    [(_ & (msg & ->) & _) | [(_ & vars & added & -> & Hflag & _ & Hm & Hacc) |
    (_ & vars & added & now & w3 & -> & Hflag & _ & Hs & Hm & Hacc)]]]]];
    unfold soundOutcome; simpl; try discriminate.
  - rewrite Hflag. discriminate.
  - rewrite Hflag. destruct Hacc as (Hr & Hl & Hn & Hf).
    exists (recordsCreated vars), (sensorsProcessed vars).
    split; [reflexivity|]. split; [reflexivity|].
    rewrite Hflag in Hf. destruct added; simpl in *; [discriminate | lia].
Qed.

Lemma batch_outcomes_sound (currentTime : Z) (batchStations : list Station) :
  forall (acc : nat * list Outcome) (w : World),
  exists outs w',
    forOf (processBatchStation env currentTime) batchStations acc w
      = (Ok ((fst acc + length batchStations)%nat, (snd acc ++ outs)%list), w')
    /\ length outs = length batchStations
    /\ List.Forall soundOutcome outs.
Proof.
  induction batchStations as [|station rest IH]; intros acc w; simpl.
  - exists [], w. rewrite Nat.add_0_r, app_nil_r. destruct acc. auto.
  - unfold bind at 1, processBatchStation at 1.
    set (pause := if (0 <? fst acc)%nat then sleep 1000 else ret tt).
    assert (Hp : exists w0, pause w = (Ok tt, w0)).
    { subst pause. destruct (0 <? fst acc)%nat; eexists; reflexivity. }
    destruct Hp as [w0 Hp]. unfold bind at 1. rewrite Hp.
    destruct (processStation_outcome_sound station currentTime w0)
      as (o & w1 & Ho & Hsound).
    unfold bind at 1. rewrite Ho. simpl ret.
    destruct (IH (S (fst acc), (snd acc ++ [o])%list) w1)
      as (outs & w' & Hrest & Hlen & Hall).
    cbv beta iota. unfold ret at 1. rewrite Hrest. exists (o :: outs), w'. simpl.
    rewrite <- app_assoc. simpl. split; [|split].
    + do 2 f_equal. f_equal. lia.
    + congruence.
    + constructor; assumption.
Qed.

(** What a batch returns is the tally of one outcome for each of its
    stations. *)
Lemma processBatch_returns (laStations : list Station)
    (offset totalStations endOffset currentTime : Z) (results : Results) (i : Z) :
  returns (processBatch env laStations offset totalStations endOffset currentTime results i)
    (fun results' =>
       exists outs,
         results' = fold_left tally outs results
         /\ length outs = length (slice laStations i (i + batchSize))
         /\ Forall soundOutcome outs).
Proof.
  intros w r' w' H. unfold processBatch in H.
  destruct (batch_outcomes_sound currentTime (slice laStations i (i + batchSize)) (O, []) w)
    as (outs & w1 & Hb & Hlen & Hall).
  unfold bind at 1 in H. rewrite Hb in H. simpl snd in H.
  exists outs. split; [|split; assumption].
  revert H. generalize w1 r' w'.
  change (returns
    ((if i + batchSize <? Z.of_nat (length laStations) then sleep (8 * 1000) else ret tt) ;;;
     now <- newDate ;;
     upsertProgress env
       {| lastRunTime := now; lastOffset := offset;
          nextOffset := nextOffsetOf totalStations endOffset;
          prog_totalStations := totalStations;
          batchesCompleted := floorDiv i batchSize + 1;
          totalBatches := ceilDiv totalStations batchSize;
          isFullyComplete := (endOffset >=? totalStations) |} ;;;
     ret (fold_left tally outs results))
    (fun r => r = fold_left tally outs results)).
  repeat (apply returns_bind; intros ?). apply returns_ret. reflexivity.
Qed.

Lemma batches_return (laStations : list Station)
    (offset totalStations endOffset currentTime : Z) (indices : list Z) :
  forall results,
    returns (forOf (processBatch env laStations offset totalStations endOffset currentTime)
               indices results)
      (fun results' =>
         exists outs,
           results' = fold_left tally outs results
           /\ length outs
              = length (concat ((fun i => slice laStations i (i + batchSize)) <$> indices))
           /\ Forall soundOutcome outs).
Proof.
  induction indices as [|i indices IH]; intros results w r' w' H; simpl in H.
  - injection H as <- _. exists []. repeat split. constructor.
  - unfold bind in H.
    destruct (processBatch env laStations offset totalStations endOffset currentTime
                results i w) as [[r1 | e] w1] eqn:Hb; [|discriminate].
    destruct (processBatch_returns _ _ _ _ _ _ _ _ _ _ Hb) as (outs1 & -> & Hlen1 & Hall1).
    destruct (IH _ _ _ _ H) as (outs2 & -> & Hlen2 & Hall2).
    exists (outs1 ++ outs2)%list. rewrite fold_left_app. split; [reflexivity|].
    split; [|apply Forall_app; split; assumption].
    rewrite fmap_cons. simpl concat. rewrite !length_app. congruence.
Qed.

(** The statistics [runPage] returns are the tally of one outcome for
    each station of the page. *)
Lemma runPage_returns (allLaStations : list Station) (offset maxPerRun : Z) :
  returns (runPage env allLaStations offset maxPerRun)
    (fun results =>
       exists outs,
         results
         = fold_left tally outs
             {| total := Z.of_nat (length (pageOf allLaStations offset maxPerRun));
                successful := 0; failed := 0; failureReasons := ∅;
                res_sensorsProcessed := 0; res_recordsCreated := 0;
                paging := pagingOf allLaStations offset maxPerRun |}
         /\ length outs = length (pageOf allLaStations offset maxPerRun)
         /\ Forall soundOutcome outs).
Proof.
  intros w r w' H. unfold runPage, bind at 1, newDate in H.
  destruct (batches_return _ _ _ _ _ _ _ _ _ _ H) as (outs & -> & Hlen & Hall).
  exists outs. split; [reflexivity|]. split; [|exact Hall].
  rewrite Hlen. f_equal.
  set (laStations := pageOf allLaStations offset maxPerRun).
  pose proof (ceilDiv_spec (Z.of_nat (length laStations)) batchSize ltac:(reflexivity))
    as Hn.
  unfold batchSize in Hn. unfold forRange.
  rewrite <- (Z2Nat.id (ceilDiv (Z.of_nat (length laStations)) batchSize))
    by (unfold batchSize; lia).
  rewrite batches_prefix. apply take_ge. unfold batchSize. lia.
Qed.

Lemma tally_consistent (results : Results) (o : Outcome) :
  consistentStats results -> soundOutcome o -> consistentStats (tally results o).
Proof.
  intros (Hs & Hf & Hsum & Hkeys & Hrec) Ho. unfold soundOutcome in Ho.
  unfold tally. destruct (out_success o).
  - destruct Ho as (created & processed & -> & -> & Hcp).
    unfold consistentStats, countOf in *. simpl in *.
    split; [lia|]. split; [lia|]. split; [exact Hsum|]. split; [exact Hkeys|]. lia.
  - unfold consistentStats, countOf in *. cbn [successful failed failureReasons
      res_sensorsProcessed res_recordsCreated] in *.
    split; [lia|]. split; [lia|].
    assert (Hcount : forall name,
      0 <= orZero (failureReasons results !! name)).
    { intros name. destruct (failureReasons results !! name) as [n|] eqn:Hn; simpl; [|lia].
      destruct (Hkeys _ _ Hn). lia. }
    split; [|split; [|exact Hrec]].
    + destruct (out_reason o); try congruence; simpl in *;
        repeat first [rewrite lookup_insert_eq | rewrite lookup_insert_ne by discriminate];
        simpl; lia.
    + intros key n Hkey.
      destruct (decide (reasonName (out_reason o) = key)) as [<- | Hne].
      * rewrite lookup_insert_eq in Hkey. injection Hkey as <-.
        split; [|specialize (Hcount (reasonName (out_reason o))); lia].
        destruct (out_reason o); try congruence; unfold failureNames; simpl;
          repeat first [apply list_elem_of_here | apply list_elem_of_further].
      * rewrite lookup_insert_ne in Hkey by exact Hne. exact (Hkeys _ _ Hkey).
Qed.

Lemma fold_tally_consistent (outs : list Outcome) :
  forall results,
    consistentStats results -> Forall soundOutcome outs ->
    consistentStats (fold_left tally outs results).
Proof.
  induction outs as [|o outs IH]; intros results Hr Hall; simpl; [exact Hr|].
  inversion Hall; subst. apply IH; [apply tally_consistent|]; assumption.
Qed.

End Statistics.

(** ** What the station matcher guarantees *)

Section MatcherFacts.
Import FixedIndex.

Lemma last_filter_Some {A : Type} (f : A -> bool) (l : list A) (x : A) :
  last (List.filter f l) = Some x -> x ∈ l /\ f x = true.
Proof.
  induction l as [|a l IH]; simpl; [discriminate|].
  destruct (f a) eqn:Ha.
  - rewrite last_cons. destruct (last (List.filter f l)) as [y|] eqn:Hl.
    + intros H. destruct (IH H) as [Hin Hf]. split; [apply list_elem_of_further, Hin | exact Hf].
    + intros H. injection H as <-. split; [apply list_elem_of_here | exact Ha].
  - intros H. destruct (IH H) as [Hin Hf]. split; [apply list_elem_of_further, Hin | exact Hf].
Qed.

Lemma last_filter_None {A : Type} (f : A -> bool) (l : list A) :
  last (List.filter f l) = None <-> forall x, x ∈ l -> f x = false.
Proof.
  induction l as [|a l IH]; simpl.
  - split; [intros _ x Hx; inversion Hx | reflexivity].
  - destruct (f a) eqn:Ha.
    + rewrite last_cons. split.
      * destruct (last (List.filter f l)); discriminate.
      * intros H. specialize (H a (list_elem_of_here _ _)). congruence.
    + rewrite IH. split.
      * intros H x Hx. inversion Hx; subst; [exact Ha | auto].
      * intros H x Hx. apply H, list_elem_of_further, Hx.
Qed.

(** A lookup that finds nothing: no upstream location carries the key. *)
Lemma lookupKey_None (openaqLocations : list OpenaqLocation) (key : option string) :
  lookupKey (buildLocationMap openaqLocations) key = None ->
  keyAbsent openaqLocations key.
Proof.
  rewrite lookupKey_last. unfold keyAbsent, lastCandidate, candidates.
  destruct key as [k|]; [|intros _ k Hk; discriminate].
  destruct (last (List.filter (hasKey k) openaqLocations)) eqn:Hlast; [discriminate|].
  intros _ k' Hk. injection Hk as <-. apply last_filter_None. exact Hlast.
Qed.

(** For a key that names no inherited property, the converse, and what a
    lookup finds is an upstream location that carries the key. *)
Lemma lookupKey_own_None (openaqLocations : list OpenaqLocation) (key : option string) :
  ownKey key = true ->
  keyAbsent openaqLocations key ->
  lookupKey (buildLocationMap openaqLocations) key = None.
Proof.
  intros Hown Habs. rewrite lookupKey_own by exact Hown.
  unfold keyAbsent, lastCandidate, candidates in *. destruct key as [k|]; [|reflexivity].
  rewrite (proj2 (last_filter_None (hasKey k) openaqLocations) (Habs k eq_refl)).
  reflexivity.
Qed.

Lemma lookupKey_own_Some (openaqLocations : list OpenaqLocation) (key : option string)
    (found : Property) :
  ownKey key = true ->
  lookupKey (buildLocationMap openaqLocations) key = Some found ->
  exists location,
    found = Stored location /\ location ∈ openaqLocations /\ carries location key.
Proof.
  intros Hown. rewrite lookupKey_own by exact Hown.
  unfold carries, lastCandidate, candidates. destruct key as [k|]; [|discriminate].
  destruct (last (List.filter (hasKey k) openaqLocations)) as [location|] eqn:Hlast;
    [|discriminate].
  intros H. injection H as <-. destruct (last_filter_Some _ _ _ Hlast) as [Hin Hk].
  exists location. eauto.
Qed.

(** One station: it goes to the matched pairs or to the unmatched list;
    for a station with ordinary keys the pair is sound. *)
Lemma matchStation_cases (openaqLocations : list OpenaqLocation)
    (acc : MatchResult) (station : DbStation) :
  (exists m,
     matchStation (buildLocationMap openaqLocations) acc station
     = {| matchedStations := matchedStations acc ++ [m];
          unmatchedStations := unmatchedStations acc |}
     /\ dbStation m = station
     /\ (plainStation station = true -> soundMatch openaqLocations m))
  \/ (matchStation (buildLocationMap openaqLocations) acc station
      = {| matchedStations := matchedStations acc;
           unmatchedStations := unmatchedStations acc ++ [station] |}
      /\ keyAbsent openaqLocations (idKey (db_id station))
      /\ keyAbsent openaqLocations (nameKey (db_name station))).
Proof.
  unfold matchStation.
  destruct (lookupKey (buildLocationMap openaqLocations) (idKey (db_id station)))
    as [found|] eqn:Hid.
  { left. eexists. split; [reflexivity|]. split; [reflexivity|].
    intros Hplain. destruct (plainStation_keys station Hplain) as [Hown _].
    destruct (lookupKey_own_Some _ _ _ Hown Hid) as (location & -> & Hin & Hk).
    exists location. split; [reflexivity|]. split; assumption. }
  apply lookupKey_None in Hid.
  destruct (lookupKey (buildLocationMap openaqLocations) (nameKey (db_name station)))
    as [found|] eqn:Hname.
  { left. eexists. split; [reflexivity|]. split; [reflexivity|].
    intros Hplain. destruct (plainStation_keys station Hplain) as [_ Hown].
    destruct (lookupKey_own_Some _ _ _ Hown Hname) as (location & -> & Hin & Hk).
    exists location. split; [reflexivity|]. split; [exact Hin|]. split; assumption. }
  apply lookupKey_None in Hname. right. auto.
Qed.

(** The loop over the stations, from any accumulator: the stations are
    split, in order, between the matched pairs and the unmatched list. *)
Lemma matchStations_loop (openaqLocations : list OpenaqLocation)
    (dbStations : list DbStation) :
  forall acc,
  exists ms us,
    fold_left (matchStation (buildLocationMap openaqLocations)) dbStations acc
    = {| matchedStations := matchedStations acc ++ ms;
         unmatchedStations := unmatchedStations acc ++ us |}
    /\ (forallb plainStation dbStations = true -> Forall (soundMatch openaqLocations) ms)
    /\ Forall (fun s => keyAbsent openaqLocations (idKey (db_id s))
                        /\ keyAbsent openaqLocations (nameKey (db_name s))) us
    /\ (dbStation <$> ms) `sublist_of` dbStations
    /\ us `sublist_of` dbStations
    /\ (dbStation <$> ms) ++ us ≡ₚ dbStations.
Proof.
  induction dbStations as [|station rest IH]; intros acc; simpl.
  - exists [], []. rewrite !app_nil_r. destruct acc. repeat split; constructor.
  - destruct (matchStation_cases openaqLocations acc station)
      as [(m & -> & Hst & Hsound) | (-> & Hid & Hname)].
    + destruct (IH {| matchedStations := matchedStations acc ++ [m];
                      unmatchedStations := unmatchedStations acc |})
        as (ms & us & -> & Hms & Hus & Hsub1 & Hsub2 & Hperm).
      exists (m :: ms), us. cbn [matchedStations unmatchedStations].
      rewrite <- app_assoc. split; [reflexivity|].
      split.
      { intros Hplain. apply andb_true_iff in Hplain. destruct Hplain as [Hs Hrest].
        constructor; auto. }
      split; [exact Hus|].
      rewrite fmap_cons, Hst.
      split; [apply sublist_skip; exact Hsub1|].
      split; [apply sublist_cons; exact Hsub2|].
      simpl. constructor. exact Hperm.
    + destruct (IH {| matchedStations := matchedStations acc;
                      unmatchedStations := unmatchedStations acc ++ [station] |})
        as (ms & us & -> & Hms & Hus & Hsub1 & Hsub2 & Hperm).
      exists ms, (station :: us). cbn [matchedStations unmatchedStations].
      rewrite <- app_assoc. split; [reflexivity|].
      split.
      { intros Hplain. apply andb_true_iff in Hplain. destruct Hplain as [_ Hrest].
        auto. }
      split; [constructor; [split|]; assumption|].
      split; [apply sublist_cons; exact Hsub1|].
      split; [apply sublist_skip; exact Hsub2|].
      rewrite <- Permutation_middle. constructor. exact Hperm.
Qed.

(** The matcher loses and duplicates no station: the stations of the
    matched pairs and the unmatched stations are, each in the order of
    the input, a split of the input list, so their numbers add up to the
    number of stations. *)
Theorem matchStations_splits_the_stations
    (dbStations : list DbStation) (openaqLocations : list OpenaqLocation) :
  (dbStation <$> matchedStations (matchStations dbStations openaqLocations))
    `sublist_of` dbStations
  /\ unmatchedStations (matchStations dbStations openaqLocations) `sublist_of` dbStations
  /\ (dbStation <$> matchedStations (matchStations dbStations openaqLocations))
       ++ unmatchedStations (matchStations dbStations openaqLocations)
     ≡ₚ dbStations
  /\ (length (matchedStations (matchStations dbStations openaqLocations))
      + length (unmatchedStations (matchStations dbStations openaqLocations))
      = length dbStations)%nat.
Proof.
  unfold matchStations.
  destruct (matchStations_loop openaqLocations dbStations
              {| matchedStations := []; unmatchedStations := [] |})
    as (ms & us & -> & _ & _ & Hsub1 & Hsub2 & Hperm).
  cbn [matchedStations unmatchedStations app].
  split; [exact Hsub1|]. split; [exact Hsub2|]. split; [exact Hperm|].
  rewrite <- (Permutation_length Hperm), length_app, length_fmap. reflexivity.
Qed.

(** For local and upstream sites with ordinary keys (ASCII names, no key
    that names a property of [Object.prototype], integer ids a double
    holds exactly), every pair the matcher returns is sound: its location
    is one of the upstream locations and carries, as its id key or as its lower-cased
    name, the id key of the station for a match by id and the lower-cased
    name of the station for a match by name; and a station is matched by
    name only when no upstream location carries its id key. *)
Theorem matchStations_pairs_are_sound
    (dbStations : list DbStation) (openaqLocations : list OpenaqLocation) (m : Match) :
  plainInputs dbStations openaqLocations ->
  m ∈ matchedStations (matchStations dbStations openaqLocations) ->
  dbStation m ∈ dbStations /\ soundMatch openaqLocations m.
Proof.
  intros [Hplain _]. unfold matchStations.
  destruct (matchStations_loop openaqLocations dbStations
              {| matchedStations := []; unmatchedStations := [] |})
    as (ms & us & -> & Hms & _ & Hsub1 & _).
  cbn [matchedStations app]. intros Hm. split.
  - eapply elem_of_sublist; [|exact Hsub1]. apply list_elem_of_fmap. eauto.
  - specialize (Hms Hplain). rewrite Forall_forall in Hms. apply Hms, Hm.
Qed.

(** For local and upstream sites with ordinary keys, a station is left
    unmatched exactly when it is in the input and no upstream location
    carries its id key or its lower-cased name. *)
Theorem matchStations_unmatched_iff
    (dbStations : list DbStation) (openaqLocations : list OpenaqLocation)
    (station : DbStation) :
  plainInputs dbStations openaqLocations ->
  station ∈ unmatchedStations (matchStations dbStations openaqLocations)
  <-> station ∈ dbStations
      /\ keyAbsent openaqLocations (idKey (db_id station))
      /\ keyAbsent openaqLocations (nameKey (db_name station)).
Proof.
  intros [Hplain _]. unfold matchStations.
  destruct (matchStations_loop openaqLocations dbStations
              {| matchedStations := []; unmatchedStations := [] |})
    as (ms & us & -> & Hms & Hus & Hsub1 & Hsub2 & Hperm).
  specialize (Hms Hplain).
  cbn [unmatchedStations app]. rewrite Forall_forall in Hus.
  rewrite Forall_forall in Hms. split.
  - intros Hin. split; [eapply elem_of_sublist; eassumption|]. apply Hus, Hin.
  - intros (Hin & Hid & Hname).
    rewrite <- Hperm in Hin. apply elem_of_app in Hin.
    destruct Hin as [Hin | Hin]; [|exact Hin].
    apply list_elem_of_fmap in Hin. destruct Hin as (m & -> & Hm).
    destruct (Hms m Hm) as (location & _ & Hloc & Hkey). exfalso.
    destruct (matchType m).
    + destruct Hkey as (k & Hk & Hhas). rewrite (Hid k Hk _ Hloc) in Hhas. discriminate.
    + destruct Hkey as [(k & Hk & Hhas) _].
      rewrite (Hname k Hk _ Hloc) in Hhas. discriminate.
Qed.

Lemma matchStations_pairs_witness :
  plainInputs
    [{| db__id := 1; db_id := IdUndefined; db_name := Some "Main Street" |}]
    [{| loc_id := IdNum 1; loc_name := Some "MAIN STREET" |};
     {| loc_id := IdNum 2; loc_name := Some "main street" |}]
  /\ {| dbStation := {| db__id := 1; db_id := IdUndefined; db_name := Some "Main Street" |};
        openaqLocation := Stored {| loc_id := IdNum 2; loc_name := Some "main street" |};
        matchType := MatchName |}
     ∈ matchedStations
         (matchStations
            [{| db__id := 1; db_id := IdUndefined; db_name := Some "Main Street" |}]
            [{| loc_id := IdNum 1; loc_name := Some "MAIN STREET" |};
             {| loc_id := IdNum 2; loc_name := Some "main street" |}])
  /\ {| db__id := 1; db_id := IdUndefined; db_name := Some "Main Street" |}
     ∈ [{| db__id := 1; db_id := IdUndefined; db_name := Some "Main Street" |}]
  /\ soundMatch
       [{| loc_id := IdNum 1; loc_name := Some "MAIN STREET" |};
        {| loc_id := IdNum 2; loc_name := Some "main street" |}]
       {| dbStation := {| db__id := 1; db_id := IdUndefined; db_name := Some "Main Street" |};
          openaqLocation := Stored {| loc_id := IdNum 2; loc_name := Some "main street" |};
          matchType := MatchName |}.
Proof.
  assert (Hp : plainInputs
                 [{| db__id := 1; db_id := IdUndefined; db_name := Some "Main Street" |}]
                 [{| loc_id := IdNum 1; loc_name := Some "MAIN STREET" |};
                  {| loc_id := IdNum 2; loc_name := Some "main street" |}])
    by (split; vm_compute; reflexivity).
  assert (H : {| dbStation :=
                   {| db__id := 1; db_id := IdUndefined; db_name := Some "Main Street" |};
                 openaqLocation :=
                   Stored {| loc_id := IdNum 2; loc_name := Some "main street" |};
                 matchType := MatchName |}
              ∈ matchedStations
                  (matchStations
                     [{| db__id := 1; db_id := IdUndefined; db_name := Some "Main Street" |}]
                     [{| loc_id := IdNum 1; loc_name := Some "MAIN STREET" |};
                      {| loc_id := IdNum 2; loc_name := Some "main street" |}]))
    by (vm_compute; apply list_elem_of_here).
  split; [exact Hp|]. split; [exact H|].
  exact (matchStations_pairs_are_sound _ _ _ Hp H).
Defined.

Lemma matchStations_unmatched_witness :
  plainInputs
    [{| db__id := 1; db_id := IdNum 7; db_name := Some "Downtown" |};
     {| db__id := 3; db_id := IdNum 9; db_name := Some "Harbor" |}]
    [{| loc_id := IdNum 7; loc_name := Some "First" |}]
  /\ ({| db__id := 3; db_id := IdNum 9; db_name := Some "Harbor" |}
      ∈ unmatchedStations
          (matchStations
             [{| db__id := 1; db_id := IdNum 7; db_name := Some "Downtown" |};
              {| db__id := 3; db_id := IdNum 9; db_name := Some "Harbor" |}]
             [{| loc_id := IdNum 7; loc_name := Some "First" |}])
      <-> {| db__id := 3; db_id := IdNum 9; db_name := Some "Harbor" |}
          ∈ [{| db__id := 1; db_id := IdNum 7; db_name := Some "Downtown" |};
             {| db__id := 3; db_id := IdNum 9; db_name := Some "Harbor" |}]
          /\ keyAbsent [{| loc_id := IdNum 7; loc_name := Some "First" |}]
               (idKey (IdNum 9))
          /\ keyAbsent [{| loc_id := IdNum 7; loc_name := Some "First" |}]
               (nameKey (Some "Harbor")))
  /\ unmatchedStations
       (matchStations
          [{| db__id := 1; db_id := IdNum 7; db_name := Some "Downtown" |};
           {| db__id := 3; db_id := IdNum 9; db_name := Some "Harbor" |}]
          [{| loc_id := IdNum 7; loc_name := Some "First" |}])
     = [{| db__id := 3; db_id := IdNum 9; db_name := Some "Harbor" |}].
Proof.
  assert (Hp : plainInputs
                 [{| db__id := 1; db_id := IdNum 7; db_name := Some "Downtown" |};
                  {| db__id := 3; db_id := IdNum 9; db_name := Some "Harbor" |}]
                 [{| loc_id := IdNum 7; loc_name := Some "First" |}])
    by (split; vm_compute; reflexivity).
  split; [exact Hp|]. split.
  - exact (matchStations_unmatched_iff _ _
             {| db__id := 3; db_id := IdNum 9; db_name := Some "Harbor" |} Hp).
  - vm_compute. reflexivity.
Defined.

End MatcherFacts.

(** ** The retrying fetch of the index repair *)

Section LinearBackoff.
Context (env : Env).
Local Open Scope Z_scope.

Lemma linear_fetchAttempt_run (url : string) (attempt : Z) (w : World) :
  0 <= attempt ->
  exists r w',
    FixedIndex.fetchAttempt env url attempt w = (r, w')
    /\ clock w' = clock w + 1000 * attempt
    /\ fetchCount w' = S (fetchCount w)
    /\ noStoreAccess w w'
    /\ match r with
       | Ok body => attemptResult (network env url (fetchCount w)) = inl body
       | Throw e =>
           exists msg, e = ThrownError msg
                       /\ attemptResult (network env url (fetchCount w)) = inr msg
       end.
Proof.
  intros Ha. unfold FixedIndex.fetchAttempt, noStoreAccess, attemptResult.
  cbv [bind fetch responseJson resp_ok resp_status resp_json resp_text ret throw sleep].
  destruct (Z.gtb_spec attempt 0);
    destruct (network env url _) as [msg | status text [body|]]; simpl;
    try destruct ((200 <=? status) && (status <=? 299)); simpl;
    eexists _, _; (split; [reflexivity|]); simpl;
    repeat split; try lia; eauto.
Qed.

Lemma linear_fetchLoop_run (url : string) :
  forall (remaining : nat) (attempt : Z) (lastError : Thrown) (w : World),
  0 <= attempt ->
  exists (k : nat) r w',
    FixedIndex.fetchLoop env url remaining attempt lastError w = (r, w')
    /\ (k <= remaining)%nat
    /\ fetchCount w' = (fetchCount w + k)%nat
    /\ clock w' = clock w + 500 * Z.of_nat k * (2 * attempt + Z.of_nat k - 1)
    /\ noStoreAccess w w'
    /\ (forall i, (S i < k)%nat -> attemptFails (network env url (fetchCount w + i)))
    /\ match r with
       | Ok body =>
           exists j, k = S j
                     /\ attemptResult (network env url (fetchCount w + j)) = inl body
       | Throw e =>
           k = remaining
           /\ match remaining with
              | O => e = lastError
              | S j =>
                  exists msg,
                    e = ThrownError msg
                    /\ attemptResult (network env url (fetchCount w + j)) = inr msg
              end
       end.
Proof.
  induction remaining as [|n IH]; intros attempt lastError w Ha.
  - exists O, (Throw lastError), w. simpl. unfold noStoreAccess.
    rewrite Nat.add_0_r.
    split; [reflexivity|]. split; [lia|]. split; [lia|]. split; [lia|].
    split; [split; reflexivity|]. split; [intros i Hi; lia|]. split; reflexivity.
  - simpl FixedIndex.fetchLoop. unfold tryCatch.
    destruct (linear_fetchAttempt_run url attempt w Ha)
      as (r1 & w1 & Hrun & Hclock & Hcount & [Hstore Hops] & Hres).
    rewrite Hrun. destruct r1 as [body | e].
    + exists 1%nat, (Ok body), w1. split; [reflexivity|].
      unfold noStoreAccess. change (Z.of_nat 1) with 1.
      split; [lia|]. split; [lia|]. split; [lia|]. split; [split; assumption|].
      split; [intros i Hi; lia|].
      exists O. rewrite Nat.add_0_r. split; [reflexivity | exact Hres].
    + destruct Hres as (msg & -> & Hmsg). cbv [bind messageOf ret].
      destruct (IH (attempt + 1) (ThrownError msg) w1 ltac:(lia))
        as (k & r & w' & Hloop & Hk & Hc & Hcl & [Hs Ho] & Hfail & Hr).
      exists (S k), r, w'. split; [exact Hloop|].
      unfold noStoreAccess.
      split; [lia|]. split; [lia|]. split; [nia|]. split; [split; congruence|].
      split.
      * intros [|i] Hi.
        -- rewrite Nat.add_0_r. exists msg. exact Hmsg.
        -- replace (fetchCount w + S i)%nat with (fetchCount w1 + i)%nat by lia.
           apply Hfail. lia.
      * destruct r as [body | e].
        -- destruct Hr as (j & -> & Hbody). exists (S j). split; [reflexivity|].
           replace (fetchCount w + S j)%nat with (fetchCount w1 + j)%nat by lia.
           exact Hbody.
        -- destruct Hr as (-> & Hlast). split; [reflexivity|].
           destruct n as [|j].
           ++ exists msg. rewrite Nat.add_0_r. split; [exact Hlast | exact Hmsg].
           ++ destruct Hlast as (m & -> & Hm). exists m. split; [reflexivity|].
              replace (fetchCount w + S j)%nat with (fetchCount w1 + j)%nat by lia.
              exact Hm.
Qed.

(** The retrying fetch of the index repair, for every number of allowed
    attempts [n]: it sends [k <= n] requests and pauses
    [1000 * (1 + ... + (k - 1))] milliseconds in total, three seconds at
    most with the default of three attempts; every attempt before the
    last one sent has failed; it returns the parsed body of the first 2xx
    answer that parses, and raises only after [n] failed attempts, with
    the error of the last one, or with the undefined initial error when
    [n = 0]; it issues no store operation. *)
Theorem linear_fetchWithRetry_contract (url : string) (maxRetries : nat) (w : World) :
  exists (k : nat) r w',
    FixedIndex.fetchWithRetry env url maxRetries w = (r, w')
    /\ (k <= maxRetries)%nat
    /\ fetchCount w' = (fetchCount w + k)%nat
    /\ clock w' = clock w + 500 * Z.of_nat k * (Z.of_nat k - 1)
    /\ (maxRetries = 3%nat -> clock w' <= clock w + 3000)
    /\ noStoreAccess w w'
    /\ (forall i, (S i < k)%nat -> attemptFails (network env url (fetchCount w + i)))
    /\ match r with
       | Ok body =>
           exists j, k = S j
                     /\ attemptResult (network env url (fetchCount w + j)) = inl body
       | Throw e =>
           k = maxRetries
           /\ match maxRetries with
              | O => e = ThrownUndefined
              | S j =>
                  exists msg,
                    e = ThrownError msg
                    /\ attemptResult (network env url (fetchCount w + j)) = inr msg
              end
       end.
Proof.
  unfold FixedIndex.fetchWithRetry.
  destruct (linear_fetchLoop_run url maxRetries 0 ThrownUndefined w ltac:(lia))
    as (k & r & w' & Hrun & Hk & Hc & Hcl & Hna & Hfail & Hr).
  exists k, r, w'. split; [exact Hrun|]. split; [exact Hk|]. split; [exact Hc|].
  split; [rewrite Hcl; f_equal; lia|].
  split; [|split; [exact Hna|split; [exact Hfail | exact Hr]]].
  intros ->. rewrite Hcl.
  assert (Hcases : (k = 0 \/ k = 1 \/ k = 2 \/ k = 3)%nat) by lia.
  destruct Hcases as [-> | [-> | [-> | ->]]]; simpl; lia.
Qed.

End LinearBackoff.

(** ** The clock *)

Section ClockAdvances.
Context (env : Env).
Local Open Scope Z_scope.

#[local] Instance clockAdvances_preorder : PreOrder clockAdvances.
Proof.
  split; [intros w; unfold clockAdvances; lia|].
  intros a b c H1 H2. unfold clockAdvances in *. lia.
Qed.

Lemma delayMs_nonneg (attempt : Z) : 0 <= delayMs attempt.
Proof. unfold delayMs. pose proof (Z.pow_nonneg 2 attempt ltac:(lia)). lia. Qed.

Lemma newDate_clockAdvances : respects clockAdvances newDate.
Proof. intros w r w' H. injection H as _ <-. unfold clockAdvances. simpl. lia. Qed.

Lemma sleep_clockAdvances (ms : Z) : 0 <= ms -> respects clockAdvances (sleep ms).
Proof. intros Hms w r w' H. injection H as _ <-. unfold clockAdvances. simpl. lia. Qed.

Lemma mathRandom_clockAdvances : respects clockAdvances (mathRandom env).
Proof. intros w r w' H. injection H as _ <-. unfold clockAdvances. simpl. lia. Qed.

Lemma readStore_clockAdvances : respects clockAdvances readStore.
Proof. intros w r w' H. injection H as _ <-. unfold clockAdvances. simpl. lia. Qed.

Lemma writeStore_clockAdvances (f : Store -> Store) : respects clockAdvances (writeStore f).
Proof. intros w r w' H. injection H as _ <-. unfold clockAdvances. simpl. lia. Qed.

Lemma storeCall_clockAdvances (c : Collection) : respects clockAdvances (storeCall env c).
Proof.
  intros w r w' H. unfold storeCall in H.
  destruct (storeFault env c (storeOps w)); injection H as _ <-;
    unfold clockAdvances; simpl; lia.
Qed.

Lemma fetch_clockAdvances (url : string) : respects clockAdvances (fetch env url).
Proof.
  intros w r w' H. unfold fetch in H.
  destruct (network env url (fetchCount w)); injection H as _ <-;
    unfold clockAdvances; simpl; lia.
Qed.

Ltac clock_leaf :=
  first [ apply newDate_clockAdvances
        | apply sleep_clockAdvances; first [apply delayMs_nonneg | lia]
        | apply mathRandom_clockAdvances | apply readStore_clockAdvances
        | apply writeStore_clockAdvances | apply storeCall_clockAdvances
        | apply fetch_clockAdvances ].

Lemma fetchLoop_clockAdvances (url : string) (remaining : nat) :
  forall attempt lastError,
    respects clockAdvances (fetchLoop env url remaining attempt lastError).
Proof.
  induction remaining as [|n IH]; intros attempt lastError; simpl.
  - apply respects_throw.
  - unfold fetchAttempt, responseJson.
    respects_with ltac:(first [clock_leaf | apply IH]).
Qed.

Lemma processStation_clockAdvances (station : Station) (currentTime : Z) :
  respects clockAdvances (processStation env station currentTime).
Proof.
  unfold processStation, getLatestMeasurements, fetchWithRetry, findSensors, processSensor,
    resolveValue, generateSimulatedValue, writeSensorValue, findOneMeasurement,
    insertOneMeasurement, updateOneSensor, updateOneStation, parameterOf.
  respects_with ltac:(first [clock_leaf | apply fetchLoop_clockAdvances]).
Qed.

Lemma runPage_clockAdvances (allLaStations : list Station) (offset maxPerRun : Z) :
  respects clockAdvances (runPage env allLaStations offset maxPerRun).
Proof.
  unfold runPage, processBatch, processBatchStation, upsertProgress.
  respects_with ltac:(first [clock_leaf | apply processStation_clockAdvances]).
Qed.

End ClockAdvances.

(** ** The handler *)

Section HandlerFacts.
Context (env : Env).
Local Open Scope Z_scope.

Lemma onError_run (e : Thrown) (w : World) :
  (exists msg, e = ThrownError msg) ->
  exists msg,
    e = ThrownError msg
    /\ onError e w = (Ok {| statusCode := 500; body := BodyFailed msg |}, w).
Proof. intros [msg ->]. exists msg. split; reflexivity. Qed.

(** The [try] block from [client.connect()] on, with its [catch]: the
    answer it prepares and the world it leaves to the [finally] block. *)
Lemma collect_run (w : World) :
  exists prepared wc,
    tryCatch (collect env) onError w = (Ok prepared, wc)
    /\ match storeFault env Client (storeOps w),
             storeFault env Stations (S (storeOps w)) with
       | Some msg, _ =>
           prepared = {| statusCode := 500; body := BodyFailed msg |}
           /\ quiet w wc /\ storeOps wc = S (storeOps w)
       | None, Some msg =>
           prepared = {| statusCode := 500; body := BodyFailed msg |}
           /\ quiet w wc /\ storeOps wc = S (S (storeOps w))
       | None, None =>
           match List.filter inLaBounds (stationCollection (store w)) with
           | [] =>
               prepared = {| statusCode := 404; body := BodyNoStations |}
               /\ quiet w wc /\ storeOps wc = S (S (storeOps w))
           | allLaStations =>
               exists r w2,
                 quiet w w2
                 /\ runPage env allLaStations (STATIONS_OFFSET env)
                      (MAX_STATIONS_PER_RUN env) w2 = (r, wc)
                 /\ answerOf r prepared
           end
       end.
Proof.
  unfold collect. cbv [tryCatch bind storeCall readStore].
  destruct (storeFault env Client (storeOps w)) as [msg|].
  { eexists _, _. split; [reflexivity|]. unfold quiet. simpl. auto. }
  cbn [storeOps].
  destruct (storeFault env Stations (S (storeOps w))) as [msg|].
  { eexists _, _. split; [reflexivity|]. unfold quiet. simpl. auto. }
  cbn [store].
  destruct (List.filter inLaBounds (stationCollection (store w))) as [|station rest].
  { eexists _, _. split; [reflexivity|]. unfold quiet. simpl. auto. }
  cbn [length Nat.eqb].
  match goal with
  | |- context [runPage env ?l ?o ?m ?w2] =>
      destruct (runPage env l o m w2) as [[results|e] w'] eqn:Hrun
  end.
  - eexists _, w'. split; [reflexivity|].
    eexists (Ok results), _. split; [|split; [exact Hrun | reflexivity]].
    unfold quiet. simpl. auto.
  - destruct (onError_run e w' (raisesErrors_runPage env _ _ _ _ _ _ Hrun))
      as (msg & -> & Hmsg).
    eexists _, w'. split; [exact Hmsg|].
    eexists (Throw (ThrownError msg)), _. split; [|split; [exact Hrun|]].
    + unfold quiet. simpl. auto.
    + exists msg. split; reflexivity.
Qed.

(** Every run of the handler with the configuration set: the
    constructor, then the [try] block with its [catch], then
    [client.close()]. *)
Lemma handler_run (w : World) :
  isSet (MONGO_URI env) = true -> isSet (OPENAQ_API_KEY env) = true ->
  match storeFault env ClientNew (storeOps w) with
  | Some msg =>
      exists w',
        handler env w = (Ok {| statusCode := 500; body := BodyFailed msg |}, w')
        /\ quiet w w'
  | None =>
      exists w1 prepared wc w',
        quiet w w1 /\ storeOps w1 = S (storeOps w)
        /\ tryCatch (collect env) onError w1 = (Ok prepared, wc)
        /\ handler env w = (afterClose env (storeOps wc) prepared, w')
        /\ quiet wc w' /\ storeOps w' = S (storeOps wc)
  end.
Proof.
  intros Hm Hk.
  set (w1 := {| store := store w; clock := clock w; randomIdx := randomIdx w;
                fetchCount := fetchCount w; storeOps := S (storeOps w);
                trace := trace w |}).
  assert (Hnew :
    tryCatch (storeCall env ClientNew ;;; ret None)
      (fun error => response <- onError error ;; ret (Some response)) w
    = (Ok match storeFault env ClientNew (storeOps w) with
          | Some msg => Some {| statusCode := 500; body := BodyFailed msg |}
          | None => None
          end, w1)).
  { cbv [tryCatch bind storeCall ret onError messageOf].
    destruct (storeFault env ClientNew (storeOps w)); reflexivity. }
  destruct (storeFault env ClientNew (storeOps w)) as [msg|];
    unfold handler; rewrite Hm, Hk; cbn [negb orb]; unfold bind at 1; rewrite Hnew.
  - exists w1. split; [reflexivity|]. unfold quiet. simpl. auto.
  - destruct (collect_run w1) as (prepared & wc & Hrun & _).
    exists w1, prepared, wc. unfold tryFinally. rewrite Hrun.
    unfold storeCall, afterClose.
    destruct (storeFault env ClientClose (storeOps wc));
      (eexists; split; [unfold quiet; simpl; auto|]);
      (split; [reflexivity|]); (split; [reflexivity|]);
      (split; [reflexivity|]); unfold quiet; simpl; auto.
Qed.

Lemma quiet_trans (a b c : World) : quiet a b -> quiet b c -> quiet a c.
Proof. unfold quiet. intros (H1 & H2 & H3) (H4 & H5 & H6). repeat split; congruence. Qed.

(** The five ways a run of the handler with the configuration set can
    go. *)
Lemma handler_cases (w : World) :
  isSet (MONGO_URI env) = true -> isSet (OPENAQ_API_KEY env) = true ->
  match storeFault env ClientNew (storeOps w) with
  | Some msg =>
      exists w',
        handler env w = (Ok {| statusCode := 500; body := BodyFailed msg |}, w')
        /\ quiet w w'
  | None =>
      match storeFault env Client (S (storeOps w)),
            storeFault env Stations (S (S (storeOps w))) with
      | Some msg, _ =>
          exists w',
            handler env w
            = (afterClose env (S (S (storeOps w)))
                 {| statusCode := 500; body := BodyFailed msg |}, w')
            /\ quiet w w' /\ storeOps w' = S (S (S (storeOps w)))
      | None, Some msg =>
          exists w',
            handler env w
            = (afterClose env (S (S (S (storeOps w))))
                 {| statusCode := 500; body := BodyFailed msg |}, w')
            /\ quiet w w' /\ storeOps w' = S (S (S (S (storeOps w))))
      | None, None =>
          match List.filter inLaBounds (stationCollection (store w)) with
          | [] =>
              exists w',
                handler env w
                = (afterClose env (S (S (S (storeOps w))))
                     {| statusCode := 404; body := BodyNoStations |}, w')
                /\ quiet w w' /\ storeOps w' = S (S (S (S (storeOps w))))
          | allLaStations =>
              exists rp w2 wp prepared w',
                quiet w w2
                /\ runPage env allLaStations (STATIONS_OFFSET env)
                     (MAX_STATIONS_PER_RUN env) w2 = (rp, wp)
                /\ answerOf rp prepared
                /\ handler env w = (afterClose env (storeOps wp) prepared, w')
                /\ quiet wp w' /\ storeOps w' = S (storeOps wp)
          end
      end
  end.
Proof.
  intros Hm Hk. pose proof (handler_run w Hm Hk) as H.
  destruct (storeFault env ClientNew (storeOps w)) as [msg|]; [exact H|].
  destruct H as (w1 & prepared & wc & w' & Hq1 & Hops1 & Hrun & Hh & Hq & Hops).
  destruct (collect_run w1) as (prepared' & wc' & Hrun' & Hcases).
  rewrite Hrun in Hrun'. injection Hrun' as <- <-.
  destruct Hq1 as (Hs1 & Hc1 & Hf1). rewrite Hops1, Hs1 in Hcases.
  assert (Hq1 : quiet w w1) by (unfold quiet; auto).
  destruct (storeFault env Client (S (storeOps w))) as [msg|].
  { destruct Hcases as (-> & Hqc & Hopsc). exists w'. rewrite Hopsc in Hh, Hops.
    split; [exact Hh|]. split; [eauto using quiet_trans | exact Hops]. }
  destruct (storeFault env Stations (S (S (storeOps w)))) as [msg|].
  { destruct Hcases as (-> & Hqc & Hopsc). exists w'. rewrite Hopsc in Hh, Hops.
    split; [exact Hh|]. split; [eauto using quiet_trans | exact Hops]. }
  destruct (List.filter inLaBounds (stationCollection (store w))) as [|station rest].
  { destruct Hcases as (-> & Hqc & Hopsc). exists w'. rewrite Hopsc in Hh, Hops.
    split; [exact Hh|]. split; [eauto using quiet_trans | exact Hops]. }
  destruct Hcases as (rp & w2 & Hq2 & Hpage & Hans).
  exists rp, w2, wc, prepared, w'. eauto 10 using quiet_trans.
Qed.

(** What follows from a run that ended with [client.close()] as store
    operation [n] after the answer [prepared]. *)
Lemma afterClose_cases (n : nat) (prepared : HandlerResponse) :
  (afterClose env n prepared = Ok prepared /\ storeFault env ClientClose n = None)
  \/ (exists msg,
        afterClose env n prepared = Throw (ThrownError msg)
        /\ storeFault env ClientClose n = Some msg).
Proof.
  unfold afterClose. destruct (storeFault env ClientClose n) as [msg|]; eauto.
Qed.

(** The handler answers unless closing the client fails.  Whatever the
    configuration, the store and the upstream do, a run either returns
    one of four responses (500 for a missing configuration, 500 with the
    message of the error raised, 404 when the query finds no station,
    200 with the statistics of the page) or rejects, and it rejects only
    with the error of a failed [client.close()], its last store
    operation, which replaces the answer prepared.  When [close] never
    fails the handler always answers.  A missing configuration is
    answered before anything is done and is the only case answered with
    the configuration error; 404 is answered only when no stored station
    lies in the bounding box. *)
Theorem handler_answers_unless_close_fails (w : World) :
  exists r w',
    handler env w = (r, w')
    /\ (forall resp,
          r = Ok resp ->
          resp = {| statusCode := 500; body := BodyConfigurationError |}
          \/ (exists msg, resp = {| statusCode := 500; body := BodyFailed msg |})
          \/ resp = {| statusCode := 404; body := BodyNoStations |}
          \/ (exists results,
                resp = {| statusCode := 200; body := BodyCompleted results |}))
    /\ (forall e,
          r = Throw e ->
          exists msg n,
            e = ThrownError msg
            /\ storeFault env ClientClose n = Some msg
            /\ storeOps w' = S n)
    /\ ((forall n, storeFault env ClientClose n = None) -> exists resp, r = Ok resp)
    /\ (isSet (MONGO_URI env) = false \/ isSet (OPENAQ_API_KEY env) = false ->
        r = Ok {| statusCode := 500; body := BodyConfigurationError |} /\ w' = w)
    /\ (forall resp,
          r = Ok resp -> body resp = BodyConfigurationError ->
          isSet (MONGO_URI env) = false \/ isSet (OPENAQ_API_KEY env) = false)
    /\ (forall resp,
          r = Ok resp -> body resp = BodyNoStations ->
          List.filter inLaBounds (stationCollection (store w)) = []).
Proof.
  destruct (isSet (MONGO_URI env)) eqn:Hm; [destruct (isSet (OPENAQ_API_KEY env)) eqn:Hk|].
  - assert (Hclosed : forall n prepared w',
      handler env w = (afterClose env n prepared, w') ->
      storeOps w' = S n ->
      (exists msg, prepared = {| statusCode := 500; body := BodyFailed msg |})
      \/ (prepared = {| statusCode := 404; body := BodyNoStations |}
          /\ List.filter inLaBounds (stationCollection (store w)) = [])
      \/ (exists results,
            prepared = {| statusCode := 200; body := BodyCompleted results |}) ->
      exists r w',
        handler env w = (r, w')
        /\ (forall resp,
              r = Ok resp ->
              resp = {| statusCode := 500; body := BodyConfigurationError |}
              \/ (exists msg, resp = {| statusCode := 500; body := BodyFailed msg |})
              \/ resp = {| statusCode := 404; body := BodyNoStations |}
              \/ (exists results,
                    resp = {| statusCode := 200; body := BodyCompleted results |}))
        /\ (forall e,
              r = Throw e ->
              exists msg n,
                e = ThrownError msg
                /\ storeFault env ClientClose n = Some msg
                /\ storeOps w' = S n)
        /\ ((forall n, storeFault env ClientClose n = None) -> exists resp, r = Ok resp)
        /\ (true = false \/ true = false ->
            r = Ok {| statusCode := 500; body := BodyConfigurationError |} /\ w' = w)
        /\ (forall resp,
              r = Ok resp -> body resp = BodyConfigurationError ->
              true = false \/ true = false)
        /\ (forall resp,
              r = Ok resp -> body resp = BodyNoStations ->
              List.filter inLaBounds (stationCollection (store w)) = [])).
    { intros n prepared w' Hh Hops Hforms.
      exists (afterClose env n prepared), w'. split; [exact Hh|].
      destruct (afterClose_cases n prepared) as [[-> Hc] | (m & -> & Hc)].
      - split.
        { intros resp Hr. injection Hr as <-. right.
          destruct Hforms as [Hf | [[Hf _] | Hf]]; auto. }
        split; [intros e He; discriminate|].
        split; [eauto|].
        split; [intros [Hx | Hx]; discriminate|].
        split; intros resp Hr Hb; injection Hr as <-.
        + destruct Hforms as [[msg ->] | [[-> _] | [results ->]]]; discriminate.
        + destruct Hforms as [[msg ->] | [[-> Hnil] | [results ->]]];
            first [discriminate | exact Hnil].
      - split; [intros resp Hr; discriminate|].
        split; [intros e He; injection He as <-; eauto|].
        split; [intros Hall; rewrite Hall in Hc; discriminate|].
        split; [intros [Hx | Hx]; discriminate|].
        split; intros resp Hr; discriminate. }
    pose proof (handler_cases w Hm Hk) as H.
    destruct (storeFault env ClientNew (storeOps w)) as [msg|].
    { destruct H as (w' & Hh & _).
      exists (Ok {| statusCode := 500; body := BodyFailed msg |}), w'.
      split; [exact Hh|].
      split; [intros resp Hr; injection Hr as <-; right; left; eauto|].
      split; [intros e He; discriminate|].
      split; [eauto|].
      split; [intros [Hx | Hx]; discriminate|].
      split; intros resp Hr Hb; injection Hr as <-; discriminate. }
    destruct (storeFault env Client (S (storeOps w))) as [msg|].
    { destruct H as (w' & Hh & _ & Hops). eapply Hclosed; eauto. }
    destruct (storeFault env Stations (S (S (storeOps w)))) as [msg|].
    { destruct H as (w' & Hh & _ & Hops). eapply Hclosed; eauto. }
    destruct (List.filter inLaBounds (stationCollection (store w))) as [|station rest].
    { destruct H as (w' & Hh & _ & Hops). eapply Hclosed; eauto. }
    destruct H as (rp & w2 & wp & prepared & w' & _ & _ & Hans & Hh & _ & Hops).
    eapply Hclosed; [exact Hh | exact Hops |].
    destruct rp as [results|e]; simpl in Hans.
    + right. right. eauto.
    + destruct Hans as (msg & _ & ->). left. eauto.
  - exists (Ok {| statusCode := 500; body := BodyConfigurationError |}), w.
    unfold handler. rewrite Hm, Hk. cbn [negb orb].
    split; [reflexivity|].
    split; [intros resp Hr; injection Hr as <-; left; reflexivity|].
    split; [intros e He; discriminate|].
    split; [eauto|]. split; [auto|].
    split; intros resp Hr Hb; injection Hr as <-; [auto | discriminate].
  - exists (Ok {| statusCode := 500; body := BodyConfigurationError |}), w.
    unfold handler. rewrite Hm. cbn [negb orb].
    split; [reflexivity|].
    split; [intros resp Hr; injection Hr as <-; left; reflexivity|].
    split; [intros e He; discriminate|].
    split; [eauto|]. split; [auto|].
    split; intros resp Hr Hb; injection Hr as <-; [auto | discriminate].
Qed.

(** A run of the handler either ends before the page, having stored,
    requested and waited for nothing and answering without statistics,
    or it runs the page of the stations the query returned and then
    closes the client. *)
Lemma handler_quiet_or_page (w : World) :
  exists r w',
    handler env w = (r, w')
    /\ ((quiet w w'
         /\ forall resp stats, r = Ok resp -> body resp <> BodyCompleted stats)
        \/ (isSet (MONGO_URI env) = true /\ isSet (OPENAQ_API_KEY env) = true
            /\ storeFault env ClientNew (storeOps w) = None
            /\ storeFault env Client (S (storeOps w)) = None
            /\ storeFault env Stations (S (S (storeOps w))) = None
            /\ List.filter inLaBounds (stationCollection (store w)) <> []
            /\ exists rp w2 wp prepared,
                 quiet w w2
                 /\ runPage env (List.filter inLaBounds (stationCollection (store w)))
                      (STATIONS_OFFSET env) (MAX_STATIONS_PER_RUN env) w2 = (rp, wp)
                 /\ answerOf rp prepared
                 /\ r = afterClose env (storeOps wp) prepared
                 /\ quiet wp w')).
Proof.
  assert (Hearly : forall n prepared w',
    handler env w = (afterClose env n prepared, w') -> quiet w w' ->
    (forall stats, body prepared <> BodyCompleted stats) ->
    exists r w',
      handler env w = (r, w')
      /\ ((quiet w w'
           /\ forall resp stats, r = Ok resp -> body resp <> BodyCompleted stats)
          \/ (isSet (MONGO_URI env) = true /\ isSet (OPENAQ_API_KEY env) = true
              /\ storeFault env ClientNew (storeOps w) = None
              /\ storeFault env Client (S (storeOps w)) = None
              /\ storeFault env Stations (S (S (storeOps w))) = None
              /\ List.filter inLaBounds (stationCollection (store w)) <> []
              /\ exists rp w2 wp prepared,
                   quiet w w2
                   /\ runPage env (List.filter inLaBounds (stationCollection (store w)))
                        (STATIONS_OFFSET env) (MAX_STATIONS_PER_RUN env) w2 = (rp, wp)
                   /\ answerOf rp prepared
                   /\ r = afterClose env (storeOps wp) prepared
                   /\ quiet wp w'))).
  { intros n prepared w' Hh Hq Hbody. exists (afterClose env n prepared), w'.
    split; [exact Hh|]. left. split; [exact Hq|].
    intros resp stats Hr.
    destruct (afterClose_cases n prepared) as [[Hc _] | (m & Hc & _)];
      rewrite Hc in Hr; [injection Hr as <-; apply Hbody | discriminate]. }
  destruct (isSet (MONGO_URI env)) eqn:Hm; [destruct (isSet (OPENAQ_API_KEY env)) eqn:Hk|].
  - pose proof (handler_cases w Hm Hk) as H.
    destruct (storeFault env ClientNew (storeOps w)) as [msg|].
    { destruct H as (w' & Hh & Hq). eexists _, w'. split; [exact Hh|]. left.
      split; [exact Hq|]. intros resp stats Hr. injection Hr as <-. discriminate. }
    destruct (storeFault env Client (S (storeOps w))) as [msg|].
    { destruct H as (w' & Hh & Hq & _). eapply Hearly; eauto; discriminate. }
    destruct (storeFault env Stations (S (S (storeOps w)))) as [msg|].
    { destruct H as (w' & Hh & Hq & _). eapply Hearly; eauto; discriminate. }
    destruct (List.filter inLaBounds (stationCollection (store w)))
      as [|station rest] eqn:Hall.
    { destruct H as (w' & Hh & Hq & _). eapply Hearly; eauto; discriminate. }
    destruct H as (rp & w2 & wp & prepared & w' & Hq2 & Hpage & Hans & Hh & Hq & _).
    eexists _, w'. split; [exact Hh|]. right.
    repeat (split; [first [reflexivity | discriminate]|]).
    exists rp, w2, wp, prepared. auto.
  - exists (Ok {| statusCode := 500; body := BodyConfigurationError |}), w.
    unfold handler. rewrite Hm, Hk. split; [reflexivity|]. left.
    split; [unfold quiet; auto|]. intros resp stats Hr. injection Hr as <-. discriminate.
  - exists (Ok {| statusCode := 500; body := BodyConfigurationError |}), w.
    unfold handler. rewrite Hm. split; [reflexivity|]. left.
    split; [unfold quiet; auto|]. intros resp stats Hr. injection Hr as <-. discriminate.
Qed.

(** Whatever the configuration, the store and the upstream do, and
    whether the handler answers or rejects, a run only appends to the
    measurement collection, and every Measurement it appends carries one
    and the same hour-aligned timestamp, that of an instant of the run;
    its value is whatever the upstream sent for the sensor, but neither
    [null] nor absent, and it is a number when the Measurement is flagged
    as simulated.  Nothing is changed or removed, unique keys stay
    unique, and the sensors and the stations keep their number, order and
    identity. *)
Theorem handler_only_appends_measurements_of_one_hour (w : World) :
  exists r w' added t,
    handler env w = (r, w')
    /\ clock w <= t <= clock w'
    /\ measurementCollection (store w')
       = (measurementCollection (store w) ++ added)%list
    /\ Forall (stampedAt (alignToHour (localTZA env) t)) added
    /\ (uniqueKeys (measurementCollection (store w))
        -> uniqueKeys (measurementCollection (store w')))
    /\ sensorIdentity <$> sensorCollection (store w')
       = sensorIdentity <$> sensorCollection (store w)
    /\ stationIdentity <$> stationCollection (store w')
       = stationIdentity <$> stationCollection (store w).
Proof.
  destruct (handler_quiet_or_page w) as (r & w' & Hh & [[(Hs & Hc & _) _] | Hpage]).
  - exists r, w', [], (clock w). split; [exact Hh|]. rewrite Hs, Hc, app_nil_r.
    split; [lia|]. repeat split; auto.
  - destruct Hpage as (_ & _ & _ & _ & _ & _ & rp & w2 & wp & prepared
                       & (Hs2 & Hc2 & _) & Hrun & _ & _ & (Hs' & Hc' & _)).
    pose proof (runPage_growsBy env _ _ _ _ _ _ Hrun) as Hgrow.
    pose proof (runPage_clockAdvances env _ _ _ _ _ _ Hrun) as Hclock.
    unfold growsBy, grows in Hgrow. unfold clockAdvances in Hclock.
    rewrite Hs2 in Hgrow. rewrite <- Hs' in Hgrow. rewrite <- Hc' in Hclock.
    destruct Hgrow as ((added & Hadd & Hall) & Huniq & Hsens & Hstat).
    exists r, w', added, (clock w2). split; [exact Hh|].
    split; [lia|]. repeat split; assumption.
Qed.

(** With the configuration set, the exits of the handler before the page
    do no work: when [new MongoClient] throws the answer is 500 with its
    message and nothing else is done; when the connection or the
    stations query fails the answer prepared is 500 with the message of
    that failure, and when the query finds no station in the bounding box
    it is 404, and then [client.close()] is the next store operation: the
    handler returns the answer prepared, or rejects with the error of
    [close].  In all cases the store is as it was, no request was sent
    and no time was spent waiting. *)
Theorem handler_early_exits_do_no_work (w : World) :
  isSet (MONGO_URI env) = true -> isSet (OPENAQ_API_KEY env) = true ->
  storeFault env ClientNew (storeOps w) <> None
  \/ storeFault env Client (S (storeOps w)) <> None
  \/ storeFault env Stations (S (S (storeOps w))) <> None
  \/ List.filter inLaBounds (stationCollection (store w)) = [] ->
  exists r w',
    handler env w = (r, w')
    /\ store w' = store w /\ fetchCount w' = fetchCount w /\ clock w' = clock w
    /\ r = match storeFault env ClientNew (storeOps w) with
           | Some msg => Ok {| statusCode := 500; body := BodyFailed msg |}
           | None =>
               match storeFault env Client (S (storeOps w)),
                     storeFault env Stations (S (S (storeOps w))) with
               | Some msg, _ =>
                   afterClose env (S (S (storeOps w)))
                     {| statusCode := 500; body := BodyFailed msg |}
               | None, Some msg =>
                   afterClose env (S (S (S (storeOps w))))
                     {| statusCode := 500; body := BodyFailed msg |}
               | None, None =>
                   afterClose env (S (S (S (storeOps w))))
                     {| statusCode := 404; body := BodyNoStations |}
               end
           end.
Proof.
  intros Hm Hk Hexit. pose proof (handler_cases w Hm Hk) as H.
  destruct (storeFault env ClientNew (storeOps w)) as [msg|].
  { destruct H as (w' & Hh & Hs & Hc & Hf). eexists _, w'. eauto. }
  destruct (storeFault env Client (S (storeOps w))) as [msg|].
  { destruct H as (w' & Hh & (Hs & Hc & Hf) & _). eexists _, w'. eauto. }
  destruct (storeFault env Stations (S (S (storeOps w)))) as [msg|].
  { destruct H as (w' & Hh & (Hs & Hc & Hf) & _). eexists _, w'. eauto. }
  destruct Hexit as [Hexit | [Hexit | [Hexit | Hexit]]]; try congruence.
  rewrite Hexit in H.
  destruct H as (w' & Hh & (Hs & Hc & Hf) & _). eexists _, w'. eauto.
Qed.

(** With the configuration set, the client constructed, connected and
    closed without failure, the stations query succeeding, the progress
    collection accepting writes and at least one station in the bounding
    box, the handler answers 200 whatever the upstream and the sensor,
    measurement and station operations do, and the statistics it returns
    count every station of the page once, as successful or as failed. *)
Theorem handler_completes_on_working_store (w : World) :
  isSet (MONGO_URI env) = true -> isSet (OPENAQ_API_KEY env) = true ->
  storeFault env ClientNew (storeOps w) = None ->
  storeFault env Client (S (storeOps w)) = None ->
  storeFault env Stations (S (S (storeOps w))) = None ->
  progressWritable env ->
  (forall n, storeFault env ClientClose n = None) ->
  List.filter inLaBounds (stationCollection (store w)) <> [] ->
  exists results w',
    handler env w = (Ok {| statusCode := 200; body := BodyCompleted results |}, w')
    /\ total results
       = Z.of_nat (length (pageOf (List.filter inLaBounds (stationCollection (store w)))
                             (STATIONS_OFFSET env) (MAX_STATIONS_PER_RUN env)))
    /\ successful results + failed results = total results
    /\ paging results
       = pagingOf (List.filter inLaBounds (stationCollection (store w)))
           (STATIONS_OFFSET env) (MAX_STATIONS_PER_RUN env).
Proof.
  intros Hm Hk Hn Hc Hq Hprog Hclose Hne.
  pose proof (handler_cases w Hm Hk) as H. rewrite Hn, Hc, Hq in H.
  destruct (List.filter inLaBounds (stationCollection (store w))) as [|station rest];
    [congruence|].
  destruct H as (rp & w2 & wp & prepared & w' & _ & Hrun & Hans & Hh & _).
  destruct (runPage_completes env (station :: rest) (STATIONS_OFFSET env)
              (MAX_STATIONS_PER_RUN env) w2 Hprog)
    as (results & w'' & Hrun' & Htot & Hsum & Hpag & _).
  rewrite Hrun' in Hrun. injection Hrun as <- <-. simpl in Hans. subst prepared.
  unfold afterClose in Hh. rewrite Hclose in Hh.
  exists results, w'. split; [exact Hh|].
  split; [exact Htot|]. split; [lia | exact Hpag].
Qed.

(** A run of the handler sends at most three requests for each station
    of its page, whatever the upstream answers and whatever the store
    does, hence at most three times [MAX_STATIONS_PER_RUN] for a
    non-negative offset and page size; it sends none when it ends before
    the page: on a missing configuration, on a failure of the
    constructor, of the connection or of the stations query, and when
    the query finds no station. *)
Theorem handler_request_budget (w : World) :
  exists r w',
    handler env w = (r, w')
    /\ (fetchCount w <= fetchCount w')%nat
    /\ (fetchCount w'
        <= fetchCount w
           + 3 * length (pageOf (List.filter inLaBounds (stationCollection (store w)))
                           (STATIONS_OFFSET env) (MAX_STATIONS_PER_RUN env)))%nat
    /\ (0 <= STATIONS_OFFSET env -> 0 <= MAX_STATIONS_PER_RUN env ->
        Z.of_nat (fetchCount w') <= Z.of_nat (fetchCount w) + 3 * MAX_STATIONS_PER_RUN env)
    /\ (isSet (MONGO_URI env) = false \/ isSet (OPENAQ_API_KEY env) = false
        \/ storeFault env ClientNew (storeOps w) <> None
        \/ storeFault env Client (S (storeOps w)) <> None
        \/ storeFault env Stations (S (S (storeOps w))) <> None
        \/ List.filter inLaBounds (stationCollection (store w)) = [] ->
        fetchCount w' = fetchCount w).
Proof.
  assert (Hpage : 0 <= STATIONS_OFFSET env -> 0 <= MAX_STATIONS_PER_RUN env ->
    Z.of_nat (length (pageOf (List.filter inLaBounds (stationCollection (store w)))
                        (STATIONS_OFFSET env) (MAX_STATIONS_PER_RUN env)))
    <= MAX_STATIONS_PER_RUN env).
  { intros Ho Hmax. rewrite pageOf_length by assumption. unfold endOffsetOf. lia. }
  destruct (handler_quiet_or_page w) as (r & w' & Hh & [[(_ & _ & Hf) _] | Hrun]).
  - exists r, w'. split; [exact Hh|]. rewrite Hf.
    split; [lia|]. split; [lia|].
    split; [intros Ho Hmax; specialize (Hpage Ho Hmax); lia | reflexivity].
  - destruct Hrun as (Hm & Hk & Hn & Hc & Hq & Hne & rp & w2 & wp & prepared
                      & (_ & _ & Hf2) & Hrun & _ & _ & (_ & _ & Hf')).
    pose proof (runPage_sends env _ _ _ _ _ _ Hrun) as Hsends.
    rewrite Hf2 in Hsends. rewrite <- Hf' in Hsends.
    exists r, w'. split; [exact Hh|]. split; [lia|]. split; [lia|].
    split; [intros Ho Hmax; specialize (Hpage Ho Hmax); lia|].
    intros [Hx | [Hx | [Hx | [Hx | [Hx | Hx]]]]]; congruence.
Qed.

(** Whenever the handler answers with statistics, the status is 200 and
    the statistics are those of its page: every station of the page is
    counted once, as successful or as failed; the counts by failure
    reason add up to the number of failed stations, are at least one
    where present and use no other name than the five failure reasons;
    and every successful station accounts for at least one created
    record, every created record for a processed sensor. *)
Theorem handler_statistics_are_consistent (w : World) :
  exists r w',
    handler env w = (r, w')
    /\ forall resp stats,
         r = Ok resp ->
         body resp = BodyCompleted stats ->
         statusCode resp = 200
         /\ total stats
            = Z.of_nat (length (pageOf (List.filter inLaBounds (stationCollection (store w)))
                                  (STATIONS_OFFSET env) (MAX_STATIONS_PER_RUN env)))
         /\ successful stats + failed stats = total stats
         /\ 0 <= successful stats /\ 0 <= failed stats
         /\ failed stats
            = countOf stats "missing_id" + countOf stats "no_data"
              + countOf stats "no_sensors" + countOf stats "no_new_data"
              + countOf stats "error"
         /\ (forall key n,
               failureReasons stats !! key = Some n -> key ∈ failureNames /\ 1 <= n)
         /\ successful stats <= res_recordsCreated stats <= res_sensorsProcessed stats
         /\ paging stats
            = pagingOf (List.filter inLaBounds (stationCollection (store w)))
                (STATIONS_OFFSET env) (MAX_STATIONS_PER_RUN env).
Proof.
  destruct (handler_quiet_or_page w) as (r & w' & Hh & [[_ Hnone] | Hrun]).
  - exists r, w'. split; [exact Hh|]. intros resp stats Hr Hb.
    exfalso. exact (Hnone resp stats Hr Hb).
  - destruct Hrun as (_ & _ & _ & _ & _ & _ & rp & w2 & wp & prepared
                      & _ & Hrun & Hans & -> & _).
    exists (afterClose env (storeOps wp) prepared), w'. split; [exact Hh|].
    intros resp stats Hr Hb.
    destruct (afterClose_cases (storeOps wp) prepared) as [[Hc _] | (m & Hc & _)];
      rewrite Hc in Hr; [injection Hr as <-|discriminate].
    destruct rp as [results|e]; simpl in Hans;
      [subst prepared | destruct Hans as (msg & _ & ->); discriminate].
    injection Hb as <-. split; [reflexivity|].
    destruct (runPage_returns env _ _ _ _ _ _ Hrun) as (outs & -> & Hlen & Hall).
    match goal with
    | |- context [fold_left tally outs ?r0] =>
        destruct (tally_counts outs r0) as (Hc' & Ht & Hp);
        assert (Hcons : consistentStats (fold_left tally outs r0))
    end.
    { apply fold_tally_consistent; [|exact Hall].
      unfold consistentStats, countOf. simpl.
      split; [lia|]. split; [lia|]. split; [reflexivity|]. split; [|lia].
      intros key n Hkey. rewrite lookup_empty in Hkey. discriminate. }
    destruct Hcons as (Hs & Hf & Hsum & Hkeys & Hrec).
    rewrite Ht, Hp. cbn [total paging successful failed] in *.
    split; [reflexivity|]. split; [lia|]. split; [exact Hs|]. split; [exact Hf|].
    split; [|split; [exact Hkeys|split; [exact Hrec|reflexivity]]].
    rewrite Hsum. unfold failureNames. simpl. lia.
Qed.

End HandlerFacts.

Lemma handler_early_exits_witness :
  isSet (MONGO_URI Scenario.unreachableStoreEnv) = true
  /\ isSet (OPENAQ_API_KEY Scenario.unreachableStoreEnv) = true
  /\ storeFault Scenario.unreachableStoreEnv Client
       (S (storeOps Scenario.twoStationsWorld)) <> None
  /\ exists r w',
       handler Scenario.unreachableStoreEnv Scenario.twoStationsWorld = (r, w')
       /\ store w' = store Scenario.twoStationsWorld
       /\ fetchCount w' = fetchCount Scenario.twoStationsWorld
       /\ clock w' = clock Scenario.twoStationsWorld
       /\ r = Ok {| statusCode := 500; body := BodyFailed "store unavailable" |}.
Proof.
  assert (H : storeFault Scenario.unreachableStoreEnv Client
                (S (storeOps Scenario.twoStationsWorld)) <> None)
    by (vm_compute; discriminate).
  split; [reflexivity|]. split; [reflexivity|]. split; [exact H|].
  exact (handler_early_exits_do_no_work Scenario.unreachableStoreEnv
           Scenario.twoStationsWorld eq_refl eq_refl (or_intror (or_introl H))).
Defined.

Lemma handler_completes_witness :
  progressWritable Scenario.healthyEnv
  /\ (forall n, storeFault Scenario.healthyEnv ClientClose n = None)
  /\ List.filter inLaBounds (stationCollection (store Scenario.threeStationsWorld)) <> []
  /\ exists results w',
       handler Scenario.healthyEnv Scenario.threeStationsWorld
       = (Ok {| statusCode := 200; body := BodyCompleted results |}, w')
       /\ total results
          = Z.of_nat (length (pageOf (List.filter inLaBounds
                                        (stationCollection (store Scenario.threeStationsWorld)))
                                (STATIONS_OFFSET Scenario.healthyEnv)
                                (MAX_STATIONS_PER_RUN Scenario.healthyEnv)))
       /\ (successful results + failed results = total results)%Z
       /\ paging results
          = pagingOf (List.filter inLaBounds
                        (stationCollection (store Scenario.threeStationsWorld)))
              (STATIONS_OFFSET Scenario.healthyEnv)
              (MAX_STATIONS_PER_RUN Scenario.healthyEnv).
Proof.
  assert (Hprog : progressWritable Scenario.healthyEnv) by (intros n; reflexivity).
  assert (Hclose : forall n, storeFault Scenario.healthyEnv ClientClose n = None)
    by (intros n; reflexivity).
  assert (Hne : List.filter inLaBounds (stationCollection (store Scenario.threeStationsWorld))
                <> []) by (vm_compute; discriminate).
  split; [exact Hprog|]. split; [exact Hclose|]. split; [exact Hne|].
  exact (handler_completes_on_working_store Scenario.healthyEnv Scenario.threeStationsWorld
           eq_refl eq_refl eq_refl eq_refl eq_refl Hprog Hclose Hne).
Defined.

(** When [client.close()] rejects, the handler rejects with that error
    although the page was processed: the two Measurements of the run are
    stored and the progress record is written. *)
Example handler_rejects_when_close_fails :
  exists w',
    handler Scenario.closeFailsEnv Scenario.threeStationsWorld
    = (Throw (ThrownError "store unavailable"), w')
    /\ length (measurementCollection (store w')) = 2%nat
    /\ (batchesCompleted <$> progressCollection (store w')) = Some 1%Z.
Proof. eexists. split; [vm_compute; reflexivity|]. split; reflexivity. Qed.

